(** * Verification of the data-wrangling utilities (merger, query runner, reconciler)

    Shallow embedding of [src/gen_gl.py], [src/Gen_database.py] and
    [src/app.py].

    Modelling conventions.
    - A Python [str] is a [list ascii]; a character is its code point, and
      the model covers the code points below 256.  In that range the regex
      class [\d] is ['0'..'9'], [str.isspace] holds for 9-13, 28-32, 133
      and 160, and [str.lower] shifts ['A'..'Z'] and 192-222 (except 215).
    - [os.path] is the POSIX flavour ([posixpath]): the separator is ['/'].
    - A Python [dict] whose iteration order is observable is an association
      list in insertion order; a [dict] used only as a finite map is a
      [gmap].
    - Calls into the outside world (reading a file, running a query,
      serialising a table) are parameters of the functions that use them. *)

From Stdlib Require Import ZArith Ascii String List Bool Lia Permutation.
From Stdlib Require Import DecimalString DecimalNat.
From stdpp Require Import base option list gmap strings.

Import ListNotations.
Local Open Scope bool_scope.
Local Open Scope list_scope.

(** ** Python strings *)

Module PyStr.

Definition str := list ascii.

(** A literal. *)
Definition L (s : string) : str := list_ascii_of_string s.

Definition code (c : ascii) : N := N_of_ascii c.

Definition in_range (lo hi : N) (c : ascii) : bool :=
  (lo <=? code c)%N && (code c <=? hi)%N.

(** [\d] and [c in "0123456789"]. *)
Definition is_digit (c : ascii) : bool := in_range 48 57 c.

(** [str.isspace] on one character. *)
Definition is_space (c : ascii) : bool :=
  in_range 9 13 c || in_range 28 32 c || (code c =? 133)%N || (code c =? 160)%N.

(** [str.lower] on one character. *)
Definition lower_char (c : ascii) : ascii :=
  if in_range 65 90 c then ascii_of_N (code c + 32)
  else if in_range 192 222 c && negb (code c =? 215)%N then ascii_of_N (code c + 32)
  else c.

Definition lower (s : str) : str := map lower_char s.

(** [str.upper] on one character whose upper-case form is one character
    below 256: every character of the range but 181 and 255 (their capitals
    lie above 255) and 223 (its upper-case form has two letters). *)
Definition upper_char (c : ascii) : ascii :=
  if in_range 97 122 c then ascii_of_N (code c - 32)
  else if in_range 224 254 c && negb (code c =? 247)%N then ascii_of_N (code c - 32)
  else c.

Definition ch_eqb (a b : ascii) : bool := Ascii.eqb a b.

(** A literal character of a pattern compiled with [re.IGNORECASE]. *)
Definition ch_eqb_nocase (a b : ascii) : bool :=
  ch_eqb (lower_char a) (lower_char b).

Fixpoint str_eqb (a b : str) : bool :=
  match a, b with
  | [], [] => true
  | x :: a', y :: b' => ch_eqb x y && str_eqb a' b'
  | _, _ => false
  end.

(** [s.startswith(p)]. *)
Fixpoint startswith (p s : str) : bool :=
  match p, s with
  | [], _ => true
  | x :: p', y :: s' => ch_eqb x y && startswith p' s'
  | _ :: _, [] => false
  end.

(** [s.endswith(p)]. *)
Definition endswith (p s : str) : bool := startswith (rev p) (rev s).

(** [p in s]. *)
Fixpoint contains (p s : str) : bool :=
  startswith p s ||
  match s with
  | [] => false
  | _ :: t => contains p t
  end.

(** The string without its leading characters that satisfy [P]. *)
Fixpoint drop_while (P : ascii -> bool) (s : str) : str :=
  match s with
  | c :: t => if P c then drop_while P t else s
  | [] => []
  end.

(** [s.lstrip()], [s.rstrip()], [s.strip()]. *)
Definition lstrip (s : str) : str := drop_while is_space s.

Definition rstrip (s : str) : str := rev (lstrip (rev s)).

Definition strip (s : str) : str := rstrip (lstrip s).

(** [s.rstrip(chars)] for a one-character [chars]. *)
Definition rstrip_char (x : ascii) (s : str) : str :=
  rev (drop_while (fun c => ch_eqb c x) (rev s)).

(** [s[a:b]] for [0 <= a <= b]. *)
Definition slice (a b : nat) (s : str) : str := firstn (b - a) (skipn a s).

(** [s.replace(old, new)] for a non-empty [old]: the occurrences are taken
    from the left and do not overlap.  [fuel] bounds the number of
    characters still to scan. *)
Fixpoint replace_aux (fuel : nat) (old new s : str) : str :=
  match fuel with
  | O => s
  | S fuel' =>
      if startswith old s then new ++ replace_aux fuel' old new (skipn (length old) s)
      else match s with
           | [] => []
           | c :: t => c :: replace_aux fuel' old new t
           end
  end.

Definition replace (old new s : str) : str := replace_aux (S (length s)) old new s.

(** Lexicographic order on code points: [a < b] on Python strings. *)
Fixpoint str_ltb (a b : str) : bool :=
  match a, b with
  | [], [] => false
  | [], _ :: _ => true
  | _ :: _, [] => false
  | x :: a', y :: b' =>
      if (code x <? code y)%N then true
      else if (code y <? code x)%N then false
      else str_ltb a' b'
  end.

Definition str_leb (a b : str) : bool := negb (str_ltb b a).

(** [str(n)] for a non-negative integer. *)
Definition str_of_nat (n : nat) : str :=
  list_ascii_of_string (NilEmpty.string_of_uint (Nat.to_uint n)).

(** [int(s)] for a string of decimal digits. *)
Definition int_of_digits (s : str) : Z :=
  fold_left (fun acc c => (acc * 10 + Z.of_N (code c - 48))%Z) s 0%Z.

End PyStr.

Import PyStr.

(** ** Regular-expression search *)

Module Re.

(** [re.search]: the anchored matcher [m] is tried at each position from
    the left; the result is the text before the first match together with
    what [m] returned there. *)
Fixpoint search {A} (m : str -> option A) (s : str) : option (str * A) :=
  match m s with
  | Some r => Some ([], r)
  | None =>
      match s with
      | [] => None
      | c :: t =>
          match search m t with
          | Some (pre, r) => Some (c :: pre, r)
          | None => None
          end
      end
  end.

(** [\d{n}] at the head of [s]: the digits and the rest. *)
Fixpoint digits (n : nat) (s : str) : option (str * str) :=
  match n with
  | O => Some ([], s)
  | S n' =>
      match s with
      | c :: t =>
          if is_digit c then
            match digits n' t with
            | Some (d, r) => Some (c :: d, r)
            | None => None
            end
          else None
      | [] => None
      end
  end.

(** A literal [lit] under [re.IGNORECASE] at the head of [s]: the rest. *)
Fixpoint literal_nocase (lit s : str) : option str :=
  match lit, s with
  | [], _ => Some s
  | x :: lit', y :: s' => if ch_eqb_nocase x y then literal_nocase lit' s' else None
  | _ :: _, [] => None
  end.

(** A literal at the head of [s]: the rest. *)
Fixpoint literal (lit s : str) : option str :=
  match lit, s with
  | [], _ => Some s
  | x :: lit', y :: s' => if ch_eqb x y then literal lit' s' else None
  | _ :: _, [] => None
  end.

(** [\d*] at the head of [s], greedy: the digits and the rest. *)
Fixpoint digits_star (s : str) : str * str :=
  match s with
  | c :: t => if is_digit c then let '(d, r) := digits_star t in (c :: d, r) else ([], s)
  | [] => ([], [])
  end.

(** [seq_num:(\d+)]: group 1. *)
Definition seq_num_pattern (s : str) : option str :=
  match literal (L "seq_num:") s with
  | Some t =>
      match digits_star t with
      | ([], _) => None
      | (d, _) => Some d
      end
  | None => None
  end.

(** [re.sub(pattern, '', s)]: every match, found from the left and not
    overlapping, is deleted; the matcher returns the text after the match.
    [fuel] bounds the number of matches. *)
Fixpoint sub_fuel (fuel : nat) (m : str -> option str) (s : str) : str :=
  match fuel with
  | O => s
  | S fuel' =>
      match search m s with
      | Some (pre, rest) => pre ++ sub_fuel fuel' m rest
      | None => s
      end
  end.

Definition sub (m : str -> option str) (s : str) : str := sub_fuel (S (length s)) m s.

(** [.*$] at the head of [s]: the dot does not match a line feed, and the
    dollar matches at the end and before a line feed that ends the string.
    The result is the text after the match. *)
Fixpoint dot_star_eol (s : str) : option str :=
  match s with
  | [] => Some []
  | c :: t =>
      if ch_eqb c "010" then
        match t with
        | [] => Some s
        | _ => None
        end
      else dot_star_eol t
  end.

(** [[-_]]. *)
Definition is_dash_us (c : ascii) : bool := ch_eqb c "-" || ch_eqb c "_".

(** [D(?P<d>\d{6})] under [re.IGNORECASE]: group [d] and the rest. *)
Definition D_digits (s : str) : option (str * str) :=
  match literal_nocase (L "D") s with
  | Some t => digits 6 t
  | None => None
  end.

(** [[-_]?D(?P<d>\d{6})]: the optional character is greedy, and the
    matcher backtracks to the empty alternative. *)
Definition d_pattern (s : str) : option (str * str) :=
  match s with
  | c :: t =>
      if is_dash_us c then
        match D_digits t with
        | Some r => Some r
        | None => D_digits s
        end
      else D_digits s
  | [] => D_digits s
  end.

(** [D\d{6}.*$] under [re.IGNORECASE]: the text after the match. *)
Definition D_suffix (s : str) : option str :=
  match D_digits s with
  | Some (_, r) => dot_star_eol r
  | None => None
  end.

(** [[-_]?D\d{6}.*$] under [re.IGNORECASE]. *)
Definition d_suffix_pattern (s : str) : option str :=
  match s with
  | c :: t =>
      if is_dash_us c then
        match D_suffix t with
        | Some r => Some r
        | None => D_suffix s
        end
      else D_suffix s
  | [] => D_suffix s
  end.

(** [JV(?P<jv>\d{8})] under [re.IGNORECASE]. *)
Definition jv_pattern (s : str) : option (str * str) :=
  match literal_nocase (L "JV") s with
  | Some t => digits 8 t
  | None => None
  end.

End Re.

(** ** [os.path] *)

Module OsPath.

(** [p.rfind(c)]: the index of the last occurrence of [c], or [-1]. *)
Fixpoint rfind_from (c : ascii) (p : str) (i last : Z) : Z :=
  match p with
  | [] => last
  | x :: t => rfind_from c t (i + 1)%Z (if ch_eqb x c then i else last)
  end.

Definition rfind (c : ascii) (p : str) : Z := rfind_from c p 0%Z (-1)%Z.

(** [posixpath.basename]: [i = p.rfind('/') + 1; return p[i:]]. *)
Definition basename (p : str) : str :=
  let i := (rfind "/" p + 1)%Z in
  skipn (Z.to_nat i) p.

(** [posixpath.join(a, b)]. *)
Definition join (a b : str) : str :=
  if startswith (L "/") b then b
  else if str_eqb a [] || endswith (L "/") a then a ++ b
  else a ++ L "/" ++ b.

(** [posixpath.splitext], that is [genericpath._splitext]: the extension
    starts at the last dot after the last separator, unless only dots
    precede it in the file name. *)
Definition splitext (p : str) : str * str :=
  let sepIndex := rfind "/" p in
  let dotIndex := rfind "." p in
  if (sepIndex <? dotIndex)%Z then
    let leading := slice (Z.to_nat (sepIndex + 1)) (Z.to_nat dotIndex) p in
    if forallb (fun x => ch_eqb x ".") leading then (p, [])
    else (firstn (Z.to_nat dotIndex) p, skipn (Z.to_nat dotIndex) p)
  else (p, []).

End OsPath.

Import Re OsPath.

(** ** Lists *)

Module PyList.

(** [list.sort] and the other stable sorts: insertion from the left, each
    element going behind the elements that are not greater. *)
Fixpoint insert_sorted {A} (lt : A -> A -> bool) (x : A) (l : list A) : list A :=
  match l with
  | [] => [x]
  | y :: t => if lt x y then x :: l else y :: insert_sorted lt x t
  end.

Definition stable_sort {A} (lt : A -> A -> bool) (l : list A) : list A :=
  fold_left (fun acc x => insert_sorted lt x acc) l [].

(** [l.index(x)]. *)
Fixpoint index (x : str) (l : list str) : option nat :=
  match l with
  | [] => None
  | y :: t => if str_eqb x y then Some 0 else option_map S (index x t)
  end.

End PyList.

Import PyList.

(** ** Insertion-ordered dictionaries *)

Module Dict.

Definition dict (V : Type) := list (str * V).

(** [d.get(k)]. *)
Fixpoint get {V} (k : str) (d : dict V) : option V :=
  match d with
  | [] => None
  | (k', v) :: t => if str_eqb k k' then Some v else get k t
  end.

(** [d[k] = v]: an existing key keeps its position, a new key goes last. *)
Fixpoint set {V} (k : str) (v : V) (d : dict V) : dict V :=
  match d with
  | [] => [(k, v)]
  | (k', v') :: t => if str_eqb k k' then (k', v) :: t else (k', v') :: set k v t
  end.

Definition keys {V} (d : dict V) : list str := map fst d.
Definition values {V} (d : dict V) : list V := map snd d.

End Dict.

(** ** Exceptions *)

Module Exc.

Inductive exn :=
| KeyError (key : str)
| ValueError (msg : str)
| StopIteration
| IndexError
| LibraryError (msg : str).

(** [str(e)]. *)
Definition str_of_exn (e : exn) : str :=
  match e with
  | KeyError k => L "'" ++ k ++ L "'"
  | ValueError m => m
  | StopIteration => []
  | IndexError => L "list index out of range"
  | LibraryError m => m
  end.

(** The outcome of an expression that may raise. *)
Inductive result (A : Type) :=
| Ok (a : A)
| Raise (e : exn).
Arguments Ok {A} a.
Arguments Raise {A} e.

Definition bind {A B} (r : result A) (k : A -> result B) : result B :=
  match r with
  | Ok a => k a
  | Raise e => Raise e
  end.

End Exc.

Import Exc.

Notation "'do' x <- r ; k" := (Exc.bind r (fun x => k))
  (at level 10, x name, r at level 100, k at level 200).

(** ** Data frames *)

Module Pandas.

(** A column label: a string, or an integer when the file has no header. *)
Inductive label :=
| LInt (n : Z)
| LStr (s : str).

Definition label_eqb (a b : label) : bool :=
  match a, b with
  | LInt n, LInt m => (n =? m)%Z
  | LStr s, LStr t => str_eqb s t
  | _, _ => false
  end.

(** [str(label)]. *)
Definition str_of_label (l : label) : str :=
  match l with
  | LInt n => list_ascii_of_string (NilZero.string_of_int (Z.to_int n))
  | LStr s => s
  end.

(** A frame in row order: the labels of the columns, and for each row its
    index label and its cells. *)
Record DataFrame (C : Type) := mkDF {
  columns : list label;
  rows : list (Z * list C)
}.
Arguments mkDF {C} columns rows.
Arguments columns {C} d.
Arguments rows {C} d.

Section Frame.
Context {C : Type}.
Implicit Types (df : DataFrame C).

(** [len(df)]. *)
Definition len df : nat := length (rows df).

(** [df.empty]: no column or no row. *)
Definition empty df : bool :=
  (length (columns df) =? 0) || (length (rows df) =? 0).

(** Every row has one cell per column. *)
Definition well_formed df : Prop :=
  Forall (fun r => length (snd r) = length (columns df)) (rows df).

(** The position of the first column labelled [l]. *)
Fixpoint position (l : label) (ls : list label) : option nat :=
  match ls with
  | [] => None
  | x :: t => if label_eqb l x then Some 0 else option_map S (position l t)
  end.

(** [df.iloc[:, j]]. *)
Definition iloc_col (dflt : C) (j : nat) df : list C :=
  map (fun r => nth j (snd r) dflt) (rows df).

(** [df[l]]. *)
Definition getitem (dflt : C) (l : label) df : result (list C) :=
  match position l (columns df) with
  | Some j => Ok (iloc_col dflt j df)
  | None => Raise (KeyError (str_of_label l))
  end.

(** [df.iloc[:, j] = df.iloc[:, j].apply(f)]. *)
Definition apply_col (j : nat) (f : C -> C) df : DataFrame C :=
  mkDF (columns df) (map (fun r => (fst r, alter f j (snd r))) (rows df)).

(** [df[l] = vals]: an existing column is overwritten, a new one goes last. *)
Definition setitem (l : label) (vals : list C) df : DataFrame C :=
  match position l (columns df) with
  | Some j =>
      mkDF (columns df)
           (zip_with (fun r v => (fst r, <[j := v]> (snd r))) (rows df) vals)
  | None =>
      mkDF (columns df ++ [l])
           (zip_with (fun r v => (fst r, snd r ++ [v])) (rows df) vals)
  end.

(** [df.loc[:, mask]]: the columns whose label satisfies [keep]. *)
Fixpoint select {X} (mask : list bool) (xs : list X) : list X :=
  match mask, xs with
  | b :: mask', x :: xs' => if b then x :: select mask' xs' else select mask' xs'
  | _, _ => []
  end.

Definition loc_columns (keep : label -> bool) df : DataFrame C :=
  let mask := map keep (columns df) in
  mkDF (select mask (columns df)) (map (fun r => (fst r, select mask (snd r))) (rows df)).
End Frame.

Definition map_cells {C D} (f : C -> D) (df : DataFrame C) : DataFrame D :=
  mkDF (columns df) (map (fun r => (fst r, map f (snd r))) (rows df)).

(** The floating-point numbers and the conversions the frames use. *)
Record FloatOps := {
  float : Type;
  (** [float(s)], [None] when it raises. *)
  float_of_str : str -> option float;
  (** [x / 100.0]. *)
  div100 : float -> float;
  (** [0.0]. *)
  fzero : float;
  (** [pd.to_numeric(s, errors='coerce')] on one string, [None] for NaN. *)
  to_numeric : str -> option float;
  (** [str(x)]. *)
  str_of_float : float -> str
}.

(** A cell: missing, a string, or a number. *)
Inductive cell (F : Type) :=
| NaN
| Str (s : str)
| Flt (f : F).
Arguments NaN {F}.
Arguments Str {F} s.
Arguments Flt {F} f.

(** [groupby(keys).cumcount()]: each row gets the number of earlier rows
    with the same key; [seen] counts the rows met so far per key. *)
Fixpoint cumcount_from (seen : gmap (list ascii) nat) (keys : list str) : list nat :=
  match keys with
  | [] => []
  | k :: t =>
      let n := default 0 (seen !! k) in
      n :: cumcount_from (<[k := S n]> seen) t
  end.

Definition cumcount (keys : list str) : list nat := cumcount_from ∅ keys.

(** [col + '|' + (df.groupby(col).cumcount() + 1).astype(str)]. *)
Definition search_keys (col : list str) : list str :=
  zip_with (fun s n => s ++ L "|" ++ str_of_nat (n + 1)) col (cumcount col).

End Pandas.

Import Pandas.

(** ** The reconciler: [src/gen_gl.py] *)

Module Reconciler.

(** [parse_dates_from_filename]. *)
Definition parse_dates_from_filename (filename : str) : option str * option str :=
  let base := basename filename in
  let d_match := Re.search d_pattern base in
  let d_date :=
    match d_match with
    | Some (_, (d, _)) => Some d
    | None => None
    end in
  let jv_match := Re.search jv_pattern base in
  let jv_date :=
    match jv_match with
    | Some (_, (jv_full, _)) =>
        Some (slice 2 4 jv_full ++ slice 4 6 jv_full ++ slice 6 8 jv_full)
    | None => None
    end in
  (d_date, jv_date).

(** The dictionaries stored in [chosen]; [_jv_int] is absent from the
    entries of files without a D-date and from every returned entry. *)
Record entry := {
  file : str;
  d_date : option str;
  jv_date : option str;
  _jv_int : option Z
}.

Definition valid_exts : list str :=
  [L ".csv"; L ".trf"; L ".txt"; L ".xls"; L ".xlsx"].

(** [fn.lower().endswith(valid_exts)]. *)
Definition has_valid_ext (fn : str) : bool :=
  existsb (fun e => endswith e (lower fn)) valid_exts.

(** [s.isdigit()] on a string of characters matched by [\d]. *)
Definition isdigit (s : str) : bool :=
  match s with
  | [] => false
  | _ => forallb is_digit s
  end.

(** [int(jv_date) if jv_date and jv_date.isdigit() else -1]. *)
Definition jv_int_of (jv_date : option str) : Z :=
  match jv_date with
  | Some j => if isdigit j then int_of_digits j else (-1)%Z
  | None => (-1)%Z
  end.

(** One iteration of the loop over [files_list]. *)
Definition pick_step (folder_path : str) (chosen : Dict.dict entry) (fn : str)
  : Dict.dict entry :=
  let file_path := join folder_path fn in
  if negb (has_valid_ext fn) then chosen
  else
    let '(d_date, jv_date) := parse_dates_from_filename fn in
    let jv_int := jv_int_of jv_date in
    match d_date with
    | None =>
        let key := L "__NO_D__::" ++ fn in
        Dict.set key
          {| file := file_path; d_date := None; jv_date := jv_date; _jv_int := None |}
          chosen
    | Some d =>
        let fresh :=
          {| file := file_path; d_date := Some d; jv_date := jv_date;
             _jv_int := Some jv_int |} in
        match Dict.get d chosen with
        | None => Dict.set d fresh chosen
        | Some cur =>
            if (default (-1)%Z (_jv_int cur) <? jv_int)%Z
            then Dict.set d fresh chosen
            else chosen
        end
    end.

(** [v.pop("_jv_int", None)]. *)
Definition pop_jv_int (v : entry) : entry :=
  {| file := file v; d_date := d_date v; jv_date := jv_date v; _jv_int := None |}.

(** [list.sort(key=...)] with string keys. *)
Definition sort_by {A} (key : A -> str) (l : list A) : list A :=
  stable_sort (fun x y => str_ltb (key x) (key y)) l.

(** [pick_latest_files_by_duplicate_d_date]. *)
Definition pick_latest_files_by_duplicate_d_date
    (folder_path : str) (files_list : list str) : list entry :=
  let chosen := fold_left (pick_step folder_path) files_list [] in
  let results := map pop_jv_int (Dict.values chosen) in
  sort_by (fun x => lower (basename (file x))) results.

(** [excel_col_to_index], on a name whose characters have an upper-case
    form of one character below 256 (see [upper_char]), as the names of
    [gl_columns_letters] and [tlf_columns_letters] have, the only names it
    is called on. *)
Definition excel_col_to_index (col_str : str) : Z :=
  (fold_left
     (fun num c =>
        if is_digit c then num
        else num * 26 + (Z.of_N (code (upper_char c)) - Z.of_N (code "A")) + 1)
     col_str 0 - 1)%Z.

Definition tlf_reserved_rows : nat := 2.
Definition gl_reserved_rows : nat := 10.
Definition gap_rows : nat := 3.
Definition exclude_tlf_columns : list str :=
  [L "from_acct"; L "to_acct"; L "auth_branch_from"].

Definition gl_columns_letters : list str :=
  [L "J"; L "K"; L "L"; L "M"; L "N"; L "P"; L "AM"; L "AN"; L "AZ"].
Definition gl_new_headers : list str :=
  [L "RC"; L "OC"; L "CH"; L "Product Code"; L "Account Code"; L "Tax";
   L "DR"; L "CR"; L "Seq"].
Definition tlf_columns_letters : list str :=
  [L "F"; L "G"; L "I"; L "J"; L "K"; L "M"; L "O"; L "V";
   L "AF"; L "AS"; L "AT"; L "AU"; L "AV"; L "AX"; L "AZ"; L "CU"; L "DP"; L "BH"].

Definition gl_indices : list Z := map excel_col_to_index gl_columns_letters.
Definition tlf_indices : list Z := map excel_col_to_index tlf_columns_letters.

(** [get_col_pos_in_tlf]. *)
Definition get_col_pos_in_tlf (target_letter : str) : Z :=
  let sorted_letters :=
    stable_sort (fun x y => (excel_col_to_index x <? excel_col_to_index y)%Z)
                tlf_columns_letters in
  match index target_letter sorted_letters with
  | Some i => Z.of_nat i
  | None => (-1)%Z
  end.

Definition pos_AZ : Z := get_col_pos_in_tlf (L "AZ").
Definition pos_CU : Z := get_col_pos_in_tlf (L "CU").

Section Tables.
Context (fl : FloatOps).

Abbreviation cell := (Pandas.cell (float fl)).
Abbreviation frame := (DataFrame cell).

(** [str(val)] and [Series.astype(str)] on one cell. *)
Definition astype_str (c : cell) : str :=
  match c with
  | NaN => L "nan"
  | Str s => s
  | Flt f => str_of_float fl f
  end.

(** [convert_implied_decimal]. *)
Definition convert_implied_decimal (val : cell) : cell :=
  let val_str := strip (astype_str val) in
  match float_of_str fl val_str with
  | Some f => Flt (div100 fl f)
  | None => val
  end.

(** [extract_seq_num]. *)
Definition extract_seq_num (val : cell) : str :=
  let text := astype_str val in
  match Re.search seq_num_pattern text with
  | Some (_, g) => g
  | None => strip (astype_str val)
  end.

(** [df['_SearchKey'] = search_col + '|' + ...]. *)
Definition add_search_key (search_col : list str) (df : frame) : frame :=
  setitem (LStr (L "_SearchKey")) (map Str (search_keys search_col)) df.

(** The reference table up to the point where the key is added. *)
Definition clean_tlf (raw : frame) : frame :=
  let tlf_df := map_cells (fun c => Str (strip (astype_str c))) raw in
  let tlf_df :=
    if negb (pos_AZ =? -1)%Z && (pos_AZ <? Z.of_nat (length (columns tlf_df)))%Z
    then apply_col (Z.to_nat pos_AZ) convert_implied_decimal tlf_df
    else tlf_df in
  let tlf_df :=
    if negb (pos_CU =? -1)%Z && (pos_CU <? Z.of_nat (length (columns tlf_df)))%Z
    then apply_col (Z.to_nat pos_CU) convert_implied_decimal tlf_df
    else tlf_df in
  tlf_df.

(** The reference table as it is written. *)
Definition load_tlf (raw : frame) : frame :=
  let tlf_df := clean_tlf raw in
  if negb (empty tlf_df) && (8 <? length (columns tlf_df))
  then
    let search_col := map (fun c => strip (astype_str c)) (iloc_col NaN 8 tlf_df) in
    add_search_key search_col tlf_df
  else tlf_df.

(** The order of [sort_values]: strings by code points, missing last. *)
Definition cell_compare (a b : cell) : comparison :=
  match a, b with
  | Str x, Str y => if str_ltb x y then Lt else if str_ltb y x then Gt else Eq
  | NaN, NaN => Eq
  | NaN, _ => Gt
  | _, NaN => Lt
  | _, _ => Eq
  end.

Fixpoint row_lt (js : list nat) (r1 r2 : list cell) : bool :=
  match js with
  | [] => false
  | j :: t =>
      match cell_compare (nth j r1 NaN) (nth j r2 NaN) with
      | Lt => true
      | Gt => false
      | Eq => row_lt t r1 r2
      end
  end.

(** [df.sort_values(by=by)], ascending and stable. *)
Definition sort_values (by_ : list label) (df : frame) : frame :=
  let js := omap (fun l => position l (columns df)) by_ in
  mkDF (columns df) (stable_sort (fun a b => row_lt js (snd a) (snd b)) (rows df)).

(** [pd.to_numeric(col, errors='coerce').fillna(0)] on one cell. *)
Definition to_numeric_fill0 (c : cell) : cell :=
  match c with
  | NaN => Flt (fzero fl)
  | Str s => Flt (default (fzero fl) (to_numeric fl s))
  | Flt f => Flt f
  end.

(** [df[l] = df[l].apply(f)]; a [KeyError] when the column is missing. *)
Definition update_col (l : str) (f : cell -> cell) (df : frame) : result frame :=
  do col <- getitem NaN (LStr l) df;
  Ok (setitem (LStr l) (map f col) df).

Definition has_column (l : str) (df : frame) : bool :=
  existsb (label_eqb (LStr l)) (columns df).

(** The source table up to the point where the key is added. *)
Definition clean_gl (raw : frame) : result frame :=
  let gl_df :=
    if length (columns raw) =? length gl_new_headers
    then mkDF (map LStr gl_new_headers) (rows raw)
    else raw in
  do gl_df <- update_col (L "RC") (fun c => Str (strip (astype_str c))) gl_df;
  do gl_df <- update_col (L "CH") (fun c => Str (strip (astype_str c))) gl_df;
  do gl_df <- update_col (L "DR") to_numeric_fill0 gl_df;
  do gl_df <- update_col (L "CR") to_numeric_fill0 gl_df;
  do gl_df <-
    (if has_column (L "Seq") gl_df
     then update_col (L "Seq") (fun c => Str (strip (extract_seq_num c))) gl_df
     else Ok gl_df);
  let cols_to_sort := [L "CH"; L "RC"; L "OC"; L "Product Code"] in
  let valid_sort_cols := List.filter (fun c => has_column c gl_df) cols_to_sort in
  let gl_df :=
    match valid_sort_cols with
    | [] => gl_df
    | _ => sort_values (map LStr valid_sort_cols) gl_df
    end in
  Ok gl_df.

(** The source table as it is written. *)
Definition load_gl (raw : frame) : result frame :=
  do gl_df <- clean_gl raw;
  if negb (empty gl_df)
  then
    do seq <- getitem NaN (LStr (L "Seq")) gl_df;
    let search_col_gl := map astype_str seq in
    Ok (add_search_key search_col_gl gl_df)
  else Ok gl_df.
End Tables.

(** [strip_d_suffix_for_tlf_sheet]. *)
Definition strip_d_suffix_for_tlf_sheet (name_no_ext : str) : str :=
  strip (Re.sub d_suffix_pattern name_no_ext).

(** A string used as a condition. *)
Definition truthy (s : str) : bool := negb (str_eqb s []).

(** The lookup names tried for a source file, in order. *)
Definition tlf_lookup_candidates (filename : str) (chosen_d_date : option str)
  : list str :=
  let clean_name := Re.sub (literal_nocase (L "GL")) filename in
  let clean_name := strip (fst (splitext clean_name)) in
  let fallback_lookup_name := strip_d_suffix_for_tlf_sheet clean_name in
  let dated :=
    match chosen_d_date with
    | Some d => if truthy d then [d; L "D" ++ d] else []
    | None => []
    end in
  dated ++ [fallback_lookup_name].

(** The loop over the candidates: the first one that is non-empty and a
    sheet name. *)
Fixpoint first_sheet (sheet_names cands : list str) : option str :=
  match cands with
  | [] => None
  | cand :: rest =>
      if truthy cand && existsb (str_eqb cand) sheet_names then Some cand
      else first_sheet sheet_names rest
  end.

Definition tlf_sheet_to_use (sheet_names : list str) (filename : str)
    (chosen_d_date : option str) : option str :=
  first_sheet sheet_names (tlf_lookup_candidates filename chosen_d_date).

(** [chosen_d_date if chosen_d_date else os.path.splitext(filename)[0]]. *)
Definition desired_sheet_name (filename : str) (chosen_d_date : option str) : str :=
  match chosen_d_date with
  | Some d => if truthy d then d else fst (splitext filename)
  | None => fst (splitext filename)
  end.

(** [make_unique_sheet_name]; the loop tries at most one suffix more than
    there are sheets. *)
Fixpoint unique_name_loop (fuel : nat) (sheetnames : list str) (base name : str)
    (i : nat) : str :=
  match fuel with
  | O => name
  | S fuel' =>
      if existsb (str_eqb name) sheetnames then
        let suffix := L "_" ++ str_of_nat i in
        let name' := firstn 31 (firstn (31 - length suffix) base ++ suffix) in
        unique_name_loop fuel' sheetnames base name' (S i)
      else name
  end.

Definition make_unique_sheet_name (sheetnames : list str) (desired_name : str) : str :=
  let base := firstn 31 (if truthy desired_name then desired_name else L "Sheet") in
  unique_name_loop (S (length sheetnames)) sheetnames base base 2.

Section Processing.
Context (fl : FloatOps).

Abbreviation cell := (Pandas.cell (float fl)).
Abbreviation frame := (DataFrame cell).

(** What the run finds outside: the sheets of the reference workbook, the
    readers, the title the workbook gives a new sheet, and the two places
    where writing a sheet can raise. *)
Record World := {
  (** [tlf_book.sheet_names]. *)
  sheet_names : list str;
  (** [pd.read_excel(tlf_book, sheet_name=..., usecols=tlf_indices, dtype=str)]. *)
  read_tlf_sheet : str -> result frame;
  (** [pd.read_excel(source_book, header=None, usecols=gl_indices, dtype=str)]. *)
  read_source_excel : str -> result frame;
  (** [pd.read_csv(file_path, header=None, usecols=gl_indices, encoding=...)]. *)
  read_source_csv : str -> str -> result frame;
  (** [writer.book.create_sheet(name)] raises for a title it rejects. *)
  create_sheet_error : str -> option exn;
  (** The title [writer.book.create_sheet(name)] gives the new sheet, from the
      titles in the book and [name]: the workbook changes a title that one
      of its sheets has already, also in another case. *)
  new_sheet_title : list str -> str -> str;
  (** [df.to_excel(writer, ...)] raises for a table it cannot write. *)
  to_excel_error : frame -> option exn
}.

(** What is laid out on a sheet, in the order of writing. *)
Inductive block :=
| RawTLF (df : frame)
| RawGL (df : frame)
| SearchUI
| ReportTLF (display_cols : list label)
| ReportGL (headers : list label).

Record worksheet := {
  title : str;
  blocks : list block
}.

(** The workbook being written and the lines printed so far. *)
Record state := {
  book : list worksheet;
  stdout : list str
}.

(** A statement: it ends normally or raises, and leaves a state. *)
Definition M (A : Type) := state -> result A * state.

Definition ret {A} (a : A) : M A := fun st => (Ok a, st).

Definition mbind {A B} (m : M A) (k : A -> M B) : M B :=
  fun st =>
    match m st with
    | (Ok a, st') => k a st'
    | (Raise e, st') => (Raise e, st')
    end.

Definition lift {A} (r : result A) : M A := fun st => (r, st).

(** [try: m except Exception as e: h e]. *)
Definition try_except {A} (m : M A) (h : exn -> M A) : M A :=
  fun st =>
    match m st with
    | (Ok a, st') => (Ok a, st')
    | (Raise e, st') => h e st'
    end.

(** [print(line)]. *)
Definition print (line : str) : M unit :=
  fun st => (Ok tt, {| book := book st; stdout := stdout st ++ [line] |}).

(** [for x in l: f x]. *)
Fixpoint for_each {A} (l : list A) (f : A -> M unit) : M unit :=
  match l with
  | [] => ret tt
  | x :: t => mbind (f x) (fun _ => for_each t f)
  end.

Notation "'perform' x <- m ; k" := (mbind m (fun x => k))
  (at level 10, x name, m at level 100, k at level 200).

Context (w : World).

(** [writer.book.create_sheet(name)]: the new sheet is still blank, and
    its title is the one the workbook gives it. *)
Definition create_sheet (name : str) : M unit :=
  fun st =>
    match create_sheet_error w name with
    | Some e => (Raise e, st)
    | None =>
        (Ok tt, {| book := book st ++
                           [{| title := new_sheet_title w (map title (book st)) name;
                               blocks := [] |}];
                   stdout := stdout st |})
    end.

(** [ws = writer.sheets[name]]: [writer.sheets] is the dictionary of the
    sheets of the book by title, made anew at every access, so that the
    assignment [writer.sheets[name] = worksheet] before it leaves no
    trace. *)
Definition sheet_by_name (name : str) : M unit :=
  fun st =>
    if existsb (str_eqb name) (map title (book st)) then (Ok tt, st)
    else (Raise (KeyError name), st).

(** One more block on the sheet [ws], the sheet created last. *)
Definition write_block (b : block) : M unit :=
  fun st =>
    match rev (book st) with
    | ws :: before =>
        (Ok tt, {| book := rev before ++ [{| title := title ws; blocks := blocks ws ++ [b] |}];
                   stdout := stdout st |})
    | [] => (Ok tt, st)
    end.

(** [df.to_excel(writer, sheet_name=..., ...)] followed by the styling of
    the cells written. *)
Definition to_excel (b : block) (df : frame) : M unit :=
  match to_excel_error w df with
  | Some e => lift (Raise e)
  | None => write_block b
  end.

(** The columns shown in the reference panel. *)
Fixpoint swap_labels (a b : label) (ls : list label) : list label :=
  match ls with
  | [] => []
  | x :: t =>
      (if label_eqb x a then b else if label_eqb x b then a else x) :: swap_labels a b t
  end.

Definition display_cols (tlf_df : frame) : list label :=
  let cols :=
    List.filter
      (fun c => negb (label_eqb c (LStr (L "_SearchKey")))
                && negb (existsb (fun x => label_eqb c (LStr x)) exclude_tlf_columns))
      (columns tlf_df) in
  let amt := LStr (L "amt_1_full") in
  let resp := LStr (L "resp_byte") in
  if existsb (label_eqb amt) cols && existsb (label_eqb resp) cols
  then swap_labels amt resp cols
  else cols.

(** The statements under [try:] that load the two tables of a file. *)
Definition load_tables (item : entry) : M (frame * frame) :=
  let file_path := file item in
  let filename := basename file_path in
  let chosen_d_date := d_date item in
  let sheet := tlf_sheet_to_use (sheet_names w) filename chosen_d_date in
  perform tlf_df <-
    match sheet with
    | Some s => perform raw <- lift (read_tlf_sheet w s); ret (load_tlf fl raw)
    | None => ret (mkDF [] [])
    end;
  perform raw_gl <-
    (if endswith (L ".xls") (lower filename) || endswith (L ".xlsx") (lower filename)
     then lift (read_source_excel w file_path)
     else try_except (lift (read_source_csv w file_path (L "utf-8")))
                     (fun _ => lift (read_source_csv w file_path (L "cp874"))));
  perform gl_df <- lift (load_gl fl raw_gl);
  ret (tlf_df, gl_df).

(** The statements under [try:] that write the sheet of a file. *)
Definition write_sheet (desired : str) (tlf_df gl_df : frame) : M unit :=
  perform target_sheet_name <-
    (fun st => ret (make_unique_sheet_name (map title (book st)) desired) st);
  perform _ <- create_sheet target_sheet_name;
  perform _ <- sheet_by_name target_sheet_name;
  perform _ <- (if empty tlf_df then ret tt else to_excel (RawTLF tlf_df) tlf_df);
  perform _ <- (if empty gl_df then ret tt else to_excel (RawGL gl_df) gl_df);
  perform _ <- write_block SearchUI;
  perform _ <-
    (if empty tlf_df then ret tt else write_block (ReportTLF (display_cols tlf_df)));
  if empty gl_df then ret tt
  else write_block
         (ReportGL (List.filter (fun c => negb (label_eqb c (LStr (L "_SearchKey"))))
                                (columns gl_df))).

(** The statements under [try:] for one selected file. *)
Definition process_file (item : entry) : M unit :=
  let filename := basename (file item) in
  let desired := desired_sheet_name filename (d_date item) in
  perform tables <- load_tables item;
  write_sheet desired (fst tables) (snd tables).

(** The message printed for a file whose processing raised. *)
Definition error_line (item : entry) (e : exn) : str :=
  L "Error processing file " ++ basename (file item) ++ L ": " ++ str_of_exn e.

(** The body of the loop: [try: ... except Exception as e: print(...)]. *)
Definition handle_file (item : entry) : M unit :=
  try_except (process_file item) (fun e => print (error_line item e)).

(** [for item in files_to_process: ...]. *)
Definition process_files (files_to_process : list entry) : M unit :=
  for_each files_to_process handle_file.

End Processing.

(** The loop of the upload handler that tells the reference workbook from
    the source files; [walk] is what [os.walk(temp_dir)] yields. *)
Definition classify_file (root : str) (acc : option str * list str) (file : str)
  : option str * list str :=
  let '(tlf_path, source_files) := acc in
  if startswith (L ".") file || contains (L "__MACOSX") root then acc
  else
    let full_path := join root file in
    if contains (L "TLF") file then (Some full_path, source_files)
    else (tlf_path, source_files ++ [file]).

Definition identify_files (walk : list (str * list str * list str))
  : option str * list str :=
  fold_left (fun acc '(root, dirs, files) => fold_left (classify_file root) files acc)
            walk (None, []).

Arguments sheet_names {fl} w.
Arguments read_tlf_sheet {fl} w _.
Arguments read_source_excel {fl} w _.
Arguments read_source_csv {fl} w _ _.
Arguments create_sheet_error {fl} w _.
Arguments new_sheet_title {fl} w _ _.
Arguments to_excel_error {fl} w _.
Arguments RawTLF {fl} df.
Arguments RawGL {fl} df.
Arguments SearchUI {fl}.
Arguments ReportTLF {fl} display_cols.
Arguments ReportGL {fl} headers.
Arguments title {fl} w.
Arguments blocks {fl} w.
Arguments book {fl} s.
Arguments stdout {fl} s.

End Reconciler.

Import Reconciler.


(** ** Vocabulary of the statements *)

Module Spec.

Definition all_digits (s : str) : Prop := Forall (fun c => is_digit c = true) s.

(** [x] is the letter [u] or its lower-case form [l]. *)
Definition letter (u l x : ascii) : Prop := x = u \/ x = l.

(** In [base], right after the prefix [pre], stands [D] or [d] followed by
    the six digits [ds]. *)
Definition D_at (base pre ds : str) : Prop :=
  exists c post,
    base = pre ++ c :: ds ++ post /\ letter "D" "d" c /\
    length ds = 6 /\ all_digits ds.

(** In [base], right after the prefix [pre], stands [JV] in any case
    followed by the eight digits [ds]. *)
Definition JV_at (base pre ds : str) : Prop :=
  exists c1 c2 post,
    base = pre ++ c1 :: c2 :: ds ++ post /\ letter "J" "j" c1 /\ letter "V" "v" c2 /\
    length ds = 8 /\ all_digits ds.

(** [pre] is the shortest prefix at which [occ] holds: the first occurrence. *)
Definition first_at (occ : str -> str -> Prop) (pre ds : str) : Prop :=
  occ pre ds /\ forall pre' ds', occ pre' ds' -> length pre <= length pre'.

End Spec.

Import Spec.

(** Vocabulary for the file selection. *)

Module PickSpec.

Definition d_of (fn : str) : option str := fst (parse_dates_from_filename fn).
Definition jv_of (fn : str) : option str := snd (parse_dates_from_filename fn).

(** The number that is compared: the JV token read as an integer, [-1]
    without a token. *)
Definition jv_rank (fn : str) : Z := jv_int_of (jv_of fn).

(** The dictionary returned for the file [fn]. *)
Definition result_entry (folder fn : str) : entry :=
  {| file := join folder fn; d_date := d_of fn; jv_date := jv_of fn; _jv_int := None |}.

(** [fn] stands somewhere in [files], has a recognised extension and the
    D-date [d], every such file before it has a smaller rank and every such
    file after it has a rank that is not larger. *)
Definition wins (files : list str) (d fn : str) : Prop :=
  exists pre post,
    files = pre ++ fn :: post /\ has_valid_ext fn = true /\ d_of fn = Some d /\
    (forall f, In f pre -> has_valid_ext f = true -> d_of f = Some d ->
               (jv_rank f < jv_rank fn)%Z) /\
    (forall f, In f post -> has_valid_ext f = true -> d_of f = Some d ->
               (jv_rank f <= jv_rank fn)%Z).

Definition has_d_date (d : str) (e : entry) : bool :=
  match d_date e with
  | Some x => str_eqb x d
  | None => false
  end.

(** What [chosen] holds for a winner, and for a file without D-date. *)
Definition stored_d (folder d w : str) : entry :=
  {| file := join folder w; d_date := Some d; jv_date := jv_of w;
     _jv_int := Some (jv_rank w) |}.

Definition stored_nod (folder fn : str) : entry :=
  {| file := join folder fn; d_date := None; jv_date := jv_of fn; _jv_int := None |}.

Definition no_d_key (fn : str) : str := L "__NO_D__::" ++ fn.

(** The loop invariant of the selection, after the files [fs]. *)
Definition chosen_inv (folder : str) (fs : list str) (chosen : Dict.dict entry) : Prop :=
  NoDup (Dict.keys chosen) /\
  (forall k e, Dict.get k chosen = Some e ->
     (exists w, wins fs k w /\ e = stored_d folder k w) \/
     (exists fn, k = no_d_key fn /\ In fn fs /\ has_valid_ext fn = true /\
                 d_of fn = None /\ e = stored_nod folder fn)) /\
  (forall fn d, In fn fs -> has_valid_ext fn = true -> d_of fn = Some d ->
                Dict.get d chosen <> None) /\
  (forall fn, In fn fs -> has_valid_ext fn = true -> d_of fn = None ->
              Dict.get (no_d_key fn) chosen = Some (stored_nod folder fn)).

End PickSpec.

Import PickSpec.

(** Vocabulary for the search keys. *)

Module KeySpec.

(** How often [b] occurs in [l]. *)
Definition occurrences (b : str) (l : list str) : nat :=
  length (List.filter (str_eqb b) l).

(** [keys] are the composite keys of the base values [bases]: row [i] has
    its base value, a bar, and the number of rows up to and including [i]
    that carry this base value; no two rows have the same key. *)
Definition composite_keys (bases keys : list str) : Prop :=
  length keys = length bases /\
  (forall i b, nth_error bases i = Some b ->
     nth_error keys i
     = Some (b ++ L "|" ++ str_of_nat (occurrences b (firstn (S i) bases)))) /\
  (forall i j k, nth_error keys i = Some k -> nth_error keys j = Some k -> i = j).

End KeySpec.

Import KeySpec.

(** Vocabulary for the sheet lookup. *)

Module LookupSpec.

(** [pre] without a [-] or [_] at its end. *)
Definition drop_last_sep (pre : str) : str :=
  match rev pre with
  | c :: r => if is_dash_us c then rev r else pre
  | [] => pre
  end.

(** [c] is the first of [cands] that is non-empty and among [names]. *)
Definition first_match (names cands : list str) (c : str) : Prop :=
  exists before after,
    cands = before ++ c :: after /\ c <> [] /\ In c names /\
    forall x, In x before -> x = [] \/ ~ In x names.

(** Blocks that show source data only. *)
Definition source_side {fl} (b : block fl) : bool :=
  match b with
  | RawTLF _ | ReportTLF _ => false
  | _ => true
  end.

(** The blocks of a sheet that was written to the end. *)
Definition expected_blocks {fl} (tlf_df gl_df : DataFrame (cell (float fl)))
  : list (block fl) :=
  (if empty tlf_df then [] else [RawTLF tlf_df]) ++
  (if empty gl_df then [] else [RawGL gl_df]) ++
  [SearchUI] ++
  (if empty tlf_df then [] else [ReportTLF (display_cols fl tlf_df)]) ++
  (if empty gl_df then []
   else [ReportGL (List.filter (fun c => negb (label_eqb c (LStr (L "_SearchKey"))))
                               (columns gl_df))]).

(** The world [w] with another reader for the reference sheets. *)
Definition with_tlf_reader {fl} (w : World fl)
    (reader : str -> result (DataFrame (cell (float fl)))) : World fl :=
  {| sheet_names := sheet_names w;
     read_tlf_sheet := reader;
     read_source_excel := read_source_excel w;
     read_source_csv := read_source_csv w;
     create_sheet_error := create_sheet_error w;
     new_sheet_title := new_sheet_title w;
     to_excel_error := to_excel_error w |}.

(** The lookup as the sentence about it reads: the third candidate is the
    base name without [GL], without extension and without the suffix that
    starts at a [-] or [_] followed by [D] and six digits; the first
    candidate that is a sheet name is taken. *)
Definition prefixed_D_suffix (s : str) : option str :=
  match s with
  | c :: t =>
      if is_dash_us c then
        match D_digits t with
        | Some _ => Some []
        | None => None
        end
      else None
  | [] => None
  end.

Definition claimed_fallback (filename : str) : str :=
  let name := fst (splitext (Re.sub (literal_nocase (L "GL")) filename)) in
  match Re.search prefixed_D_suffix name with
  | Some (pre, _) => pre
  | None => name
  end.

Definition claimed_candidates (filename : str) (chosen_d_date : option str) : list str :=
  match chosen_d_date with
  | Some d => [d; L "D" ++ d]
  | None => []
  end ++ [claimed_fallback filename].

Definition claimed_sheet (names : list str) (filename : str)
    (chosen_d_date : option str) : option str :=
  List.find (fun c => existsb (str_eqb c) names) (claimed_candidates filename chosen_d_date).

End LookupSpec.

Import LookupSpec.

(** Vocabulary for the loop over the selected files. *)

Module LoopSpec.

Section Runs.
Context {fl : FloatOps} (w : World fl).



End Runs.

End LoopSpec.

(** Vocabulary for the classification of the extracted files. *)

Module WalkSpec.

(** The files of a walk with their directories, in the order of the walk. *)
Definition walked (walk : list (str * list str * list str)) : list (str * str) :=
  flat_map (fun '(root, dirs, files) => map (fun f => (root, f)) files) walk.

(** Hidden files and files below a [__MACOSX] directory are left out. *)
Definition left_out (rf : str * str) : bool :=
  startswith (L ".") (snd rf) || contains (L "__MACOSX") (fst rf).

Definition names_TLF (rf : str * str) : bool := contains (L "TLF") (snd rf).

End WalkSpec.

Import LoopSpec.

(** ** The merger: [src/Gen_database.py] *)

Module Merger.

(** A sheet read with [dtype=str]: a cell is a string or missing. *)
Abbreviation sheet_frame := (DataFrame (option str)).

(** [df.columns.astype(str).str.contains(r"^Unnamed")] on one label. *)
Definition is_unnamed (l : label) : bool := startswith (L "Unnamed") (str_of_label l).

(** [df.loc[:, ~...].copy()]. *)
Definition drop_unnamed (df : sheet_frame) : sheet_frame :=
  loc_columns (fun l => negb (is_unnamed l)) df.

Definition notna (c : option str) : bool :=
  match c with
  | Some _ => true
  | None => false
  end.

(** [df.dropna(how="all")]. *)
Definition dropna_all (df : sheet_frame) : sheet_frame :=
  mkDF (columns df) (List.filter (fun r => existsb notna (snd r)) (rows df)).

(** The columns of [pd.concat(frames)]: the union, in order of appearance. *)
Definition union_columns (frames : list sheet_frame) : list label :=
  fold_left
    (fun acc df =>
       fold_left (fun acc l => if existsb (label_eqb l) acc then acc else acc ++ [l])
                 (columns df) acc)
    frames [].

(** A row of [df] laid out on the columns [cols]; a column [df] lacks is
    missing. *)
Definition reindex_row (cols : list label) (df : sheet_frame) (row : list (option str))
  : list (option str) :=
  map (fun l =>
         match position l (columns df) with
         | Some j => nth j row None
         | None => None
         end)
      cols.

(** [pd.concat(frames, ignore_index=True)]. *)
Definition concat_ignore_index (frames : list sheet_frame) : sheet_frame :=
  let cols := union_columns frames in
  let vals :=
    flat_map (fun df => map (fun r => reindex_row cols df (snd r)) (rows df)) frames in
  mkDF cols (zip (map Z.of_nat (seq 0 (length vals))) vals).

(** The message of the [ValueError], in Latin letters. *)
Definition no_data_message : str := L "no data left after cleaning".

Section Merge.
Context {bytes size : Type}.
(** [merged_df.to_parquet(buffer, index=False, engine="pyarrow")] followed by
    [buffer.getvalue()], and [len(parquet_bytes) / (1024 * 1024)]. *)
Context (to_parquet : sheet_frame -> bytes) (size_mb : bytes -> size).

Record stats := {
  sheet_count : nat;
  merged_rows : nat;
  per_sheet_rows : gmap (list ascii) nat;
  parquet_size_mb : size
}.

(** One iteration of the loop over [all_sheets.items()]. *)
Definition merge_step (acc : list sheet_frame * gmap (list ascii) nat)
    (kv : str * sheet_frame) : list sheet_frame * gmap (list ascii) nat :=
  let '(all_data_frames, per_sheet_rows) := acc in
  let '(sheet_name, df) := kv in
  let df := drop_unnamed df in
  let df := dropna_all df in
  let per_sheet_rows := <[sheet_name := len df]> per_sheet_rows in
  if 0 <? len df then (all_data_frames ++ [df], per_sheet_rows)
  else (all_data_frames, per_sheet_rows).

(** [merge_excel_to_parquet_bytes], from the sheets that [pd.read_excel]
    returned, in the order of the workbook. *)
Definition merge_excel_to_parquet_bytes (all_sheets : list (str * sheet_frame))
  : result (bytes * stats) :=
  let '(all_data_frames, per_sheet_rows) := fold_left merge_step all_sheets ([], ∅) in
  match all_data_frames with
  | [] => Raise (ValueError no_data_message)
  | _ :: _ =>
      let merged_df := concat_ignore_index all_data_frames in
      let parquet_bytes := to_parquet merged_df in
      Ok (parquet_bytes,
          {| sheet_count := length all_sheets;
             merged_rows := len merged_df;
             per_sheet_rows := per_sheet_rows;
             parquet_size_mb := size_mb parquet_bytes |})
  end.

End Merge.

Arguments sheet_count {size} s.
Arguments merged_rows {size} s.
Arguments per_sheet_rows {size} s.
Arguments parquet_size_mb {size} s.

End Merger.

(** Vocabulary for the merger. *)

Module MergerSpec.

Import Merger.

(** A sheet after both cleaning steps. *)
Definition clean (df : sheet_frame) : sheet_frame := dropna_all (drop_unnamed df).

(** The cleaned sheets of a workbook, and those that still have rows. *)
Definition cleaned (all_sheets : list (str * sheet_frame)) : list sheet_frame :=
  map (fun kv => clean (snd kv)) all_sheets.

Definition kept (all_sheets : list (str * sheet_frame)) : list sheet_frame :=
  List.filter (fun df => 0 <? len df) (cleaned all_sheets).

(** The row counts recorded for the sheets, on top of [m]. *)
Definition row_counts (all_sheets : list (str * sheet_frame)) (m : gmap (list ascii) nat)
  : gmap (list ascii) nat :=
  fold_left (fun m kv => <[fst kv := len (clean (snd kv))]> m) all_sheets m.

End MergerSpec.

(** ** The query runner: [src/app.py] *)

Module QueryRunner.

(** What the page shows besides its widgets. *)
Inductive ui_event :=
| ToastMaxPages
| ToastResultsUpdated
| ErrorSql (e : exn).

(** The message of the [ValueError] for an empty query, in Latin letters. *)
Definition empty_sql_message : str := L "SQL is empty".

Section Runner.
(** [R] is a query result, [duckdb_query q] is [duckdb.query(q).to_df()]. *)
Context {R : Type} (duckdb_query : str -> result R).

Record page := {
  id : str;
  title : str;
  query : str;
  last_result : option R
}.

(** [st.session_state], without the uploaded table. *)
Record session_state := {
  query_pages : list page;
  active_page_id : str;
  page_selector_id : str;
  is_switching_page : bool;
  run_id : nat
}.

(** The session of a fresh browser tab; [first_id] is the UUID drawn. *)
Definition initial_state (first_id : str) : session_state :=
  {| query_pages := [{| id := first_id; title := L "Query 1";
                        query := L "SELECT * FROM database"; last_result := None |}];
     active_page_id := first_id;
     page_selector_id := first_id;
     is_switching_page := false;
     run_id := 0 |}.

(** [add_new_page]; [new_id] is the UUID drawn. *)
Definition add_new_page (new_id : str) (st : session_state)
  : session_state * list ui_event :=
  if 10 <=? length (query_pages st) then (st, [ToastMaxPages])
  else
    ({| query_pages :=
          query_pages st ++
          [{| id := new_id;
              title := L "Query " ++ str_of_nat (length (query_pages st) + 1);
              query := L "SELECT * FROM database";
              last_result := None |}];
        active_page_id := new_id;
        page_selector_id := page_selector_id st;
        is_switching_page := true;
        run_id := run_id st |}, []).

(** [next(i for i, p in enumerate(pages) if p["id"] == page_id)]. *)
Fixpoint find_page (page_id : str) (pages : list page) : option nat :=
  match pages with
  | [] => None
  | p :: t => if str_eqb (id p) page_id then Some 0 else option_map S (find_page page_id t)
  end.

(** [remove_page]. *)
Definition remove_page (page_id : str) (st : session_state) : result session_state :=
  let pages := query_pages st in
  if length pages <=? 1 then Ok st
  else
    match find_page page_id pages with
    | None => Raise StopIteration
    | Some idx =>
        let pages := delete idx pages in
        if str_eqb (active_page_id st) page_id then
          match pages !! Nat.max 0 (idx - 1) with
          | Some p =>
              Ok {| query_pages := pages;
                    active_page_id := id p;
                    page_selector_id := page_selector_id st;
                    is_switching_page := true;
                    run_id := run_id st |}
          | None => Raise IndexError
          end
        else
          Ok {| query_pages := pages;
                active_page_id := active_page_id st;
                page_selector_id := page_selector_id st;
                is_switching_page := is_switching_page st;
                run_id := run_id st |}
    end.

(** [_on_page_change]. *)
Definition on_page_change (st : session_state) : session_state :=
  {| query_pages := query_pages st;
     active_page_id := page_selector_id st;
     page_selector_id := page_selector_id st;
     is_switching_page := true;
     run_id := run_id st |}.

(** An update of [page], the first page whose id is the active one:
    [page[...] = ...]. *)
Fixpoint update_page (page_id : str) (f : page -> page) (pages : list page) : list page :=
  match pages with
  | [] => []
  | p :: t => if str_eqb (id p) page_id then f p :: t else p :: update_page page_id f t
  end.

Definition update_active (f : page -> page) (st : session_state) : session_state :=
  {| query_pages := update_page (active_page_id st) f (query_pages st);
     active_page_id := active_page_id st;
     page_selector_id := page_selector_id st;
     is_switching_page := is_switching_page st;
     run_id := run_id st |}.

(** What a press on [Run SQL] does to the page and to [run_id], what it
    shows, and the texts it hands to the query engine. *)
Record run_outcome := {
  page_after : page;
  run_id_after : nat;
  shown : list ui_event;
  executed : list str
}.

Definition with_result (pg : page) (r : option R) : page :=
  {| id := id pg; title := title pg; query := query pg; last_result := r |}.

(** The statements under [if submitted:]. *)
Definition run_sql (pg : page) (run_id : nat) : run_outcome :=
  let q := rstrip_char ";" (strip (query pg)) in
  match q with
  | [] =>
      let e := ValueError empty_sql_message in
      {| page_after := with_result pg None; run_id_after := run_id;
         shown := [ErrorSql e]; executed := [] |}
  | _ :: _ =>
      let q := if negb (contains (L "limit") (lower q)) then q ++ L " LIMIT 300" else q in
      let text := replace (L "database") (L "df") q in
      match duckdb_query text with
      | Ok result =>
          {| page_after := with_result pg (Some result); run_id_after := run_id + 1;
             shown := [ToastResultsUpdated]; executed := [text] |}
      | Raise e =>
          {| page_after := with_result pg None; run_id_after := run_id;
             shown := [ErrorSql e]; executed := [text] |}
      end
  end.

(** The operations on the query tabs. *)
Inductive tab_op :=
| AddPage (new_id : str)
| RemovePage (page_id : str)
| SelectPage
| RenamePage (new_title : str)
| RunSql.

Definition rename (new_title : str) (pg : page) : page :=
  {| id := id pg; title := new_title; query := query pg; last_result := last_result pg |}.

(** The session after an operation; an operation that raises leaves it as
    it was. *)
Definition apply_op (op : tab_op) (st : session_state) : session_state :=
  match op with
  | AddPage new_id => fst (add_new_page new_id st)
  | RemovePage page_id =>
      match remove_page page_id st with
      | Ok st' => st'
      | Raise _ => st
      end
  | SelectPage => on_page_change st
  | RenamePage new_title => update_active (rename new_title) st
  | RunSql =>
      let st' := update_active (fun pg => page_after (run_sql pg (run_id st))) st in
      {| query_pages := query_pages st';
         active_page_id := active_page_id st';
         page_selector_id := page_selector_id st';
         is_switching_page := is_switching_page st';
         run_id :=
           match List.find (fun p => str_eqb (id p) (active_page_id st)) (query_pages st) with
           | Some pg => run_id_after (run_sql pg (run_id st))
           | None => run_id st
           end |}
  end.

End Runner.

Arguments page R : clear implicits.
Arguments session_state R : clear implicits.
Arguments run_outcome R : clear implicits.

End QueryRunner.

(** Vocabulary for the query runner. *)

Module QuerySpec.

(** [p] stands somewhere in [s]. *)
Definition occurs (p s : str) : Prop := exists pre post, s = pre ++ p ++ post.

(** [core] is [whole] without the characters satisfying [P] at its end. *)
Definition right_trimmed (P : ascii -> bool) (whole core : str) : Prop :=
  exists b, whole = core ++ b /\ forallb P b = true /\
            forall t c, core = t ++ [c] -> P c = false.

(** [core] is [whole] without the characters satisfying [P] at both ends. *)
Definition trimmed (P : ascii -> bool) (whole core : str) : Prop :=
  exists a b, whole = a ++ core ++ b /\ forallb P a = true /\ forallb P b = true /\
              (forall c t, core = c :: t -> P c = false) /\
              (forall t c, core = t ++ [c] -> P c = false).

(** [r] is [s] with every occurrence of [old] replaced by [new], the
    occurrences being taken from the left without overlap. *)
Inductive replaced (old new : str) : str -> str -> Prop :=
| replaced_none s : ~ occurs old s -> replaced old new s s
| replaced_first pre post r :
    (forall pre' post', pre ++ old ++ post = pre' ++ old ++ post' ->
                        length pre <= length pre') ->
    replaced old new post r ->
    replaced old new (pre ++ old ++ post) (pre ++ new ++ r).

End QuerySpec.

(** Vocabulary for the helper functions of the reconciler. *)

Module HelperSpec.

(** [c.upper()] is one character below 256. *)
Definition single_upper (c : ascii) : bool :=
  negb ((code c =? 181)%N || (code c =? 223)%N || (code c =? 255)%N).

(** A column name in capital letters, as in [gl_columns_letters]. *)
Definition capital_letters (s : str) : Prop :=
  Forall (fun c => in_range 65 90 c = true) s.

(** The place of a capital letter in the alphabet, from 1. *)
Definition letter_value (c : ascii) : Z := (Z.of_N (code c) - 64)%Z.

(** The text does not begin with a digit. *)
Definition no_digit_ahead (s : str) : Prop :=
  forall c t, s = c :: t -> is_digit c = false.

(** In [text], right after [pre], stands [seq_num:] followed by a digit. *)
Definition seq_num_at (text pre : str) : Prop :=
  exists c post, text = pre ++ L "seq_num:" ++ c :: post /\ is_digit c = true.

End HelperSpec.

Import HelperSpec.

(** Vocabulary for the sheet names. *)

Module SheetNameSpec.

(** The name tried with the counter [i]. *)
Definition candidate (base : str) (i : nat) : str :=
  let suffix := L "_" ++ str_of_nat i in
  firstn 31 (firstn (31 - length suffix) base ++ suffix).

(** The counters up to [n] have at most 30 digits, so that a suffix fits
    into a sheet name. *)
Definition counters_fit (n : nat) : Prop :=
  forall i, i <= n -> length (str_of_nat i) <= 30.

End SheetNameSpec.

Import SheetNameSpec.

(** ** Vocabulary for the order of a sorted list *)

Module SortSpec.

(** No element is followed, anywhere behind it, by a smaller one. *)
Fixpoint ordered {A} (lt : A -> A -> bool) (l : list A) : Prop :=
  match l with
  | [] => True
  | x :: t => Forall (fun y => lt y x = false) t /\ ordered lt t
  end.

(** The keys ascend along the list, in the order of Python strings. *)
Definition ascending {A} (key : A -> str) (l : list A) : Prop :=
  forall i j a b, i < j -> nth_error l i = Some a -> nth_error l j = Some b ->
    str_leb (key a) (key b) = true.

End SortSpec.

Import SortSpec.

(** ** The page selector of the query runner *)

Module QueryTabs.

Import QueryRunner.

Section Tabs.
Context {R : Type}.

(** [_get_page_title_by_id]. *)
Fixpoint _get_page_title_by_id (pid : str) (pages : list (page R)) : str :=
  match pages with
  | [] => L "Unknown"
  | p :: t => if str_eqb (id p) pid then title p else _get_page_title_by_id pid t
  end.

(** [page_ids = [p["id"] for p in st.session_state.query_pages]]. *)
Definition page_ids (st : session_state R) : list str := map id (query_pages st).

(** [page = next(p for p in st.session_state.query_pages if p["id"] == page_id)]
    for the active page id. *)
Definition current_page (st : session_state R) : result (page R) :=
  match List.find (fun p => str_eqb (id p) (active_page_id st)) (query_pages st) with
  | Some p => Ok p
  | None => Raise StopIteration
  end.

(** The labels the radio shows: [format_func] on each of [page_ids]. *)
Definition radio_labels (st : session_state R) : list str :=
  map (fun pid => _get_page_title_by_id pid (query_pages st)) (page_ids st).

End Tabs.

End QueryTabs.

(** Vocabulary for the statistics of the merger. *)

Module StatsSpec.

(** [sum(per_sheet_rows.values())]. *)
Definition total_rows (m : gmap (list ascii) nat) : nat :=
  map_fold (fun _ n acc => n + acc) 0 m.

End StatsSpec.

Import StatsSpec.

(** Vocabulary for the cells of a cleaned table. *)

Module CellSpec.

(** A text without white space at either end. *)
Definition trimmed_text {F} (c : cell F) : Prop := exists s, c = Str s /\ strip s = s.

Definition is_number {F} (c : cell F) : Prop := exists f, c = Flt f.

End CellSpec.

Import CellSpec.

(** ** The run of the reconciler: [process_data_in_memory] *)

Module Pipeline.

(** The two messages the run returns, in Latin letters. *)
Definition no_source_message : str := L "no valid data file (GL/TRF) found in the ZIP".
Definition tlf_error_message (e : exn) : str := L "Error reading TLF: " ++ str_of_exn e.

Section Run.
Context (fl : FloatOps) {bytes : Type}.

(** What the run finds outside. *)
Record Outside := {
  (** [pd.ExcelFile(tlf_path)]: the reference workbook and the readers. *)
  open_tlf : str -> result (World fl);
  (** [pd.ExcelWriter(output, engine='openpyxl')]: the sheets of the new
      workbook. *)
  open_writer : result (list (worksheet fl));
  (** Leaving the [with] block of the writer saves the workbook into
      [output]. *)
  close_writer : list (worksheet fl) -> result bytes
}.

(** [del book[name]]: the first sheet with that title goes. *)
Fixpoint del_sheet (name : str) (bk : list (worksheet fl)) : list (worksheet fl) :=
  match bk with
  | [] => []
  | ws :: t => if str_eqb (title ws) name then t else ws :: del_sheet name t
  end.

(** [if 'Sheet' in writer.book.sheetnames and len(writer.book.sheetnames) > 1:
    del writer.book['Sheet']]. *)
Definition drop_default_sheet (bk : list (worksheet fl)) : list (worksheet fl) :=
  if existsb (str_eqb (L "Sheet")) (map title bk) && (1 <? length (map title bk))
  then del_sheet (L "Sheet") bk
  else bk.

(** [process_data_in_memory]: the pair returned, and the lines printed. *)
Definition process_data_in_memory (o : Outside)
    (tlf_path : str) (source_files_list : list str) (temp_folder : str)
  : (option bytes * option str) * list str :=
  match open_tlf o tlf_path with
  | Raise e => ((None, Some (tlf_error_message e)), [])
  | Ok tlf_book =>
      let files_to_process :=
        pick_latest_files_by_duplicate_d_date temp_folder source_files_list in
      match files_to_process with
      | [] => ((None, Some no_source_message), [])
      | _ :: _ =>
          match open_writer o with
          | Raise e => ((None, Some (tlf_error_message e)), [])
          | Ok new_book =>
              match process_files fl tlf_book files_to_process
                      {| book := new_book; stdout := [] |} with
              | (Raise e, st) => ((None, Some (tlf_error_message e)), stdout st)
              | (Ok _, st) =>
                  match close_writer o (drop_default_sheet (book st)) with
                  | Raise e => ((None, Some (tlf_error_message e)), stdout st)
                  | Ok output => ((Some output, None), stdout st)
                  end
              end
          end
      end
  end.

End Run.

Arguments open_tlf {fl bytes} o _.
Arguments open_writer {fl bytes} o.
Arguments close_writer {fl bytes} o _.

End Pipeline.

Import Pipeline.

(** ** The upload handler of the reconciler *)

Module UploadHandler.

Section Handler.
Context (fl : FloatOps) {bytes : Type}.

(** What the page shows: [st.error], [st.info], [st.success] and
    [st.download_button]. *)
Inductive notice :=
| ErrorDuringProcessing (e : exn)
| ErrorNoTLF
| ErrorNoSource
| InfoFoundTLF (name : str)
| InfoFoundSources (n : nat)
| ErrorMessage (msg : str)
| SuccessComplete
| DownloadButton (data : option bytes).

(** The statements under [if st.button(...)]; [extracted] is what
    extracting the ZIP into [temp_dir] and walking it yields.  The result
    is what the page shows and what is printed. *)
Definition handle_zip (o : Outside fl (bytes := bytes)) (temp_dir : str)
    (extracted : result (list (str * list str * list str)))
  : list notice * list str :=
  match extracted with
  | Raise e => ([ErrorDuringProcessing e], [])
  | Ok walk =>
      let '(tlf_path, source_files) := identify_files walk in
      match tlf_path with
      | None => ([ErrorNoTLF], [])
      | Some tlf_path =>
          if negb (truthy tlf_path) then ([ErrorNoTLF], [])
          else
            match source_files with
            | [] => ([ErrorNoSource], [])
            | _ :: _ =>
                let '((excel_file, error_msg), printed) :=
                  process_data_in_memory fl o tlf_path source_files temp_dir in
                ([InfoFoundTLF (basename tlf_path);
                  InfoFoundSources (length source_files)] ++
                 match error_msg with
                 | Some msg =>
                     if truthy msg then [ErrorMessage msg]
                     else [SuccessComplete; DownloadButton excel_file]
                 | None => [SuccessComplete; DownloadButton excel_file]
                 end,
                 printed)
            end
      end
  end.

End Handler.

Arguments ErrorNoTLF {bytes}.
Arguments ErrorNoSource {bytes}.
Arguments ErrorDuringProcessing {bytes} e.
Arguments InfoFoundTLF {bytes} name.
Arguments InfoFoundSources {bytes} n.
Arguments ErrorMessage {bytes} msg.
Arguments SuccessComplete {bytes}.
Arguments DownloadButton {bytes} data.

End UploadHandler.

Import UploadHandler.

(** ** The layout of a sheet of the reconciler *)

Module Layout.

(** A raw table on the sheet: its title row, the header row written by
    [to_excel], the first and the last data row, and the column of
    [tlf_key_col_letter] or [gl_key_col_letter]. *)
Record raw_table := {
  raw_title_row : nat;
  raw_header_row : nat;
  data_start : nat;
  data_end : nat;
  key_col : nat
}.

(** [=IFERROR(INDEX($c$a:$c$b, MATCH($B$1&"|"&k, $K$a:$K$b, 0)), "")]: the
    column and the rows of the two ranges, and the counter [k]. *)
Record formula := {
  index_col : nat;
  index_first : nat;
  index_last : nat;
  match_k : nat;
  match_col : nat;
  match_first : nat;
  match_last : nat
}.

Inductive content :=
| Text (s : str)
| Header (l : label)
| Formula (f : formula).

(** [ws.cell(row=..., column=...).value = ...]. *)
Record written := {
  at_row : nat;
  at_col : nat;
  value : content
}.

Record layout := {
  raw_tlf : option raw_table;
  raw_gl : option raw_table;
  tlf_report : list written;
  gl_report : list written
}.

Definition search_ui_start_row : nat := 1.
Definition tlf_ui_height : nat := 2 + tlf_reserved_rows.
Definition gl_ui_height : nat := 2 + gl_reserved_rows.
Definition raw_data_start_row : nat :=
  search_ui_start_row + tlf_ui_height + gap_rows + gl_ui_height + 5.

(** [df.columns.get_loc(col_name)], for labels that are pairwise distinct
    (as [pd.read_excel] and [pd.read_csv] deliver them). *)
Definition get_loc (col_name : label) (cols : list label) : result nat :=
  match position col_name cols with
  | Some j => Ok j
  | None => Raise (KeyError (str_of_label col_name))
  end.

(** [get_column_letter(original_col_idx + 1)] for every displayed column,
    as the number of the column. *)
Fixpoint data_columns (cols display : list label) : result (list nat) :=
  match display with
  | [] => Ok []
  | c :: t =>
      do original_col_idx <- get_loc c cols;
      do rest <- data_columns cols t;
      Ok (original_col_idx + 1 :: rest)
  end.

(** The header cells of a panel: one per label, from column 1. *)
Definition header_cells (row : nat) (labels : list label) : list written :=
  imap (fun i l => {| at_row := row; at_col := 1 + i; value := Header l |}) labels.

(** The formula cells of a panel: [reserved] rows from [data_start_row],
    in each row one formula per data column, from column 1. *)
Definition formula_cells (reserved data_start_row : nat) (data_cols : list nat)
    (raw : raw_table) : list written :=
  flat_map
    (fun r_offset =>
       let current_formula_row := data_start_row + r_offset in
       let k_value := r_offset + 1 in
       imap (fun i c =>
               {| at_row := current_formula_row; at_col := 1 + i;
                  value := Formula {| index_col := c;
                                      index_first := data_start raw;
                                      index_last := data_end raw;
                                      match_k := k_value;
                                      match_col := key_col raw;
                                      match_first := data_start raw;
                                      match_last := data_end raw |} |})
            data_cols)
    (seq 0 reserved).

Section Sheet.
Context (fl : FloatOps).

(** The raw table written with its header in row [current_raw_row]. *)
Definition raw_table_at (current_raw_row : nat) (df : DataFrame (cell (float fl)))
  : raw_table :=
  {| raw_title_row := current_raw_row - 1;
     raw_header_row := current_raw_row;
     data_start := current_raw_row + 1;
     data_end := current_raw_row + len df;
     key_col := length (columns df) |}.

(** The rows and the cell values of the layout logic, for the two tables
    of a file. *)
Definition sheet_layout (tlf_df gl_df : DataFrame (cell (float fl))) : result layout :=
  let current_raw_row := raw_data_start_row in
  let raw_tlf :=
    if empty tlf_df then None else Some (raw_table_at current_raw_row tlf_df) in
  let current_raw_row :=
    if empty tlf_df then current_raw_row else current_raw_row + len tlf_df + 4 in
  let raw_gl :=
    if empty gl_df then None else Some (raw_table_at current_raw_row gl_df) in
  let report_row := search_ui_start_row + 2 in
  do tlf_report <-
    match raw_tlf with
    | None => Ok []
    | Some raw =>
        let display := display_cols fl tlf_df in
        let data_start_row := report_row + 2 in
        do cols <- data_columns (columns tlf_df) display;
        Ok ({| at_row := report_row; at_col := 1; value := Text (L "TLF") |}
            :: header_cells (report_row + 1) display
            ++ formula_cells tlf_reserved_rows data_start_row cols raw)
    end;
  let report_row :=
    if empty tlf_df then report_row else report_row + 2 + tlf_reserved_rows in
  let report_row := report_row + gap_rows in
  let gl_report :=
    match raw_gl with
    | None => []
    | Some raw =>
        let data_start_row := report_row + 2 in
        {| at_row := report_row; at_col := 1; value := Text (L "ATMI") |}
        :: header_cells (report_row + 1)
             (List.filter (fun c => negb (label_eqb c (LStr (L "_SearchKey"))))
                          (columns gl_df))
        ++ formula_cells gl_reserved_rows data_start_row
             (seq 1 (length gl_new_headers)) raw
    end in
  Ok {| raw_tlf := raw_tlf; raw_gl := raw_gl;
        tlf_report := tlf_report; gl_report := gl_report |}.

End Sheet.

End Layout.

Import Layout.

(** Vocabulary for the layout. *)

Module LayoutSpec.

(** Both ranges of the formula span the data rows of the raw table, and
    the range matched on is its key column. *)
Definition reads_rows (f : formula) (raw : raw_table) : Prop :=
  index_first f = data_start raw /\ index_last f = data_end raw /\
  match_first f = data_start raw /\ match_last f = data_end raw /\
  match_col f = key_col raw.

(** The header cell and the title cell of a panel. *)
Definition header_at (row col : nat) (l : label) : written :=
  {| at_row := row; at_col := col; value := Header l |}.

Definition title_at (row : nat) (s : str) : written :=
  {| at_row := row; at_col := 1; value := Text s |}.

Section Panels.
Context (fl : FloatOps).

(** The cells of the two panels, with the rows worked out. *)
Definition tlf_panel_cells (tlf_df : DataFrame (cell (float fl))) (cols : list nat)
  : list written :=
  title_at 3 (L "TLF")
  :: header_cells 4 (display_cols fl tlf_df)
  ++ formula_cells tlf_reserved_rows 5 cols (raw_table_at fl 25 tlf_df).

Definition gl_panel_cells (report_row raw_row : nat) (gl_df : DataFrame (cell (float fl)))
  : list written :=
  title_at report_row (L "ATMI")
  :: header_cells (report_row + 1)
       (List.filter (fun c => negb (label_eqb c (LStr (L "_SearchKey")))) (columns gl_df))
  ++ formula_cells gl_reserved_rows (report_row + 2) (seq 1 (length gl_new_headers))
       (raw_table_at fl raw_row gl_df).

End Panels.

End LayoutSpec.

Import LayoutSpec.

(** ** The column widths of a sheet of the reconciler *)

Module AutoWidth.

Section Widths.
Context (fl : FloatOps).

(** [Series.max()] on lengths. *)
Definition max_len_of (lens : list nat) : nat := fold_right Nat.max 0 lens.

(** One iteration of the loop of [update_max_width]; [col_widths] maps
    the number of a column to its width so far. *)
Definition update_one (df : DataFrame (cell (float fl))) (col_widths : gmap nat nat)
    (i_col : nat * label) : gmap nat nat :=
  let '(i, col_name) := i_col in
  let current_idx := 1 + i in
  let max_len := length (str_of_label col_name) in
  let max_len :=
    if negb (empty df) then
      match getitem NaN col_name df with
      | Ok col =>
          let data_len := max_len_of (map (fun c => length (astype_str fl c)) col) in
          Nat.max max_len data_len
      | Raise _ => max_len
      end
    else max_len in
  let existing := default 0 (col_widths !! current_idx) in
  <[current_idx := Nat.max existing (max_len + 3)]> col_widths.

(** [update_max_width(df)]. *)
Definition update_max_width (df : DataFrame (cell (float fl))) (col_widths : gmap nat nat)
  : gmap nat nat :=
  fold_left (update_one df) (imap (fun i col_name => (i, col_name)) (columns df))
            col_widths.

(** The widths collected for the two tables of a file. *)
Definition collected_widths (tlf_df gl_df : DataFrame (cell (float fl))) : gmap nat nat :=
  let col_widths := ∅ in
  let col_widths := if negb (empty tlf_df) then update_max_width tlf_df col_widths
                    else col_widths in
  if negb (empty gl_df) then update_max_width gl_df col_widths else col_widths.

(** The widths the columns of the sheet end up with, by column number:
    every collected width is set between 12 and 60, then the width of
    column [A] is set again. *)
Definition column_widths (tlf_df gl_df : DataFrame (cell (float fl))) : gmap nat nat :=
  let col_widths := collected_widths tlf_df gl_df in
  let dims := (fun width => Nat.max 12 (Nat.min width 60)) <$> col_widths in
  <[1 := Nat.max (default 20 (col_widths !! 1)) 30]> dims.

End Widths.

End AutoWidth.

Import AutoWidth.
(** * Properties *)

(** ** Strings and patterns *)

Lemma ch_eqb_eq a b : ch_eqb a b = true <-> a = b.
Proof. unfold ch_eqb. apply Ascii.eqb_eq. Qed.

Lemma ch_eqb_neq a b : ch_eqb a b = false <-> a <> b.
Proof. unfold ch_eqb. apply Ascii.eqb_neq. Qed.

Lemma str_eqb_eq a b : str_eqb a b = true <-> a = b.
Proof.
  revert b. induction a as [|x a IH]; intros [|y b]; simpl; try (split; congruence).
  rewrite andb_true_iff, ch_eqb_eq, IH. split.
  - intros [-> ->]. reflexivity.
  - intros [= -> ->]. tauto.
Qed.

Lemma str_eqb_refl a : str_eqb a a = true.
Proof. apply str_eqb_eq. reflexivity. Qed.

Lemma str_eqb_neq a b : str_eqb a b = false <-> a <> b.
Proof.
  destruct (str_eqb a b) eqn:E.
  - apply str_eqb_eq in E. split; [discriminate | tauto].
  - split; [|reflexivity]. intros _ H. apply str_eqb_eq in H. congruence.
Qed.

Lemma startswith_spec p s : startswith p s = true <-> exists t, s = p ++ t.
Proof.
  revert s. induction p as [|x p IH]; intros s; simpl.
  - split; eauto.
  - destruct s as [|y s].
    + split; [discriminate | intros [t [=]]].
    + rewrite andb_true_iff, ch_eqb_eq, IH. split.
      * intros [-> [t ->]]. eauto.
      * intros [t [= -> ->]]. eauto.
Qed.

Lemma contains_spec p s :
  contains p s = true <-> exists pre post, s = pre ++ p ++ post.
Proof.
  induction s as [|c s IH]; simpl.
  - rewrite orb_false_r, startswith_spec. split.
    + intros [t ->]. exists [], t. reflexivity.
    + intros (pre & post & H). destruct pre; [|discriminate]. eauto.
  - rewrite orb_true_iff, startswith_spec, IH. split.
    + intros [[t ->] | (pre & post & ->)].
      * exists [], t. reflexivity.
      * exists (c :: pre), post. reflexivity.
    + intros (pre & post & H). destruct pre as [|c' pre]; simpl in H.
      * left. eauto.
      * injection H as -> ->. right. eauto.
Qed.

Lemma letter_D c : ch_eqb_nocase "D" c = true <-> letter "D" "d" c.
Proof.
  unfold letter.
  destruct c as [[] [] [] [] [] [] [] []]; vm_compute;
    split; (discriminate || tauto || (intros [?|?]; discriminate)).
Qed.

Lemma letter_J c : ch_eqb_nocase "J" c = true <-> letter "J" "j" c.
Proof.
  unfold letter.
  destruct c as [[] [] [] [] [] [] [] []]; vm_compute;
    split; (discriminate || tauto || (intros [?|?]; discriminate)).
Qed.

Lemma letter_V c : ch_eqb_nocase "V" c = true <-> letter "V" "v" c.
Proof.
  unfold letter.
  destruct c as [[] [] [] [] [] [] [] []]; vm_compute;
    split; (discriminate || tauto || (intros [?|?]; discriminate)).
Qed.

Lemma digits_spec n s d r :
  Re.digits n s = Some (d, r) <-> s = d ++ r /\ length d = n /\ all_digits d.
Proof.
  unfold all_digits. revert s d r. induction n as [|n IH]; intros s d r; simpl.
  - split.
    + intros [= <- <-]. repeat split. constructor.
    + intros (-> & Hl & _). destruct d; [reflexivity | discriminate].
  - destruct s as [|c t].
    + split; [discriminate|]. intros (H & Hl & _). destruct d; discriminate.
    + destruct (is_digit c) eqn:Hc.
      * destruct (Re.digits n t) as [[d' r']|] eqn:E.
        -- apply IH in E as (-> & <- & Hd). split.
           ++ intros [= <- <-]. repeat split. constructor; assumption.
           ++ intros (H & Hl & Hd'). destruct d as [|c0 d]; [discriminate|].
              simpl in H. injection H as -> H. injection Hl as Hl.
              apply app_inj_1 in H as [-> ->]; [reflexivity | congruence].
        -- split; [discriminate|]. intros (H & Hl & Hd').
           destruct d as [|c0 d]; [discriminate|].
           simpl in H. injection H as -> ->. injection Hl as Hl.
           inversion Hd'; subst.
           assert (Re.digits (length d) (d ++ r) = Some (d, r)) as E'
             by (apply IH; auto).
           congruence.
      * split; [discriminate|]. intros (H & Hl & Hd').
        destruct d as [|c0 d]; [discriminate|].
        simpl in H. injection H as -> ->. inversion Hd'; subst. congruence.
Qed.

Lemma search_Some {A} (m : str -> option A) s pre r :
  Re.search m s = Some (pre, r) ->
  exists post, s = pre ++ post /\ m post = Some r /\
    forall pre' post', s = pre' ++ post' -> length pre' < length pre -> m post' = None.
Proof.
  revert pre. induction s as [|c t IH]; intros pre; simpl.
  - destruct (m []) eqn:E; [|discriminate]. intros [= <- <-].
    exists []. repeat split; auto. simpl. lia.
  - destruct (m (c :: t)) eqn:E.
    + intros [= <- <-]. exists (c :: t). repeat split; auto. simpl. lia.
    + destruct (Re.search m t) as [[p r']|] eqn:Es; [|discriminate].
      intros [= <- <-]. destruct (IH p eq_refl) as (post & -> & Hm & Hmin).
      exists post. repeat split; auto.
      intros pre' post' H Hl. destruct pre' as [|c' pre']; simpl in *.
      * subst. assumption.
      * injection H as -> H. apply (Hmin pre'); [assumption | lia].
Qed.

Lemma search_None {A} (m : str -> option A) s :
  Re.search m s = None -> forall pre post, s = pre ++ post -> m post = None.
Proof.
  induction s as [|c t IH]; simpl.
  - destruct (m []) eqn:E; [discriminate|]. intros _ pre post H.
    symmetry in H. apply app_eq_nil in H as [-> ->]. assumption.
  - destruct (m (c :: t)) eqn:E; [discriminate|].
    destruct (Re.search m t) as [[p r']|] eqn:Es; [discriminate|].
    intros _ pre post H. destruct pre as [|c' pre]; simpl in H.
    + subst. assumption.
    + injection H as -> H. eapply IH; eauto.
Qed.

Example parse_dates_ex1 :
  parse_dates_from_filename (L "GL_D250131_JV20250201.csv")
  = (Some (L "250131"), Some (L "250201")).
Proof. reflexivity. Qed.

Example parse_dates_ex2 :
  parse_dates_from_filename (L "dir/Data-d123456x.trf") = (Some (L "123456"), None).
Proof. reflexivity. Qed.

Example pick_ex1 :
  map file (pick_latest_files_by_duplicate_d_date (L "/tmp/x")
     [L "b_D250131_JV20250105.csv"; L "a_D250131_JV20250107.csv";
      L "c_D250131.csv"; L "notes.md"; L "zz.txt"; L "a_D250131_JV20250107.TXT"])
  = [L "/tmp/x/a_D250131_JV20250107.csv"; L "/tmp/x/zz.txt"].
Proof. reflexivity. Qed.

(** ** Key derivation from a file name *)

Lemma literal_nocase_cons x lit c t :
  Re.literal_nocase (x :: lit) (c :: t)
  = if ch_eqb_nocase x c then Re.literal_nocase lit t else None.
Proof. reflexivity. Qed.

Lemma D_digits_spec s d r :
  Re.D_digits s = Some (d, r) <->
  exists c, s = c :: d ++ r /\ letter "D" "d" c /\ length d = 6 /\ all_digits d.
Proof.
  unfold Re.D_digits. change (L "D") with ["D"%char]. destruct s as [|c t].
  - split; [discriminate | intros (c & [=] & _)].
  - rewrite literal_nocase_cons. destruct (ch_eqb_nocase "D" c) eqn:Hc.
    + cbn [Re.literal_nocase]. rewrite digits_spec. apply letter_D in Hc. split.
      * intros (-> & Hl & Hd). eauto.
      * intros (c' & [= <- ->] & _ & Hl & Hd). auto.
    + split; [discriminate|]. intros (c' & [= <- ->] & Hc' & _).
      apply letter_D in Hc'. congruence.
Qed.

Lemma jv_pattern_spec s d r :
  Re.jv_pattern s = Some (d, r) <->
  exists c1 c2, s = c1 :: c2 :: d ++ r /\ letter "J" "j" c1 /\ letter "V" "v" c2 /\
                length d = 8 /\ all_digits d.
Proof.
  unfold Re.jv_pattern. change (L "JV") with ["J"%char; "V"%char].
  destruct s as [|c1 [|c2 t]].
  - split; [discriminate | intros (? & ? & [=] & _)].
  - rewrite literal_nocase_cons.
    destruct (ch_eqb_nocase "J" c1); (split; [discriminate | intros (? & ? & [=] & _)]).
  - rewrite literal_nocase_cons. destruct (ch_eqb_nocase "J" c1) eqn:H1.
    + rewrite literal_nocase_cons. destruct (ch_eqb_nocase "V" c2) eqn:H2.
      * cbn [Re.literal_nocase]. rewrite digits_spec.
        apply letter_J in H1. apply letter_V in H2. split.
        -- intros (-> & Hl & Hd). eauto 10.
        -- intros (? & ? & [= <- <- ->] & _ & _ & Hl & Hd). auto.
      * split; [discriminate|]. intros (? & ? & [= <- <- ->] & _ & Hc & _).
        apply letter_V in Hc. congruence.
    + split; [discriminate|]. intros (? & ? & [= <- <- ->] & Hc & _).
      apply letter_J in Hc. congruence.
Qed.

Lemma letter_D_not_dash c : letter "D" "d" c -> Re.is_dash_us c = false.
Proof. intros [-> | ->]; reflexivity. Qed.

Lemma dash_not_D c t : Re.is_dash_us c = true -> Re.D_digits (c :: t) = None.
Proof.
  intros Hc. destruct (Re.D_digits (c :: t)) as [[d r]|] eqn:E; [|reflexivity].
  apply D_digits_spec in E as (c' & [= <- _] & Hl & _).
  apply letter_D_not_dash in Hl. congruence.
Qed.

Lemma d_pattern_cases s d r :
  Re.d_pattern s = Some (d, r) ->
  Re.D_digits s = Some (d, r) \/
  exists c t, s = c :: t /\ Re.is_dash_us c = true /\ Re.D_digits t = Some (d, r).
Proof.
  unfold Re.d_pattern. destruct s as [|c t]; [auto|].
  destruct (Re.is_dash_us c) eqn:Hc; [|auto].
  destruct (Re.D_digits t) as [x|] eqn:E; [|auto].
  intros [= ->]. right. eauto.
Qed.

Lemma d_pattern_of_D s x : Re.D_digits s = Some x -> Re.d_pattern s = Some x.
Proof.
  intros H. unfold Re.d_pattern. destruct s as [|c t]; [assumption|].
  destruct (Re.is_dash_us c) eqn:Hc; [|assumption].
  rewrite dash_not_D in H by assumption. discriminate.
Qed.

Lemma d_pattern_after_dash c t x :
  Re.is_dash_us c = true -> Re.D_digits t = Some x -> Re.d_pattern (c :: t) = Some x.
Proof. intros Hc H. unfold Re.d_pattern. rewrite Hc, H. reflexivity. Qed.

Lemma D_at_matches base pre ds :
  D_at base pre ds -> exists post r, base = pre ++ post /\ Re.D_digits post = Some (ds, r).
Proof.
  intros (c & post & -> & Hc & Hl & Hd).
  exists (c :: ds ++ post), post. split; [reflexivity|].
  apply D_digits_spec. eauto.
Qed.

Lemma D_at_functional base pre pre' ds ds' :
  D_at base pre ds -> D_at base pre' ds' -> length pre = length pre' ->
  pre = pre' /\ ds = ds'.
Proof.
  intros (c & post & -> & _ & Hl & _) (c' & post' & H & _ & Hl' & _) Hlen.
  apply app_inj_1 in H as [-> H]; [|assumption].
  injection H as _ H. apply app_inj_1 in H as [-> _]; [auto | congruence].
Qed.

Lemma JV_at_matches base pre ds :
  JV_at base pre ds -> exists post r, base = pre ++ post /\ Re.jv_pattern post = Some (ds, r).
Proof.
  intros (c1 & c2 & post & -> & H1 & H2 & Hl & Hd).
  exists (c1 :: c2 :: ds ++ post), post. split; [reflexivity|].
  apply jv_pattern_spec. eauto 10.
Qed.

Lemma JV_at_functional base pre pre' ds ds' :
  JV_at base pre ds -> JV_at base pre' ds' -> length pre = length pre' ->
  pre = pre' /\ ds = ds'.
Proof.
  intros (c1 & c2 & post & -> & _ & _ & Hl & _) (c1' & c2' & post' & H & _ & _ & Hl' & _) Hlen.
  apply app_inj_1 in H as [-> H]; [|assumption].
  injection H as _ _ H. apply app_inj_1 in H as [-> _]; [auto | congruence].
Qed.

Lemma search_d_first base p ds r :
  Re.search Re.d_pattern base = Some (p, (ds, r)) ->
  exists pre, first_at (D_at base) pre ds.
Proof.
  intros H. apply search_Some in H as (post & -> & Hm & Hmin).
  assert (Hbefore : forall pre' ds', D_at (p ++ post) pre' ds' -> length p <= length pre').
  { intros pre' ds' Hocc. destruct (le_lt_dec (length p) (length pre')) as [|Hlt]; [assumption|].
    destruct (D_at_matches _ _ _ Hocc) as (post' & r' & Heq & HD).
    apply d_pattern_of_D in HD. rewrite (Hmin pre' post' Heq Hlt) in HD. discriminate. }
  apply d_pattern_cases in Hm as [HD | (c & t & -> & Hc & HD)].
  - exists p. split; [|exact Hbefore].
    apply D_digits_spec in HD as (c & -> & Hc & Hl & Hd). exists c, r. auto.
  - exists (p ++ [c]). split.
    + apply D_digits_spec in HD as (c' & -> & Hc' & Hl & Hd). exists c', r.
      rewrite <- app_assoc. simpl. auto.
    + intros pre' ds' Hocc. pose proof (Hbefore _ _ Hocc) as Hle.
      rewrite length_app. simpl.
      destruct (Nat.eq_dec (length p) (length pre')) as [Heq|]; [|lia].
      destruct Hocc as (c' & post' & H & Hc' & _).
      apply app_inj_1 in H as [-> H]; [|assumption].
      injection H as -> _. apply letter_D_not_dash in Hc'. congruence.
Qed.

Lemma search_d_none base :
  Re.search Re.d_pattern base = None -> forall pre ds, ~ D_at base pre ds.
Proof.
  intros H pre ds Hocc. destruct (D_at_matches _ _ _ Hocc) as (post & r & Heq & HD).
  apply d_pattern_of_D in HD. rewrite (search_None _ _ H pre post Heq) in HD. discriminate.
Qed.

Lemma search_jv_first base p ds r :
  Re.search Re.jv_pattern base = Some (p, (ds, r)) -> first_at (JV_at base) p ds.
Proof.
  intros H. apply search_Some in H as (post & -> & Hm & Hmin). split.
  - apply jv_pattern_spec in Hm as (c1 & c2 & -> & H1 & H2 & Hl & Hd).
    exists c1, c2, r. auto.
  - intros pre' ds' Hocc. destruct (le_lt_dec (length p) (length pre')) as [|Hlt]; [assumption|].
    destruct (JV_at_matches _ _ _ Hocc) as (post' & r' & Heq & HD).
    rewrite (Hmin pre' post' Heq Hlt) in HD. discriminate.
Qed.

Lemma search_jv_none base :
  Re.search Re.jv_pattern base = None -> forall pre ds, ~ JV_at base pre ds.
Proof.
  intros H pre ds Hocc. destruct (JV_at_matches _ _ _ Hocc) as (post & r & Heq & HD).
  rewrite (search_None _ _ H pre post Heq) in HD. discriminate.
Qed.

Lemma first_at_unique occ pre pre' ds ds' :
  (forall p p' d d', occ p d -> occ p' d' -> length p = length p' -> p = p' /\ d = d') ->
  first_at occ pre ds -> first_at occ pre' ds' -> ds = ds'.
Proof.
  intros Hfun [H1 Hmin1] [H2 Hmin2].
  apply (Hfun pre pre' ds ds' H1 H2).
  pose proof (Hmin1 _ _ H2). pose proof (Hmin2 _ _ H1). lia.
Qed.

Lemma jv_slices ds :
  length ds = 8 -> slice 2 4 ds ++ slice 4 6 ds ++ slice 6 8 ds = skipn 2 ds.
Proof.
  intros H. do 9 (destruct ds as [|? ds]; try discriminate). reflexivity.
Qed.

(** C4.  The D-date is the six digits that follow the first place of the
    base name where [D] or [d] stands before six digits (a preceding [-]
    or [_] belongs to the match but changes neither the place nor the
    digits), and is absent exactly when there is no such place; the JV
    token is the last six of the eight digits that follow the first place
    where [JV], in any case, stands before eight digits, and is absent
    exactly when there is no such place. *)
Theorem parse_dates_from_filename_spec (filename : str) :
  let base := basename filename in
  let r := parse_dates_from_filename filename in
  (forall ds, fst r = Some ds <-> exists pre, first_at (D_at base) pre ds) /\
  (fst r = None <-> forall pre ds, ~ D_at base pre ds) /\
  (forall jv, snd r = Some jv <->
     exists pre ds, first_at (JV_at base) pre ds /\ jv = skipn 2 ds) /\
  (snd r = None <-> forall pre ds, ~ JV_at base pre ds).
Proof.
  intros base r. subst r. unfold parse_dates_from_filename. fold base. simpl.
  split; [|split; [|split]].
  - intros ds. destruct (Re.search Re.d_pattern base) as [[p [d r]]|] eqn:E.
    + destruct (search_d_first _ _ _ _ E) as (pre & Hpre). split.
      * intros [= <-]. eauto.
      * intros (pre' & Hpre'). f_equal.
        exact (first_at_unique _ _ _ _ _ (D_at_functional base) Hpre Hpre').
    + split; [discriminate|]. intros (pre & Hocc & _).
      exfalso. exact (search_d_none _ E _ _ Hocc).
  - destruct (Re.search Re.d_pattern base) as [[p [d r]]|] eqn:E.
    + split; [discriminate|]. intros Hno.
      destruct (search_d_first _ _ _ _ E) as (pre & Hocc & _).
      exfalso. exact (Hno _ _ Hocc).
    + split; [|reflexivity]. intros _. exact (search_d_none _ E).
  - intros jv. destruct (Re.search Re.jv_pattern base) as [[p [d r]]|] eqn:E.
    + pose proof (search_jv_first _ _ _ _ E) as Hp.
      assert (Hl : length d = 8) by (destruct Hp as [(? & ? & ? & _ & _ & _ & Hl & _) _]; exact Hl).
      rewrite jv_slices by assumption. split.
      * intros [= <-]. eauto.
      * intros (pre' & ds' & Hpre' & ->). do 2 f_equal.
        exact (first_at_unique _ _ _ _ _ (JV_at_functional base) Hp Hpre').
    + split; [discriminate|]. intros (pre & ds & [Hocc _] & _).
      exfalso. exact (search_jv_none _ E _ _ Hocc).
  - destruct (Re.search Re.jv_pattern base) as [[p [d r]]|] eqn:E.
    + split; [discriminate|]. intros Hno.
      destruct (search_jv_first _ _ _ _ E) as [Hocc _].
      exfalso. exact (Hno _ _ Hocc).
    + split; [|reflexivity]. intros _. exact (search_jv_none _ E).
Qed.

(** ** Insertion-ordered dictionaries *)

Section DictFacts.
Context {V : Type}.
Implicit Types (d : Dict.dict V) (k : str) (v : V).

Lemma get_set_eq k v d : Dict.get k (Dict.set k v d) = Some v.
Proof.
  induction d as [|[k' v'] t IH]; simpl.
  - rewrite str_eqb_refl. reflexivity.
  - destruct (str_eqb k k') eqn:E; simpl; rewrite E; auto.
Qed.

Lemma get_set_ne k k' v d : k <> k' -> Dict.get k' (Dict.set k v d) = Dict.get k' d.
Proof.
  intros Hne. induction d as [|[k0 v0] t IH]; simpl.
  - apply not_eq_sym, str_eqb_neq in Hne. rewrite Hne. reflexivity.
  - destruct (str_eqb k k0) eqn:E; simpl.
    + apply str_eqb_eq in E. subst k0.
      apply not_eq_sym, str_eqb_neq in Hne. rewrite Hne. reflexivity.
    + rewrite IH. reflexivity.
Qed.

Lemma get_None_keys k d : Dict.get k d = None <-> ~ In k (Dict.keys d).
Proof.
  induction d as [|[k0 v0] t IH]; simpl.
  - tauto.
  - destruct (str_eqb k k0) eqn:E.
    + apply str_eqb_eq in E. split; [discriminate | intros H; exfalso; auto].
    + apply str_eqb_neq in E. rewrite IH. split; [intros H [?|?]; auto | tauto].
Qed.

Lemma keys_set k v d :
  Dict.keys (Dict.set k v d)
  = match Dict.get k d with
    | Some _ => Dict.keys d
    | None => Dict.keys d ++ [k]
    end.
Proof.
  induction d as [|[k0 v0] t IH]; simpl; [reflexivity|].
  destruct (str_eqb k k0) eqn:E; simpl; [reflexivity|].
  rewrite IH. destruct (Dict.get k t); reflexivity.
Qed.

Lemma NoDup_keys_set k v d : NoDup (Dict.keys d) -> NoDup (Dict.keys (Dict.set k v d)).
Proof.
  intros H. rewrite keys_set. destruct (Dict.get k d) eqn:E; [assumption|].
  apply get_None_keys in E. apply NoDup_app. repeat split; auto.
  - intros x Hx Hx'. apply list_elem_of_In in Hx, Hx'. destruct Hx' as [<-|[]]. auto.
  - apply NoDup_singleton.
Qed.

Lemma get_Some_In k v d : Dict.get k d = Some v -> In (k, v) d.
Proof.
  induction d as [|[k0 v0] t IH]; simpl; [discriminate|].
  destruct (str_eqb k k0) eqn:E.
  - apply str_eqb_eq in E. intros [= ->]. left. congruence.
  - auto.
Qed.

Lemma In_get_Some k v d : NoDup (Dict.keys d) -> In (k, v) d -> Dict.get k d = Some v.
Proof.
  induction d as [|[k0 v0] t IH]; simpl; [tauto|].
  intros Hnd [[= -> ->]|Hin].
  - rewrite str_eqb_refl. reflexivity.
  - apply NoDup_cons in Hnd as [Hk Hnd]. destruct (str_eqb k k0) eqn:E.
    + apply str_eqb_eq in E. subst k0. exfalso. apply Hk.
      apply list_elem_of_In. unfold Dict.keys.
      apply (in_map fst) in Hin. exact Hin.
    + auto.
Qed.

Lemma filter_values_le_1 (P : V -> bool) k0 d :
  NoDup (Dict.keys d) ->
  (forall k v, In (k, v) d -> P v = true -> k = k0) ->
  length (List.filter P (Dict.values d)) <= 1.
Proof.
  induction d as [|[k v] t IH]; simpl; intros Hnd Hk; [lia|].
  apply NoDup_cons in Hnd as [Hnk Hnd].
  destruct (P v) eqn:E;
    [|apply IH; [assumption | intros k' v' Hin; apply (Hk k' v'); right; exact Hin]].
  assert (k = k0) as -> by (apply (Hk k v); auto).
  assert (List.filter P (Dict.values t) = []) as ->; [|simpl; lia].
  destruct (List.filter P (Dict.values t)) as [|v' l'] eqn:Ef; [reflexivity|].
  assert (Hv' : In v' (List.filter P (Dict.values t))) by (rewrite Ef; left; reflexivity).
  apply List.filter_In in Hv' as [Hv' E']. unfold Dict.values in Hv'.
  apply in_map_iff in Hv' as ([k' v''] & <- & Hin). simpl in E'.
  exfalso. apply Hnk. apply list_elem_of_In.
  assert (k' = k0) as <- by (apply (Hk k' v''); auto).
  apply (in_map fst) in Hin. exact Hin.
Qed.
End DictFacts.

(** ** Stable sort by key *)

Lemma insert_sorted_perm {A} (lt : A -> A -> bool) x l :
  Permutation (insert_sorted lt x l) (x :: l).
Proof.
  induction l as [|y t IH]; simpl; [reflexivity|].
  destruct (lt x y); [reflexivity|].
  rewrite IH. apply perm_swap.
Qed.

Lemma stable_sort_perm {A} (lt : A -> A -> bool) l : Permutation (stable_sort lt l) l.
Proof.
  unfold stable_sort.
  assert (H : forall acc,
            Permutation (fold_left (fun acc x => insert_sorted lt x acc) l acc) (acc ++ l)).
  { induction l as [|x t IH]; intros acc; simpl.
    - rewrite app_nil_r. reflexivity.
    - rewrite IH, insert_sorted_perm.
      change (x :: acc) with ([x] ++ acc).
      change (x :: t) with ([x] ++ t).
      rewrite app_assoc. apply Permutation_app_tail, Permutation_app_comm. }
  apply (H []).
Qed.

Lemma sort_by_perm {A} (key : A -> str) l : Permutation (sort_by key l) l.
Proof. apply stable_sort_perm. Qed.

(** ** File selection *)

Lemma d_of_length fn d : d_of fn = Some d -> length d = 6.
Proof.
  unfold d_of, parse_dates_from_filename. simpl.
  destruct (Re.search Re.d_pattern (basename fn)) as [[p [ds r]]|] eqn:E; [|discriminate].
  intros [= <-]. destruct (search_d_first _ _ _ _ E) as (pre & (c & post & _ & _ & Hl & _) & _).
  exact Hl.
Qed.

Lemma jv_of_digits fn j : jv_of fn = Some j -> length j = 6 /\ all_digits j.
Proof.
  unfold jv_of, parse_dates_from_filename. simpl.
  destruct (Re.search Re.jv_pattern (basename fn)) as [[p [ds r]]|] eqn:E; [|discriminate].
  destruct (search_jv_first _ _ _ _ E) as [(c1 & c2 & post & _ & _ & _ & Hl & Hd) _].
  rewrite jv_slices by assumption. intros [= <-].
  do 9 (destruct ds as [|? ds]; try discriminate). split; [reflexivity|].
  unfold all_digits in *. simpl. inversion Hd as [|? ? _ Hd1]; subst.
  inversion Hd1; subst. assumption.
Qed.

Lemma int_of_digits_nonneg s : (0 <= int_of_digits s)%Z.
Proof.
  unfold int_of_digits.
  assert (H : forall acc, (0 <= acc)%Z ->
            (0 <= fold_left (fun a c => a * 10 + Z.of_N (code c - 48)) s acc)%Z).
  { induction s as [|c t IH]; intros acc Hacc; simpl; [assumption|]. apply IH. lia. }
  apply H. lia.
Qed.

Lemma isdigit_all_digits s : s <> [] -> all_digits s -> isdigit s = true.
Proof.
  intros Hne Hd. destruct s as [|c t]; [congruence|].
  unfold isdigit. apply forallb_forall. intros x Hx.
  unfold all_digits in Hd. rewrite List.Forall_forall in Hd. auto.
Qed.

Lemma jv_rank_none fn : jv_of fn = None -> jv_rank fn = (-1)%Z.
Proof. unfold jv_rank. intros ->. reflexivity. Qed.

Lemma jv_rank_some fn j :
  jv_of fn = Some j -> jv_rank fn = int_of_digits j /\ (0 <= jv_rank fn)%Z.
Proof.
  intros H. unfold jv_rank. rewrite H. simpl.
  destruct (jv_of_digits _ _ H) as [Hl Hd].
  rewrite isdigit_all_digits; [|destruct j; [discriminate | congruence] | assumption].
  split; [reflexivity | apply int_of_digits_nonneg].
Qed.

Lemma d_key_not_no_d fn d fn' : d_of fn = Some d -> d <> no_d_key fn'.
Proof.
  intros H ->. apply d_of_length in H. unfold no_d_key in H.
  rewrite length_app in H. change (length (L "__NO_D__::")) with 10 in H. lia.
Qed.

Lemma no_d_key_inj a b : no_d_key a = no_d_key b -> a = b.
Proof. unfold no_d_key. apply app_inv_head. Qed.

Lemma wins_In fs d w : wins fs d w -> In w fs /\ has_valid_ext w = true /\ d_of w = Some d.
Proof.
  intros (pre & post & -> & Hv & Hd & _). repeat split; auto.
  apply in_or_app. right. left. reflexivity.
Qed.

Lemma wins_bound fs d w f :
  wins fs d w -> In f fs -> has_valid_ext f = true -> d_of f = Some d ->
  (jv_rank f <= jv_rank w)%Z.
Proof.
  intros (pre & post & -> & _ & _ & Hpre & Hpost) Hin Hv Hd.
  apply in_app_or in Hin as [Hin | [<- | Hin]].
  - specialize (Hpre f Hin Hv Hd). lia.
  - lia.
  - auto.
Qed.

Lemma wins_snoc_other fs d w fn :
  wins fs d w ->
  (has_valid_ext fn = true -> d_of fn = Some d -> (jv_rank fn <= jv_rank w)%Z) ->
  wins (fs ++ [fn]) d w.
Proof.
  intros (pre & post & -> & Hv & Hd & Hpre & Hpost) Hfn.
  exists pre, (post ++ [fn]). rewrite <- app_assoc. simpl.
  repeat split; auto.
  intros f Hin. apply in_app_or in Hin as [Hin | [<- | []]]; auto.
Qed.

Lemma wins_snoc_new fs d fn :
  has_valid_ext fn = true -> d_of fn = Some d ->
  (forall f, In f fs -> has_valid_ext f = true -> d_of f = Some d ->
             (jv_rank f < jv_rank fn)%Z) ->
  wins (fs ++ [fn]) d fn.
Proof.
  intros Hv Hd Hall. exists fs, []. repeat split; auto. intros f [].
Qed.

Lemma chosen_inv_nil folder : chosen_inv folder [] [].
Proof.
  repeat split.
  - constructor.
  - intros k e [=].
  - intros fn d [].
  - intros fn [].
Qed.

Lemma chosen_inv_step folder fs chosen fn :
  chosen_inv folder fs chosen ->
  chosen_inv folder (fs ++ [fn]) (pick_step folder chosen fn).
Proof.
  intros (Hnd & Hget & Hd & Hnod). unfold pick_step.
  destruct (has_valid_ext fn) eqn:Hv; cbn [negb].
  2:{ (* no recognised extension: the file is skipped *)
    repeat split; [assumption | | |].
    - intros k e Hk. destruct (Hget k e Hk) as [(w & Hw & ->) | (f & -> & Hin & Hvf & Hdf & ->)].
      + left. exists w. split; [|reflexivity]. apply wins_snoc_other; [assumption | congruence].
      + right. exists f. repeat split; auto. apply in_or_app. auto.
    - intros f d Hin Hvf. apply in_app_or in Hin as [Hin | [<- | []]]; [eauto | congruence].
    - intros f Hin Hvf. apply in_app_or in Hin as [Hin | [<- | []]]; [eauto | congruence]. }
  pose proof (eq_refl : d_of fn = fst (parse_dates_from_filename fn)) as Ed.
  pose proof (eq_refl : jv_of fn = snd (parse_dates_from_filename fn)) as Ej.
  pose proof (eq_refl : jv_rank fn = jv_int_of (jv_of fn)) as Er.
  destruct (parse_dates_from_filename fn) as [dd jv]. simpl in Ed, Ej. subst dd jv.
  rewrite <- Er. clear Er.
  destruct (d_of fn) as [d|] eqn:Edf.
  - (* a D-date *)
    assert (Hnew :
               (forall f, In f fs -> has_valid_ext f = true -> d_of f = Some d ->
                          (jv_rank f < jv_rank fn)%Z) ->
               chosen_inv folder (fs ++ [fn])
                 (Dict.set d {| file := join folder fn; d_date := Some d;
                                jv_date := jv_of fn; _jv_int := Some (jv_rank fn) |} chosen)).
    { intros Hlt. repeat split.
      - apply NoDup_keys_set. assumption.
      - intros k e. destruct (List.list_eq_dec ascii_dec d k) as [<-|Hne].
        + rewrite get_set_eq. intros [= <-]. left. exists fn.
          split; [apply wins_snoc_new; auto | reflexivity].
        + rewrite get_set_ne by assumption. intros Hk.
          destruct (Hget k e Hk) as [(w & Hw & ->) | (f & -> & Hin & Hvf & Hdf & ->)].
          * left. exists w. split; [|reflexivity].
            apply wins_snoc_other; [assumption|]. intros _ [= ?]. congruence.
          * right. exists f. repeat split; auto. apply in_or_app. auto.
      - intros f d' Hin Hvf Hdf. destruct (List.list_eq_dec ascii_dec d d') as [<-|Hne].
        + rewrite get_set_eq. discriminate.
        + rewrite get_set_ne by assumption.
          apply in_app_or in Hin as [Hin | [<- | []]]; [eauto | congruence].
      - intros f Hin Hvf Hdf. rewrite get_set_ne by (eapply d_key_not_no_d; eassumption).
        apply in_app_or in Hin as [Hin | [<- | []]]; [eauto | congruence]. }
    destruct (Dict.get d chosen) as [cur|] eqn:Ecur.
    + destruct (Hget d cur Ecur) as [(w & Hw & ->) | (f & Hk & _)];
        [|exfalso; eapply d_key_not_no_d; eassumption].
      simpl. destruct (jv_rank w <? jv_rank fn)%Z eqn:Hcmp.
      * apply Z.ltb_lt in Hcmp. apply Hnew. intros f Hin Hvf Hdf.
        pose proof (wins_bound _ _ _ _ Hw Hin Hvf Hdf). lia.
      * apply Z.ltb_ge in Hcmp. repeat split; [assumption | | |].
        -- intros k e Hk.
           destruct (Hget k e Hk) as [(w' & Hw' & ->) | (f & -> & Hin & Hvf & Hdf & ->)].
           ++ left. exists w'. split; [|reflexivity].
              apply wins_snoc_other; [assumption|]. intros _ Hdk.
              rewrite Edf in Hdk. injection Hdk as <-.
              rewrite Ecur in Hk. injection Hk as Hk. lia.
           ++ right. exists f. repeat split; auto. apply in_or_app. auto.
        -- intros f d' Hin Hvf Hdf.
           apply in_app_or in Hin as [Hin | [<- | []]]; [eauto | congruence].
        -- intros f Hin Hvf Hdf.
           apply in_app_or in Hin as [Hin | [<- | []]]; [eauto | congruence].
    + apply Hnew. intros f Hin Hvf Hdf. exfalso. exact (Hd f d Hin Hvf Hdf Ecur).
  - (* no D-date: the file gets a key of its own *)
    fold (no_d_key fn). fold (stored_nod folder fn). repeat split.
    + apply NoDup_keys_set. assumption.
    + intros k e. destruct (List.list_eq_dec ascii_dec (no_d_key fn) k) as [<-|Hne].
      * rewrite get_set_eq. intros [= <-]. right. exists fn.
        repeat split; auto. apply in_or_app. right. left. reflexivity.
      * rewrite get_set_ne by assumption. intros Hk.
        destruct (Hget k e Hk) as [(w & Hw & ->) | (f & -> & Hin & Hvf & Hdf & ->)].
        -- left. exists w. split; [|reflexivity].
           apply wins_snoc_other; [assumption | congruence].
        -- right. exists f. repeat split; auto. apply in_or_app. auto.
    + intros f d' Hin Hvf Hdf.
      rewrite get_set_ne by (apply not_eq_sym; eapply d_key_not_no_d; eassumption).
      apply in_app_or in Hin as [Hin | [<- | []]]; [eauto | congruence].
    + intros f Hin Hvf Hdf.
      destruct (List.list_eq_dec ascii_dec (no_d_key fn) (no_d_key f)) as [Heq|Hne].
      * rewrite <- Heq, get_set_eq. apply no_d_key_inj in Heq. subst f. reflexivity.
      * rewrite get_set_ne by assumption.
        apply in_app_or in Hin as [Hin | [<- | []]]; [eauto | congruence].
Qed.

Lemma chosen_inv_fold folder fs :
  chosen_inv folder fs (fold_left (pick_step folder) fs []).
Proof.
  induction fs as [|fn fs IH] using rev_ind.
  - apply chosen_inv_nil.
  - rewrite fold_left_app. simpl. apply chosen_inv_step. exact IH.
Qed.

Lemma pop_stored_d folder d w : d_of w = Some d -> pop_jv_int (stored_d folder d w) = result_entry folder w.
Proof. intros H. unfold pop_jv_int, stored_d, result_entry. simpl. rewrite H. reflexivity. Qed.

Lemma pop_stored_nod folder fn : d_of fn = None -> pop_jv_int (stored_nod folder fn) = result_entry folder fn.
Proof. intros H. unfold pop_jv_int, stored_nod, result_entry. simpl. rewrite H. reflexivity. Qed.

Lemma pick_results_In folder files e :
  In e (pick_latest_files_by_duplicate_d_date folder files) <->
  exists k e0, Dict.get k (fold_left (pick_step folder) files []) = Some e0 /\ e = pop_jv_int e0.
Proof.
  unfold pick_latest_files_by_duplicate_d_date.
  destruct (chosen_inv_fold folder files) as (Hnd & _).
  set (chosen := fold_left (pick_step folder) files []) in *.
  match goal with |- In e (sort_by ?key ?l) <-> _ =>
    assert (Hiff : In e (sort_by key l) <-> In e l)
      by (split; apply Permutation_in; [|symmetry]; apply sort_by_perm)
  end.
  rewrite Hiff, in_map_iff. unfold Dict.values. split.
  - intros (e0 & <- & Hin). apply in_map_iff in Hin as ([k e1] & <- & Hin).
    exists k, e1. split; [apply In_get_Some; assumption | reflexivity].
  - intros (k & e0 & Hk & ->). exists e0. split; [reflexivity|].
    apply in_map_iff. exists (k, e0). split; [reflexivity | apply get_Some_In; assumption].
Qed.

Lemma filter_length_perm {A} (P : A -> bool) l l' :
  Permutation l l' -> length (List.filter P l) = length (List.filter P l').
Proof.
  induction 1 as [|x l l' _ IH|x y l|l l' l'' _ IH1 _ IH2]; simpl.
  - reflexivity.
  - destruct (P x); simpl; congruence.
  - destruct (P x), (P y); reflexivity.
  - congruence.
Qed.

Lemma filter_map_length {A B} (P : B -> bool) (f : A -> B) l :
  length (List.filter P (map f l)) = length (List.filter (fun x => P (f x)) l).
Proof.
  induction l as [|x l IH]; simpl; [reflexivity|].
  destruct (P (f x)); simpl; congruence.
Qed.

Lemma pick_step_invalid folder chosen fn :
  has_valid_ext fn = false -> pick_step folder chosen fn = chosen.
Proof. intros H. unfold pick_step. rewrite H. reflexivity. Qed.

Lemma pick_fold_filter folder files chosen :
  fold_left (pick_step folder) files chosen
  = fold_left (pick_step folder) (List.filter has_valid_ext files) chosen.
Proof.
  revert chosen. induction files as [|fn files IH]; intros chosen; simpl; [reflexivity|].
  destruct (has_valid_ext fn) eqn:Hv; simpl.
  - apply IH.
  - rewrite pick_step_invalid by assumption. apply IH.
Qed.

(** C1.  The selection keeps at most one entry per D-date; the entry kept
    for a D-date is the one of a file that wins it: it has a recognised
    extension and that D-date, every such file before it in the list has a
    strictly smaller JV number and every such file after it has a JV number
    that is not larger, where the JV number is the JV token read as an
    integer and [-1], below every token, without one.  Every file with a
    recognised extension and no D-date has its entry in the result.  Every
    entry of the result is the entry of a listed file with a recognised
    extension, and the files without one do not influence the result. *)
Theorem pick_latest_files_spec (folder : str) (files : list str) :
  let res := pick_latest_files_by_duplicate_d_date folder files in
  (forall d, length (List.filter (has_d_date d) res) <= 1) /\
  (forall e d, In e res -> d_date e = Some d ->
     exists w, wins files d w /\ e = result_entry folder w) /\
  (forall fn d, In fn files -> has_valid_ext fn = true -> d_of fn = Some d ->
     exists w, wins files d w /\ In (result_entry folder w) res) /\
  (forall fn, jv_of fn = None -> jv_rank fn = (-1)%Z) /\
  (forall fn j, jv_of fn = Some j -> jv_rank fn = int_of_digits j /\ (0 <= jv_rank fn)%Z) /\
  (forall fn, In fn files -> has_valid_ext fn = true -> d_of fn = None ->
     In (result_entry folder fn) res) /\
  (forall e, In e res ->
     exists fn, In fn files /\ has_valid_ext fn = true /\ e = result_entry folder fn) /\
  res = pick_latest_files_by_duplicate_d_date folder (List.filter has_valid_ext files).
Proof.
  intros res. subst res.
  destruct (chosen_inv_fold folder files) as (Hnd & Hget & Hd & Hnod).
  repeat split.
  - intros d. unfold pick_latest_files_by_duplicate_d_date.
    rewrite (filter_length_perm _ _ _ (sort_by_perm _ _)), filter_map_length.
    apply (filter_values_le_1 _ d); [assumption|].
    intros k v Hin Hv. apply In_get_Some in Hin; [|assumption].
    destruct (Hget k v Hin) as [(w & Hw & ->) | (f & -> & _ & _ & _ & ->)].
    + unfold has_d_date in Hv. simpl in Hv. apply str_eqb_eq. exact Hv.
    + discriminate.
  - intros e d He Hde. apply pick_results_In in He as (k & e0 & Hk & ->).
    destruct (Hget k e0 Hk) as [(w & Hw & ->) | (f & -> & _ & _ & _ & ->)].
    + simpl in Hde. injection Hde as ->. exists w. split; [assumption|].
      apply pop_stored_d. apply (wins_In _ _ _ Hw).
    + discriminate.
  - intros fn d Hin Hv Hdf.
    destruct (Dict.get d (fold_left (pick_step folder) files [])) as [e0|] eqn:E;
      [|exfalso; exact (Hd fn d Hin Hv Hdf E)].
    destruct (Hget d e0 E) as [(w & Hw & ->) | (f & Hk & _)];
      [|exfalso; eapply d_key_not_no_d; eassumption].
    exists w. split; [assumption|]. apply pick_results_In.
    exists d, (stored_d folder d w). split; [assumption|].
    symmetry. apply pop_stored_d. apply (wins_In _ _ _ Hw).
  - apply jv_rank_none.
  - apply jv_rank_some; assumption.
  - apply jv_rank_some in H. apply H.
  - intros fn Hin Hv Hdf. apply pick_results_In.
    exists (no_d_key fn), (stored_nod folder fn). split; [auto|].
    symmetry. apply pop_stored_nod. assumption.
  - intros e He. apply pick_results_In in He as (k & e0 & Hk & ->).
    destruct (Hget k e0 Hk) as [(w & Hw & ->) | (f & -> & Hin & Hv & Hdf & ->)].
    + destruct (wins_In _ _ _ Hw) as (Hin & Hv & Hdw). exists w.
      repeat split; auto. apply pop_stored_d. assumption.
    + exists f. repeat split; auto. apply pop_stored_nod. assumption.
  - unfold pick_latest_files_by_duplicate_d_date. rewrite pick_fold_filter. reflexivity.
Qed.

(** ** Search keys *)

Example pos_AZ_value : pos_AZ = 14%Z.
Proof. reflexivity. Qed.

Example pos_CU_value : pos_CU = 16%Z.
Proof. reflexivity. Qed.

Example search_keys_ex :
  search_keys [L "a"; L "b"; L "a"; L "a"; L "b"]
  = [L "a|1"; L "b|1"; L "a|2"; L "a|3"; L "b|2"].
Proof. vm_compute. reflexivity. Qed.

Lemma occurrences_cons b x l :
  occurrences b (x :: l) = (if str_eqb b x then 1 else 0) + occurrences b l.
Proof. unfold occurrences. simpl. destruct (str_eqb b x); reflexivity. Qed.

Lemma cumcount_from_length seen keys : length (cumcount_from seen keys) = length keys.
Proof.
  revert seen. induction keys as [|k t IH]; intros seen; simpl; [reflexivity|].
  rewrite IH. reflexivity.
Qed.

Lemma cumcount_from_nth keys : forall seen i k,
  nth_error keys i = Some k ->
  nth_error (cumcount_from seen keys) i
  = Some (default 0 (seen !! k) + occurrences k (firstn i keys)).
Proof.
  induction keys as [|k0 t IH]; intros seen i k; [destruct i; discriminate|].
  destruct i as [|i]; simpl.
  - intros [= ->]. unfold occurrences. simpl. f_equal. lia.
  - intros Hk. rewrite (IH _ _ _ Hk), occurrences_cons. f_equal.
    destruct (str_eqb k k0) eqn:E.
    + apply str_eqb_eq in E. subst k0. rewrite lookup_insert_eq. simpl. lia.
    + apply str_eqb_neq in E. rewrite lookup_insert_ne by congruence. lia.
Qed.

Lemma nth_error_zip_with {A B D} (f : A -> B -> D) l1 l2 i a b :
  nth_error l1 i = Some a -> nth_error l2 i = Some b ->
  nth_error (zip_with f l1 l2) i = Some (f a b).
Proof.
  revert l2 i. induction l1 as [|x l1 IH]; intros [|y l2] [|i]; simpl; try discriminate.
  - intros [= ->] [= ->]. reflexivity.
  - apply IH.
Qed.

Lemma str_of_nat_inj n m : str_of_nat n = str_of_nat m -> n = m.
Proof.
  unfold str_of_nat. intros H.
  apply (f_equal string_of_list_ascii) in H.
  rewrite !string_of_list_ascii_of_string in H.
  apply (f_equal NilEmpty.uint_of_string) in H.
  rewrite !NilEmpty.usu in H. injection H as H.
  apply DecimalNat.Unsigned.to_uint_inj. exact H.
Qed.

Lemma str_of_uint_no_bar d :
  ~ In "|"%char (list_ascii_of_string (NilEmpty.string_of_uint d)).
Proof.
  induction d; simpl; [tauto | intros [H|H]; (discriminate || auto) ..].
Qed.

Lemma str_of_nat_no_bar n : ~ In "|"%char (str_of_nat n).
Proof. apply str_of_uint_no_bar. Qed.

Lemma split_at_last_bar (u v x y : str) :
  ~ In "|"%char u -> ~ In "|"%char v ->
  u ++ "|"%char :: x = v ++ "|"%char :: y -> u = v /\ x = y.
Proof.
  revert v. induction u as [|c u IH]; intros [|c' v] Hu Hv; simpl; intros H.
  - injection H as ->. auto.
  - injection H as <- _. exfalso. apply Hv. left. reflexivity.
  - injection H as -> _. exfalso. apply Hu. left. reflexivity.
  - injection H as -> H. destruct (IH v) as [-> ->]; auto.
    + intros Hin. apply Hu. right. exact Hin.
    + intros Hin. apply Hv. right. exact Hin.
Qed.

Lemma composite_key_inj (a b : str) n m :
  a ++ L "|" ++ str_of_nat n = b ++ L "|" ++ str_of_nat m -> a = b /\ n = m.
Proof.
  change (L "|") with ["|"%char]. simpl. intros H.
  apply (f_equal (@rev ascii)) in H. rewrite !rev_app_distr in H. simpl in H.
  rewrite <- !app_assoc in H. simpl in H.
  apply split_at_last_bar in H as [Hn Ha].
  - apply (f_equal (@rev ascii)) in Hn, Ha. rewrite !rev_involutive in Hn, Ha.
    split; [assumption | apply str_of_nat_inj; assumption].
  - rewrite <- in_rev. apply str_of_nat_no_bar.
  - rewrite <- in_rev. apply str_of_nat_no_bar.
Qed.

Lemma occurrences_firstn_mono b l i j :
  i <= j -> occurrences b (firstn i l) <= occurrences b (firstn j l).
Proof.
  revert i j. induction l as [|x l IH]; intros i j Hij.
  - rewrite !firstn_nil. lia.
  - destruct i as [|i]; [simpl; unfold occurrences at 1; simpl; lia|].
    destruct j as [|j]; [lia|]. simpl. rewrite !occurrences_cons.
    specialize (IH i j). lia.
Qed.

Lemma occurrences_firstn_S b l i :
  nth_error l i = Some b ->
  occurrences b (firstn (S i) l) = S (occurrences b (firstn i l)).
Proof.
  revert i. induction l as [|x l IH]; intros [|i] H; try discriminate.
  - injection H as ->. rewrite firstn_O. cbn [firstn].
    rewrite occurrences_cons, str_eqb_refl. rewrite firstn_O. reflexivity.
  - cbn [nth_error] in H. change (firstn (S (S i)) (x :: l)) with (x :: firstn (S i) l).
    change (firstn (S i) (x :: l)) with (x :: firstn i l).
    rewrite !occurrences_cons, (IH i H). lia.
Qed.

Lemma search_keys_length bases : length (search_keys bases) = length bases.
Proof.
  unfold search_keys, cumcount. apply length_zip_with_l_eq.
  rewrite cumcount_from_length. reflexivity.
Qed.

Lemma search_keys_nth bases i b :
  nth_error bases i = Some b ->
  nth_error (search_keys bases) i
  = Some (b ++ L "|" ++ str_of_nat (occurrences b (firstn (S i) bases))).
Proof.
  intros H. unfold search_keys, cumcount.
  rewrite (nth_error_zip_with _ _ _ _ _ _ H (cumcount_from_nth _ _ _ _ H)).
  rewrite lookup_empty. simpl. rewrite (occurrences_firstn_S _ _ _ H).
  rewrite Nat.add_1_r. reflexivity.
Qed.

Lemma search_keys_composite bases : composite_keys bases (search_keys bases).
Proof.
  split; [apply search_keys_length|]. split; [apply search_keys_nth|].
  assert (Hlt : forall i j k, i < j ->
            nth_error (search_keys bases) i = Some k ->
            nth_error (search_keys bases) j = Some k -> False).
  { intros i j k Hij Hi Hj.
    destruct (nth_error bases i) as [bi|] eqn:Ebi.
    2:{ apply nth_error_None in Ebi. rewrite <- search_keys_length in Ebi.
        apply nth_error_None in Ebi. congruence. }
    destruct (nth_error bases j) as [bj|] eqn:Ebj.
    2:{ apply nth_error_None in Ebj. rewrite <- search_keys_length in Ebj.
        apply nth_error_None in Ebj. congruence. }
    rewrite (search_keys_nth _ _ _ Ebi) in Hi. rewrite (search_keys_nth _ _ _ Ebj) in Hj.
    rewrite <- Hj in Hi. injection Hi as Hi.
    apply composite_key_inj in Hi as [-> Hn].
    rewrite (occurrences_firstn_S _ _ _ Ebj) in Hn.
    pose proof (occurrences_firstn_mono bj bases (S i) j). lia. }
  intros i j k Hi Hj.
  destruct (Nat.lt_trichotomy i j) as [H | [H | H]]; [exfalso | assumption | exfalso]; eauto.
Qed.

Lemma label_eqb_eq a b : label_eqb a b = true <-> a = b.
Proof.
  destruct a as [n|s], b as [m|t]; simpl; try (split; congruence).
  - rewrite Z.eqb_eq. split; congruence.
  - rewrite str_eqb_eq. split; congruence.
Qed.

(** ** Reading a column back *)

Section FrameFacts.
Context {C : Type}.
Implicit Types (df : DataFrame C).

Lemma position_lt l ls j : position l ls = Some j -> j < length ls.
Proof.
  revert j. induction ls as [|x t IH]; intros j; simpl; [discriminate|].
  destruct (label_eqb l x).
  - intros [= <-]. lia.
  - destruct (position l t) as [i|]; [|discriminate]. intros [= <-].
    specialize (IH i eq_refl). lia.
Qed.

Lemma position_snoc l ls : position l ls = None -> position l (ls ++ [l]) = Some (length ls).
Proof.
  induction ls as [|x t IH]; simpl.
  - intros _. assert (label_eqb l l = true) as -> by (apply label_eqb_eq; reflexivity).
    reflexivity.
  - destruct (label_eqb l x); [discriminate|].
    destruct (position l t); [discriminate|]. intros _. rewrite IH by reflexivity.
    reflexivity.
Qed.

Lemma nth_insert_same (row : list C) j v d : j < length row -> nth j (<[j := v]> row) d = v.
Proof. intros H. rewrite nth_lookup, list_lookup_insert_eq by exact H. reflexivity. Qed.

Lemma nth_snoc (row : list C) v d : nth (length row) (row ++ [v]) d = v.
Proof. rewrite app_nth2, Nat.sub_diag by lia. reflexivity. Qed.

Lemma setitem_columns_length l vals df :
  length (columns (setitem l vals df))
  = match position l (columns df) with
    | Some _ => length (columns df)
    | None => S (length (columns df))
    end.
Proof.
  unfold setitem. destruct (position l (columns df)); cbn [columns]; [reflexivity|].
  rewrite length_app. simpl. lia.
Qed.

Lemma setitem_well_formed l vals df :
  well_formed df -> well_formed (setitem l vals df).
Proof.
  unfold well_formed, setitem. intros H.
  destruct (position l (columns df)) as [j|]; cbn [columns rows].
  - revert vals. induction H as [|r rs Hr _ IH]; intros [|v vals]; simpl; constructor.
    + cbn [snd]. rewrite length_insert. exact Hr.
    + apply IH.
  - revert vals. induction H as [|r rs Hr _ IH]; intros [|v vals]; simpl; constructor.
    + cbn [snd]. rewrite !length_app, Hr. reflexivity.
    + apply IH.
Qed.

Lemma getitem_setitem d l vals df :
  well_formed df -> length vals = len df ->
  getitem d l (setitem l vals df) = Ok vals.
Proof.
  unfold well_formed, len, getitem, setitem, iloc_col. intros Hwf Hlen.
  destruct (position l (columns df)) as [j|] eqn:E; cbn [columns rows].
  - rewrite E. f_equal. apply position_lt in E.
    revert vals Hlen. induction Hwf as [|r rs Hr _ IH]; intros [|v vals] Hlen;
      simpl in *; try discriminate; [reflexivity|].
    rewrite nth_insert_same by lia. f_equal. apply IH. lia.
  - rewrite position_snoc by exact E. f_equal.
    revert vals Hlen. induction Hwf as [|r rs Hr _ IH]; intros [|v vals] Hlen;
      simpl in *; try discriminate; [reflexivity|].
    f_equal; [rewrite <- Hr; apply nth_snoc | apply IH; lia].
Qed.

Lemma iloc_col_length d j df : length (iloc_col d j df) = len df.
Proof. unfold iloc_col, len. apply length_map. Qed.

Lemma getitem_length d l df vals : getitem d l df = Ok vals -> length vals = len df.
Proof.
  unfold getitem. destruct (position l (columns df)); [|discriminate].
  intros [= <-]. apply iloc_col_length.
Qed.

End FrameFacts.

(** [strip] is idempotent. *)

Lemma drop_while_suffix P s :
  exists w, s = w ++ drop_while P s /\ forallb P w = true.
Proof.
  induction s as [|c s (w & IH & Hw)]; simpl.
  - exists []. auto.
  - destruct (P c) eqn:E.
    + exists (c :: w). simpl. rewrite E, Hw. split; [f_equal; exact IH | reflexivity].
    + exists []. auto.
Qed.

Lemma drop_while_head P s c t : drop_while P s = c :: t -> P c = false.
Proof.
  induction s as [|x s IH]; simpl; [discriminate|].
  destruct (P x) eqn:E; [exact IH|]. intros [= <- _]. exact E.
Qed.

Lemma drop_while_fixed P s : (forall c t, s = c :: t -> P c = false) -> drop_while P s = s.
Proof.
  destruct s as [|c t]; [reflexivity|]. intros H. simpl.
  rewrite (H c t eq_refl). reflexivity.
Qed.

Lemma lstrip_suffix s : exists w, s = w ++ lstrip s.
Proof. destruct (drop_while_suffix is_space s) as (w & H & _). eauto. Qed.

Lemma lstrip_head s c t : lstrip s = c :: t -> is_space c = false.
Proof. apply drop_while_head. Qed.

Lemma lstrip_fixed s : (forall c t, s = c :: t -> is_space c = false) -> lstrip s = s.
Proof. apply drop_while_fixed. Qed.

Lemma strip_idem s : strip (strip s) = strip s.
Proof.
  unfold strip, rstrip.
  set (u := lstrip s). set (r := lstrip (rev u)).
  assert (Hr : lstrip r = r) by (apply lstrip_fixed; intros c t E; exact (lstrip_head _ _ _ E)).
  assert (Ht : lstrip (rev r) = rev r).
  { apply lstrip_fixed. intros c t E.
    destruct (lstrip_suffix (rev u)) as [w Hw]. fold r in Hw.
    apply (f_equal (@rev ascii)) in Hw. rewrite rev_involutive, rev_app_distr, E in Hw.
    simpl in Hw. exact (lstrip_head s c _ Hw). }
  rewrite Ht, rev_involutive, Hr. reflexivity.
Qed.

Lemma nth_alter_ne {A} (f : A -> A) (l : list A) i j d :
  i <> j -> nth j (alter f i l) d = nth j l d.
Proof. intros H. rewrite !nth_lookup, list_lookup_alter_ne by assumption. reflexivity. Qed.

Section TableFacts.
Context (fl : FloatOps).

Lemma strip_nan : strip (L "nan") = L "nan".
Proof. reflexivity. Qed.

Lemma nth_cleaned_stripped (row : list (cell (float fl))) j :
  let c := nth j (map (fun c => Str (strip (astype_str fl c))) row) NaN in
  strip (astype_str fl c) = astype_str fl c.
Proof.
  simpl. destruct (le_lt_dec (length row) j) as [Hle|Hlt].
  - rewrite nth_overflow by (rewrite length_map; exact Hle). reflexivity.
  - rewrite (nth_indep _ NaN (Str (strip (astype_str fl NaN))))
      by (rewrite length_map; exact Hlt).
    rewrite (map_nth (fun c => Str (strip (astype_str fl c)))). simpl. apply strip_idem.
Qed.

Lemma clean_tlf_rows raw :
  exists a b : bool,
    rows (clean_tlf fl raw)
    = map (fun r => (fst r,
             (if b then alter (convert_implied_decimal fl) 16 else id)
               ((if a then alter (convert_implied_decimal fl) 14 else id)
                  (map (fun c => Str (strip (astype_str fl c))) (snd r)))))
          (rows raw).
Proof.
  unfold clean_tlf. change pos_AZ with 14%Z. change pos_CU with 16%Z.
  change (14 =? -1)%Z with false. change (16 =? -1)%Z with false. cbn [negb andb].
  destruct (14 <? _)%Z; [exists true | exists false];
    (destruct (16 <? _)%Z; [exists true | exists false]);
    cbn [apply_col map_cells columns rows]; rewrite ?map_map;
    apply map_ext; intros r; reflexivity.
Qed.

Lemma clean_tlf_col8 raw :
  map (fun c => strip (astype_str fl c)) (iloc_col NaN 8 (clean_tlf fl raw))
  = map (astype_str fl) (iloc_col NaN 8 (clean_tlf fl raw)).
Proof.
  unfold iloc_col. destruct (clean_tlf_rows raw) as (a & b & ->).
  rewrite !map_map. apply map_ext. intros r. cbn [snd].
  assert (E : nth 8
            ((if b then alter (convert_implied_decimal fl) 16 else id)
               ((if a then alter (convert_implied_decimal fl) 14 else id)
                  (map (fun c => Str (strip (astype_str fl c))) (snd r)))) NaN
          = nth 8 (map (fun c => Str (strip (astype_str fl c))) (snd r)) NaN).
  { destruct a, b; unfold id; rewrite ?nth_alter_ne by lia; reflexivity. }
  rewrite E. apply nth_cleaned_stripped.
Qed.

Lemma bind_Ok_inv {A B} (r : result A) (k : A -> result B) b :
  Exc.bind r k = Ok b -> exists a, r = Ok a /\ k a = Ok b.
Proof. destruct r as [a|e]; simpl; [eauto | discriminate]. Qed.

Lemma map_cells_well_formed {D} (f : cell (float fl) -> D) raw :
  well_formed raw -> well_formed (map_cells f raw).
Proof.
  unfold well_formed, map_cells. cbn [columns rows]. intros H.
  apply List.Forall_map. eapply List.Forall_impl; [|exact H].
  intros r Hr. cbn [snd]. rewrite length_map. exact Hr.
Qed.

Lemma apply_col_well_formed j f (df : DataFrame (cell (float fl))) :
  well_formed df -> well_formed (apply_col j f df).
Proof.
  unfold well_formed, apply_col. cbn [columns rows]. intros H.
  apply List.Forall_map. eapply List.Forall_impl; [|exact H].
  intros r Hr. cbn [snd]. rewrite length_alter. exact Hr.
Qed.

Lemma clean_tlf_well_formed raw : well_formed raw -> well_formed (clean_tlf fl raw).
Proof.
  intros H. unfold clean_tlf.
  repeat match goal with
         | |- context [if ?b then _ else _] => destruct b
         end;
    repeat apply apply_col_well_formed; apply map_cells_well_formed; exact H.
Qed.

Lemma update_col_well_formed l f df df' :
  well_formed df -> update_col fl l f df = Ok df' -> well_formed df'.
Proof.
  intros H. unfold update_col. intros E. apply bind_Ok_inv in E as (col & _ & [= <-]).
  apply setitem_well_formed. exact H.
Qed.

Lemma sort_values_well_formed by_ (df : DataFrame (cell (float fl))) :
  well_formed df -> well_formed (sort_values fl by_ df).
Proof.
  unfold well_formed, sort_values. cbn [columns rows]. intros H.
  eapply Permutation_Forall; [symmetry; apply stable_sort_perm | exact H].
Qed.

Lemma clean_gl_well_formed raw df :
  well_formed raw -> clean_gl fl raw = Ok df -> well_formed df.
Proof.
  intros Hraw. unfold clean_gl.
  set (gl0 := if length (columns raw) =? length gl_new_headers then _ else raw).
  assert (H0 : well_formed gl0).
  { subst gl0. destruct (length (columns raw) =? length gl_new_headers) eqn:E; [|exact Hraw].
    apply Nat.eqb_eq in E. unfold well_formed in *. cbn [columns rows].
    rewrite length_map, <- E. exact Hraw. }
  intros E.
  apply bind_Ok_inv in E as (g1 & E1 & E). apply (update_col_well_formed _ _ _ _ H0) in E1.
  apply bind_Ok_inv in E as (g2 & E2 & E). apply (update_col_well_formed _ _ _ _ E1) in E2.
  apply bind_Ok_inv in E as (g3 & E3 & E). apply (update_col_well_formed _ _ _ _ E2) in E3.
  apply bind_Ok_inv in E as (g4 & E4 & E). apply (update_col_well_formed _ _ _ _ E3) in E4.
  apply bind_Ok_inv in E as (g5 & E5 & E).
  assert (H5 : well_formed g5).
  { destruct (has_column fl (L "Seq") g4).
    - exact (update_col_well_formed _ _ _ _ E4 E5).
    - injection E5 as <-. exact E4. }
  cbv zeta in E. injection E as <-.
  match goal with
  | |- context [match ?x with _ => _ end] => destruct x
  end; [exact H5 | apply sort_values_well_formed; exact H5].
Qed.

Lemma add_search_key_readback (bases : list str) (df : DataFrame (cell (float fl))) :
  well_formed df -> length bases = len df ->
  getitem NaN (LStr (L "_SearchKey")) (add_search_key fl bases df)
  = Ok (map Str (search_keys bases)).
Proof.
  intros Hwf Hlen. unfold add_search_key. apply getitem_setitem; [exact Hwf|].
  rewrite length_map, search_keys_length. exact Hlen.
Qed.

End TableFacts.

(** C2.  When the reference table has rows and more than eight columns,
    the table written is the cleaned table with the column [_SearchKey]
    set to the composite keys of the texts in column 8; when the source
    table loads and has rows, the table written is the cleaned and sorted
    table with [_SearchKey] set to the composite keys of the texts in
    column [Seq].  The composite key of a row is its base value, a bar, and
    the number of rows from the first up to and including this row that
    carry the same base value, and no two rows of a table have the same
    composite key.  For a table whose rows all have one cell per column,
    reading the column [_SearchKey] back gives exactly these keys. *)
Theorem search_key_spec (fl : FloatOps) (tlf_raw gl_raw : DataFrame (cell (float fl))) :
  (let df := clean_tlf fl tlf_raw in
   empty df = false -> 8 < length (columns df) ->
   let bases := map (astype_str fl) (iloc_col NaN 8 df) in
   load_tlf fl tlf_raw = add_search_key fl bases df /\
   composite_keys bases (search_keys bases) /\
   (well_formed tlf_raw ->
    getitem NaN (LStr (L "_SearchKey")) (load_tlf fl tlf_raw)
    = Ok (map Str (search_keys bases)))) /\
  (forall out, load_gl fl gl_raw = Ok out ->
   exists df, clean_gl fl gl_raw = Ok df /\
     (empty df = true -> out = df) /\
     (empty df = false ->
      exists seq, getitem NaN (LStr (L "Seq")) df = Ok seq /\
        let bases := map (astype_str fl) seq in
        out = add_search_key fl bases df /\
        composite_keys bases (search_keys bases) /\
        (well_formed gl_raw ->
         getitem NaN (LStr (L "_SearchKey")) out = Ok (map Str (search_keys bases))))).
Proof.
  split.
  - intros df Hne Hcols bases.
    assert (Hload : load_tlf fl tlf_raw = add_search_key fl bases df).
    { unfold load_tlf. fold df. rewrite Hne.
      apply Nat.ltb_lt in Hcols. rewrite Hcols. cbn [negb andb].
      subst bases df. rewrite clean_tlf_col8. reflexivity. }
    split; [exact Hload|]. split; [apply search_keys_composite|].
    intros Hwf. rewrite Hload. apply add_search_key_readback.
    + apply clean_tlf_well_formed. exact Hwf.
    + subst bases. rewrite length_map. apply iloc_col_length.
  - intros out Hout. unfold load_gl in Hout.
    apply bind_Ok_inv in Hout as (df & Hdf & Hout). exists df. split; [assumption|].
    destruct (empty df) eqn:He; cbn [negb] in Hout.
    + split; [intros _; congruence | discriminate].
    + split; [discriminate|]. intros _.
      apply bind_Ok_inv in Hout as (seq & Hseq & Hout). exists seq.
      split; [assumption|]. injection Hout as <-.
      split; [reflexivity|]. split; [apply search_keys_composite|].
      intros Hwf. apply add_search_key_readback.
      * exact (clean_gl_well_formed fl _ _ Hwf Hdf).
      * rewrite length_map. exact (getitem_length _ _ _ _ Hseq).
Qed.

Example load_gl_ex :
  let fl := {| float := Z; float_of_str := fun _ => None; div100 := fun x => x;
               fzero := 0%Z; to_numeric := fun _ => None;
               str_of_float := fun _ => L "0" |} in
  let row rc seq := [Str (L rc); NaN; Str (L "c"); NaN; NaN; NaN; NaN; NaN; Str (L seq)] in
  let raw := mkDF (map LInt [9; 10; 11; 12; 13; 15; 38; 39; 51]%Z)
                  [(0%Z, row "b" "x seq_num:7 y"); (1%Z, row "a" " 8 ");
                   (2%Z, row "c" "seq_num:7"); (3%Z, row "a" "7")] in
  match load_gl fl raw with
  | Ok out => getitem NaN (LStr (L "_SearchKey")) out
  | Raise e => Raise e
  end
  = Ok [Str (L "8|1"); Str (L "7|1"); Str (L "7|2"); Str (L "7|3")].
Proof. vm_compute. reflexivity. Qed.

(** ** Sheet lookup *)

Example lookup_by_date :
  tlf_sheet_to_use [L "Summary"; L "D250131"] (L "GL_ATM_D250131_JV20250201.csv")
                   (Some (L "250131"))
  = Some (L "D250131").
Proof. reflexivity. Qed.

Example lookup_by_name :
  tlf_lookup_candidates (L "GL ATM-D250131.csv") (Some (L "250131"))
  = [L "250131"; L "D250131"; L "ATM"].
Proof. reflexivity. Qed.

Example lookup_unprefixed :
  tlf_lookup_candidates (L "ABCD250101.csv") (Some (L "250101"))
  = [L "250101"; L "D250101"; L "ABC"]
  /\ claimed_candidates (L "ABCD250101.csv") (Some (L "250101"))
     = [L "250101"; L "D250101"; L "ABCD250101"].
Proof. split; reflexivity. Qed.

Lemma truthy_spec x : truthy x = true <-> x <> [].
Proof.
  unfold truthy. destruct x; simpl; split; (congruence || discriminate || auto).
Qed.

Lemma existsb_str_eqb x names : existsb (str_eqb x) names = true <-> In x names.
Proof.
  rewrite existsb_exists. split.
  - intros (y & Hy & E). apply str_eqb_eq in E. subst. assumption.
  - intros H. exists x. split; [assumption | apply str_eqb_refl].
Qed.

Lemma usable_spec names x :
  truthy x && existsb (str_eqb x) names = false <-> (x = [] \/ ~ In x names).
Proof.
  rewrite andb_false_iff. split.
  - intros [H|H].
    + left. destruct x; [reflexivity | discriminate].
    + right. intros Hin. apply existsb_str_eqb in Hin. congruence.
  - intros [-> | H]; [left; reflexivity|].
    right. destruct (existsb (str_eqb x) names) eqn:E; [|reflexivity].
    apply existsb_str_eqb in E. contradiction.
Qed.

Lemma first_sheet_Some names cands c :
  first_sheet names cands = Some c <-> first_match names cands c.
Proof.
  unfold first_match. induction cands as [|x t IH]; simpl.
  - split; [discriminate|]. intros (b & a & H & _). destruct b; discriminate.
  - destruct (truthy x && existsb (str_eqb x) names) eqn:E.
    + apply andb_prop in E as [Ht Hin]. apply truthy_spec in Ht.
      apply existsb_str_eqb in Hin. split.
      * intros [= <-]. exists [], t. repeat split; auto; intros y [].
      * intros (b & a & H & Hc & Hcn & Hb). destruct b as [|y b]; simpl in H.
        -- congruence.
        -- injection H as <- _. destruct (Hb x (or_introl eq_refl)); contradiction.
    + apply usable_spec in E. rewrite IH. split.
      * intros (b & a & -> & Hc & Hcn & Hb). exists (x :: b), a.
        repeat split; auto. intros y [<- | Hy]; auto.
      * intros (b & a & H & Hc & Hcn & Hb). destruct b as [|y b]; simpl in H.
        -- injection H as -> _. destruct E; contradiction.
        -- injection H as _ ->. exists b, a. repeat split; auto.
           intros z Hz. apply Hb. right. exact Hz.
Qed.

Lemma first_sheet_None names cands :
  first_sheet names cands = None <-> forall x, In x cands -> x = [] \/ ~ In x names.
Proof.
  induction cands as [|x t IH]; simpl.
  - split; [intros _ y [] | reflexivity].
  - destruct (truthy x && existsb (str_eqb x) names) eqn:E.
    + split; [discriminate|]. intros H. exfalso.
      apply andb_prop in E as [Ht Hin]. apply truthy_spec in Ht.
      apply existsb_str_eqb in Hin. destruct (H x (or_introl eq_refl)); contradiction.
    + apply usable_spec in E. rewrite IH. split.
      * intros H y [<- | Hy]; auto.
      * intros H y Hy. apply H. right. exact Hy.
Qed.

Lemma dot_star_eol_no_nl r : ~ In "010"%char r -> Re.dot_star_eol r = Some [].
Proof.
  induction r as [|c t IH]; simpl; [reflexivity|]. intros H.
  destruct (ch_eqb c "010") eqn:E.
  - apply ch_eqb_eq in E. exfalso. apply H. left. auto.
  - apply IH. intros Hin. apply H. right. exact Hin.
Qed.

Lemma D_suffix_Some s rest :
  Re.D_suffix s = Some rest -> exists ds r, Re.D_digits s = Some (ds, r).
Proof.
  unfold Re.D_suffix. destruct (Re.D_digits s) as [[ds r]|]; [eauto | discriminate].
Qed.

Lemma D_suffix_no_nl s ds r :
  Re.D_digits s = Some (ds, r) -> ~ In "010"%char s -> Re.D_suffix s = Some [].
Proof.
  intros H Hnl. unfold Re.D_suffix. rewrite H. apply dot_star_eol_no_nl.
  apply D_digits_spec in H as (c & -> & _). intros Hin. apply Hnl.
  right. apply in_or_app. right. exact Hin.
Qed.

Lemma d_suffix_pattern_cases s rest :
  Re.d_suffix_pattern s = Some rest ->
  Re.D_suffix s = Some rest \/
  exists c t, s = c :: t /\ Re.is_dash_us c = true /\ Re.D_suffix t = Some rest.
Proof.
  unfold Re.d_suffix_pattern. destruct s as [|c t]; [auto|].
  destruct (Re.is_dash_us c) eqn:Hc; [|auto].
  destruct (Re.D_suffix t) as [x|] eqn:E; [|auto].
  intros [= ->]. right. eauto.
Qed.

Lemma d_suffix_pattern_of_D s rest :
  Re.D_suffix s = Some rest -> Re.d_suffix_pattern s = Some rest.
Proof.
  intros H. unfold Re.d_suffix_pattern. destruct s as [|c t]; [assumption|].
  destruct (Re.is_dash_us c) eqn:Hc; [|assumption].
  apply D_suffix_Some in H as (ds & r & H). rewrite dash_not_D in H by assumption.
  discriminate.
Qed.

Lemma sub_no_match (m : str -> option str) (s : str) :
  Re.search m s = None -> Re.sub m s = s.
Proof. intros H. unfold Re.sub. cbn [Re.sub_fuel]. rewrite H. reflexivity. Qed.

Lemma sub_match_to_end (m : str -> option str) (s p : str) :
  Re.search m s = Some (p, ([] : str)) -> m ([] : str) = None -> Re.sub m s = p.
Proof.
  intros H Hnil. unfold Re.sub. cbn [Re.sub_fuel]. rewrite H.
  destruct (length s); cbn [Re.sub_fuel Re.search]; [|rewrite Hnil]; apply app_nil_r.
Qed.

Lemma drop_last_sep_snoc p c : Re.is_dash_us c = true -> drop_last_sep (p ++ [c]) = p.
Proof.
  intros H. unfold drop_last_sep. rewrite rev_unit, H. apply rev_involutive.
Qed.

Lemma strip_suffix_no_D n :
  (forall pre ds, ~ D_at n pre ds) -> Re.sub Re.d_suffix_pattern n = n.
Proof.
  intros Hno. apply sub_no_match.
  destruct (Re.search Re.d_suffix_pattern n) as [[p rest]|] eqn:E; [|reflexivity].
  exfalso. apply search_Some in E as (post & -> & Hm & _).
  apply d_suffix_pattern_cases in Hm as [H | (c & t & -> & _ & H)];
    apply D_suffix_Some in H as (ds & r & H);
    apply D_digits_spec in H as (c' & -> & Hc' & Hl & Hd).
  - apply (Hno p ds). exists c', r. auto.
  - apply (Hno (p ++ [c]) ds). exists c', r. rewrite <- app_assoc. auto.
Qed.

Lemma strip_suffix_first n pre ds :
  ~ In "010"%char n -> first_at (D_at n) pre ds ->
  Re.sub Re.d_suffix_pattern n = drop_last_sep pre.
Proof.
  intros Hnl [Hocc Hmin].
  assert (Hhere : exists post, n = pre ++ post /\ Re.d_suffix_pattern post = Some []).
  { destruct (D_at_matches _ _ _ Hocc) as (post & r & -> & HD). exists post.
    split; [reflexivity|]. apply d_suffix_pattern_of_D.
    apply (D_suffix_no_nl _ _ _ HD). intros Hin. apply Hnl, in_or_app. auto. }
  destruct Hhere as (post0 & Hn0 & Hm0).
  destruct (Re.search Re.d_suffix_pattern n) as [[p rest]|] eqn:E.
  2:{ rewrite (search_None _ _ E pre post0 Hn0) in Hm0. discriminate. }
  pose proof E as E'. apply search_Some in E' as (post & Hn & Hm & Hsmin).
  assert (Hle : length p <= length pre).
  { destruct (le_lt_dec (length p) (length pre)) as [|Hlt]; [assumption|].
    rewrite (Hsmin pre post0 Hn0 Hlt) in Hm0. discriminate. }
  assert (Hnl' : forall t u, n = t ++ u -> ~ In "010"%char u).
  { intros t u -> Hin. apply Hnl, in_or_app. auto. }
  apply d_suffix_pattern_cases in Hm as [H | (c & t & -> & Hc & H)].
  - destruct (D_suffix_Some _ _ H) as (ds' & r & HD).
    rewrite (D_suffix_no_nl _ _ _ HD (Hnl' _ _ Hn)) in H. injection H as <-.
    rewrite (sub_match_to_end _ _ _ E eq_refl).
    assert (Hocc' : D_at n p ds').
    { apply D_digits_spec in HD as (c' & -> & Hc' & Hl & Hd). exists c', r. auto. }
    pose proof (Hmin _ _ Hocc') as Hge.
    destruct (D_at_functional _ _ _ _ _ Hocc Hocc') as [-> _]; [lia|].
    unfold drop_last_sep. destruct (rev p) as [|c r'] eqn:Er; [reflexivity|].
    destruct (Re.is_dash_us c) eqn:Hc; [|reflexivity]. exfalso.
    apply (f_equal (@rev ascii)) in Er. rewrite rev_involutive in Er. simpl in Er.
    assert (Hm' : Re.d_suffix_pattern (c :: post) = Some []).
    { unfold Re.d_suffix_pattern. rewrite Hc.
      rewrite (D_suffix_no_nl _ _ _ HD (Hnl' _ _ Hn)). reflexivity. }
    rewrite (Hsmin (rev r') (c :: post)) in Hm'; [discriminate | |].
    + rewrite Hn, Er, <- app_assoc. reflexivity.
    + rewrite Er, length_app. simpl. lia.
  - destruct (D_suffix_Some _ _ H) as (ds' & r & HD).
    assert (Hnlt : ~ In "010"%char t).
    { intros Hin. apply (Hnl' _ _ Hn). right. exact Hin. }
    rewrite (D_suffix_no_nl _ _ _ HD Hnlt) in H. injection H as <-.
    rewrite (sub_match_to_end _ _ _ E eq_refl).
    assert (Hocc' : D_at n (p ++ [c]) ds').
    { apply D_digits_spec in HD as (c' & -> & Hc' & Hl & Hd). exists c', r.
      rewrite <- app_assoc. auto. }
    pose proof (Hmin _ _ Hocc') as Hge. rewrite length_app in Hge. simpl in Hge.
    destruct (Nat.eq_dec (length pre) (length p)) as [Heq|Hne].
    + exfalso. destruct Hocc as (c' & post' & Hn' & Hc' & _).
      rewrite Hn in Hn'. apply app_inj_1 in Hn' as [_ Hn']; [|auto].
      injection Hn' as -> _. apply letter_D_not_dash in Hc'. congruence.
    + destruct (D_at_functional _ _ _ _ _ Hocc Hocc') as [-> _].
      * rewrite length_app. simpl. lia.
      * symmetry. apply drop_last_sep_snoc. assumption.
Qed.

(** ** Processing one file *)

(** Case analysis on everything a file's loading consults. *)
Ltac split_loads :=
  repeat (cbv beta iota;
          match goal with
          | |- context [match tlf_sheet_to_use ?a ?b ?c with _ => _ end] =>
              destruct (tlf_sheet_to_use a b c)
          | |- context [match read_tlf_sheet ?w ?s with _ => _ end] =>
              destruct (read_tlf_sheet w s)
          | |- context [if orb ?a ?b then _ else _] => destruct (orb a b)
          | |- context [match read_source_excel ?w ?s with _ => _ end] =>
              destruct (read_source_excel w s)
          | |- context [match read_source_csv ?w ?s ?e with _ => _ end] =>
              destruct (read_source_csv w s e)
          | |- context [match load_gl ?f ?r with _ => _ end] => destruct (load_gl f r)
          end);
  cbv beta iota.

Section ProcessingFacts.
Context (fl : FloatOps) (w : World fl).

Lemma load_tables_state item st : snd (load_tables fl w item st) = st.
Proof.
  unfold load_tables, mbind, lift, ret, try_except. split_loads; reflexivity.
Qed.

Lemma write_block_snoc (b : block fl) bk ws out :
  write_block fl b {| book := bk ++ [ws]; stdout := out |}
  = (Ok tt, {| book := bk ++ [{| title := title ws; blocks := blocks ws ++ [b] |}];
               stdout := out |}).
Proof. unfold write_block. cbn [book stdout]. rewrite rev_unit, rev_involutive. reflexivity. Qed.

Lemma write_sheet_outcome desired tlf_df gl_df st :
  let target := make_unique_sheet_name (map title (book st)) desired in
  let actual := new_sheet_title w (map title (book st)) target in
  let r := write_sheet fl w desired tlf_df gl_df st in
  stdout (snd r) = stdout st /\
  exists added,
    book (snd r) = book st ++ added /\
    match fst r with
    | Ok _ =>
        added = [{| title := actual; blocks := expected_blocks tlf_df gl_df |}] /\
        In target (map title (book st) ++ [actual])
    | Raise _ => added = [] \/ exists bl, added = [{| title := actual; blocks := bl |}]
    end /\
    (empty tlf_df = true ->
     Forall (fun ws => forallb source_side (blocks ws) = true) added).
Proof.
  intros target actual r. subst r.
  unfold write_sheet, mbind, ret, create_sheet, sheet_by_name, to_excel, lift, expected_blocks.
  cbv beta iota. fold target.
  destruct (create_sheet_error w target) as [e|]; cbv beta iota.
  { cbn [fst snd]. split; [reflexivity|]. exists []. rewrite app_nil_r.
    split; [reflexivity|]. split; [left; reflexivity | intros _; constructor]. }
  destruct st as [bk out]. cbn [book stdout] in *. fold actual.
  rewrite map_app. cbn [map title].
  destruct (existsb (str_eqb target) (map title bk ++ [actual])) eqn:Ex; cbv beta iota.
  2:{ cbn [fst snd book stdout]. split; [reflexivity|]. eexists. split; [reflexivity|].
      split; [right; eexists; reflexivity|]. intros _. repeat constructor. }
  apply existsb_str_eqb in Ex.
  destruct (empty tlf_df) eqn:Et, (empty gl_df) eqn:Eg;
    try destruct (to_excel_error w tlf_df) as [e1|];
    try destruct (to_excel_error w gl_df) as [e2|];
    cbv beta iota;
    repeat (rewrite write_block_snoc; cbv beta iota; cbn [title blocks app]);
    cbn [fst snd book stdout];
    (split; [reflexivity|]); eexists; (split; [reflexivity|]);
    (split; [first [split; [reflexivity | exact Ex] | right; eexists; reflexivity] |]);
    intros Hemp; try discriminate;
    repeat constructor.
Qed.

Lemma process_file_no_tlf item st reader :
  tlf_sheet_to_use (sheet_names w) (basename (file item)) (d_date item) = None ->
  process_file fl (with_tlf_reader w reader) item st = process_file fl w item st.
Proof.
  intros H. unfold process_file, load_tables. cbn [sheet_names with_tlf_reader].
  rewrite H. reflexivity.
Qed.

Lemma load_tables_no_tlf item st tables st' :
  tlf_sheet_to_use (sheet_names w) (basename (file item)) (d_date item) = None ->
  load_tables fl w item st = (Ok tables, st') -> empty (fst tables) = true.
Proof.
  intros H. unfold load_tables. rewrite H. unfold mbind, lift, ret, try_except.
  split_loads; intros [= <- _]; reflexivity.
Qed.

End ProcessingFacts.

Lemma process_file_no_tlf_blocks fl (w : World fl) item st :
  tlf_sheet_to_use (sheet_names w) (basename (file item)) (d_date item) = None ->
  let st' := snd (process_file fl w item st) in
  book st' = book st \/
  exists ws, book st' = book st ++ [ws] /\ forallb source_side (blocks ws) = true.
Proof.
  intros H st'. subst st'. unfold process_file, mbind.
  destruct (load_tables fl w item st) as [[tables|e] st1] eqn:El; cbv beta iota.
  - pose proof (load_tables_state fl w item st) as Hst. rewrite El in Hst.
    cbn [snd] in Hst. subst st1.
    pose proof (load_tables_no_tlf fl w _ _ _ _ H El) as Hemp.
    destruct (write_sheet_outcome fl w
                (desired_sheet_name (basename (file item)) (d_date item))
                (fst tables) (snd tables) st) as (_ & added & Hbook & Hres & Hsrc).
    specialize (Hsrc Hemp). rewrite Hbook.
    destruct (fst (write_sheet fl w _ (fst tables) (snd tables) st)).
    + destruct Hres as [-> _]. right. eexists. split; [reflexivity|].
      inversion Hsrc; subst. assumption.
    + destruct Hres as [-> | [bl ->]].
      * left. apply app_nil_r.
      * right. eexists. split; [reflexivity|]. inversion Hsrc; subst. assumption.
  - pose proof (load_tables_state fl w item st) as Hst. rewrite El in Hst.
    cbn [snd] in *. subst st1. left. reflexivity.
Qed.

(** C5, as the code has it.  The reference sheet of a selected file is the
    first candidate that is non-empty and a sheet name of the reference
    workbook.  The candidates are the D-date, [D] followed by the D-date
    (both only for a file with a D-date), and the lookup name: the base
    name without its [GL] substrings (in any case), without extension and
    trimmed of surrounding white space, cut (when it has no line feed) at
    the first place where [D] or [d] stands before six digits, a [-] or
    [_] directly before that place being cut as well, and trimmed again.
    When no candidate matches, processing the file does not depend on the
    reader of the reference sheets, and a sheet written for the file has
    source-side blocks only. *)
Theorem tlf_sheet_lookup_spec (fl : FloatOps) (w : World fl) (item : entry) :
  let filename := basename (file item) in
  let names := sheet_names w in
  let cands := tlf_lookup_candidates filename (d_date item) in
  let name := strip (fst (splitext (Re.sub (literal_nocase (L "GL")) filename))) in
  (exists cut,
     cands = match d_date item with
             | Some d => if truthy d then [d; L "D" ++ d] else []
             | None => []
             end ++ [strip cut] /\
     (~ In "010"%char name ->
      ((forall pre ds, ~ D_at name pre ds) -> cut = name) /\
      (forall pre ds, first_at (D_at name) pre ds -> cut = drop_last_sep pre))) /\
  (forall c, tlf_sheet_to_use names filename (d_date item) = Some c <->
             first_match names cands c) /\
  (tlf_sheet_to_use names filename (d_date item) = None <->
   forall x, In x cands -> x = [] \/ ~ In x names) /\
  (tlf_sheet_to_use names filename (d_date item) = None ->
   forall st,
     (forall reader,
        process_file fl (with_tlf_reader w reader) item st = process_file fl w item st) /\
     (let st' := snd (process_file fl w item st) in
      book st' = book st \/
      exists ws, book st' = book st ++ [ws] /\ forallb source_side (blocks ws) = true)).
Proof.
  intros filename names cands name. repeat split.
  - exists (Re.sub Re.d_suffix_pattern name). split; [reflexivity|].
    intros Hnl. split.
    + apply strip_suffix_no_D.
    + intros pre ds. apply strip_suffix_first. exact Hnl.
  - apply first_sheet_Some.
  - apply first_sheet_Some.
  - apply first_sheet_None.
  - apply first_sheet_None.
  - intros reader. apply process_file_no_tlf. assumption.
  - apply process_file_no_tlf_blocks. assumption.
Qed.

(** C5, as stated, fails: for the file [ABCD250101.csv] and a reference
    workbook whose only sheet is [ABC], the code finds the sheet [ABC],
    because the D-part is cut without a [-] or [_] before it; the sentence
    leaves the name [ABCD250101] and finds no sheet. *)
Lemma tlf_sheet_claim_counterexample :
  d_of (L "ABCD250101.csv") = Some (L "250101") /\
  tlf_sheet_to_use [L "ABC"] (L "ABCD250101.csv") (Some (L "250101")) = Some (L "ABC") /\
  claimed_sheet [L "ABC"] (L "ABCD250101.csv") (Some (L "250101")) = None.
Proof. repeat split; reflexivity. Qed.

(** ** The loop over the selected files *)

Section LoopFacts.
Context (fl : FloatOps) (w : World fl).


Lemma handle_file_Ok item st : fst (handle_file fl w item st) = Ok tt.
Proof.
  unfold handle_file, try_except, print.
  destruct (process_file fl w item st) as [[[]|e] st1]; reflexivity.
Qed.


Lemma process_files_cons item items st :
  process_files fl w (item :: items) st
  = process_files fl w items (snd (handle_file fl w item st)).
Proof.
  unfold process_files. cbn [for_each]. unfold mbind.
  pose proof (handle_file_Ok item st) as H.
  destruct (handle_file fl w item st) as [[[]|e] st1]; [reflexivity | discriminate].
Qed.

Lemma process_files_Ok items st : fst (process_files fl w items st) = Ok tt.
Proof.
  revert st. induction items as [|item items IH]; intros st.
  - reflexivity.
  - rewrite process_files_cons. apply IH.
Qed.







End LoopFacts.


Example one_bad_file_is_skipped :
  let fl := {| float := Z; float_of_str := fun _ => None; div100 := fun x => x;
               fzero := 0%Z; to_numeric := fun _ => None;
               str_of_float := fun _ => L "0" |} in
  let nine := [NaN; NaN; NaN; NaN; NaN; NaN; NaN; NaN; Str (L "seq_num:7")] in
  let good := mkDF (map LInt [9; 10; 11; 12; 13; 15; 38; 39; 51]%Z) [(0%Z, nine)] in
  let w := {| sheet_names := [];
              read_tlf_sheet := fun _ => Raise (LibraryError (L "no sheet"));
              read_source_excel := fun _ => Raise (LibraryError (L "not a workbook"));
              read_source_csv := fun path _ =>
                if contains (L "bad") path then Raise (LibraryError (L "unreadable"))
                else Ok good;
              create_sheet_error := fun _ => None;
              new_sheet_title := fun _ name => name;
              to_excel_error := fun _ => None |} in
  let items := pick_latest_files_by_duplicate_d_date (L "/t")
                 [L "a_D250101.csv"; L "bad_D250102.csv"; L "c_D250103.csv"] in
  let out := snd (process_files fl w items {| book := []; stdout := [] |}) in
  map title (book out) = [L "250101"; L "250103"] /\
  stdout out = [L "Error processing file bad_D250102.csv: unreadable"].
Proof. vm_compute. split; reflexivity. Qed.

Example case_collision_is_an_error :
  let fl := {| float := Z; float_of_str := fun _ => None; div100 := fun x => x;
               fzero := 0%Z; to_numeric := fun _ => None;
               str_of_float := fun _ => L "0" |} in
  let nine := [NaN; NaN; NaN; NaN; NaN; NaN; NaN; NaN; Str (L "seq_num:7")] in
  let good := mkDF (map LInt [9; 10; 11; 12; 13; 15; 38; 39; 51]%Z) [(0%Z, nine)] in
  let w := {| sheet_names := [];
              read_tlf_sheet := fun _ => Raise (LibraryError (L "no sheet"));
              read_source_excel := fun _ => Raise (LibraryError (L "not a workbook"));
              read_source_csv := fun _ _ => Ok good;
              create_sheet_error := fun _ => None;
              new_sheet_title := fun names name =>
                if existsb (fun n => str_eqb (lower n) (lower name)) names
                then name ++ L "1" else name;
              to_excel_error := fun _ => None |} in
  let items := [{| file := L "/t/abc.csv"; d_date := None; jv_date := None;
                   _jv_int := None |};
                {| file := L "/t/ABC.csv"; d_date := None; jv_date := None;
                   _jv_int := None |}] in
  let out := snd (process_files fl w items {| book := []; stdout := [] |}) in
  map (fun ws => (title ws, length (blocks ws))) (book out)
  = [(L "abc", 3); (L "ABC1", 0)] /\
  stdout out = [L "Error processing file ABC.csv: 'ABC'"].
Proof. vm_compute. split; reflexivity. Qed.

(** ** Classification of the extracted files *)

Import WalkSpec.

Lemma last_cons_default {A} (a : A) l d : List.last (a :: l) d = List.last l a.
Proof.
  revert a d. induction l as [|b l IH]; intros a d; [reflexivity|].
  change (List.last (a :: b :: l) d) with (List.last (b :: l) d). rewrite !IH. reflexivity.
Qed.

Lemma classify_inner root files acc :
  fold_left (classify_file root) files acc
  = fold_left (fun acc rf => classify_file (fst rf) acc (snd rf))
              (map (fun f => (root, f)) files) acc.
Proof.
  revert acc. induction files as [|f files IH]; intros acc; simpl; [reflexivity|]. apply IH.
Qed.

Lemma identify_walked walk acc :
  fold_left (fun acc '(root, dirs, files) => fold_left (classify_file root) files acc)
            walk acc
  = fold_left (fun acc rf => classify_file (fst rf) acc (snd rf)) (walked walk) acc.
Proof.
  revert acc. induction walk as [|[[root dirs] files] walk IH]; intros acc; simpl;
    [reflexivity|].
  rewrite fold_left_app, IH, classify_inner. reflexivity.
Qed.

Lemma classify_pairs l acc :
  let kept := List.filter (fun rf => negb (left_out rf)) l in
  fold_left (fun acc rf => classify_file (fst rf) acc (snd rf)) l acc
  = (List.last (map (fun rf => Some (join (fst rf) (snd rf))) (List.filter names_TLF kept))
          (fst acc),
     snd acc ++ map snd (List.filter (fun rf => negb (names_TLF rf)) kept)).
Proof.
  revert acc. induction l as [|[r f] l IH]; intros [tlf src]; cbn [fold_left fst snd].
  - simpl. rewrite app_nil_r. reflexivity.
  - cbn zeta in IH. rewrite IH. cbn [List.filter]. unfold classify_file. cbn [fst snd].
    change (startswith (L ".") f || contains (L "__MACOSX") r) with (left_out (r, f)).
    destruct (left_out (r, f)); cbn [negb fst snd].
    + reflexivity.
    + cbn [List.filter]. change (contains (L "TLF") f) with (names_TLF (r, f)).
      destruct (names_TLF (r, f)); cbn [negb fst snd map].
      * rewrite last_cons_default. reflexivity.
      * rewrite <- app_assoc. reflexivity.
Qed.

(** C7.  Of the files met in the walk, hidden files and files below
    [__MACOSX] are left out.  The source files are, in the order of the
    walk, the names of the remaining files that do not contain [TLF]; the
    reference workbook is the path of the last remaining file whose name
    contains [TLF], if there is one.  A name contains [TLF] exactly when
    these three letters stand in it side by side. *)
Theorem identify_files_spec (walk : list (str * list str * list str)) :
  let kept := List.filter (fun rf => negb (left_out rf)) (walked walk) in
  snd (identify_files walk)
  = map snd (List.filter (fun rf => negb (names_TLF rf)) kept) /\
  fst (identify_files walk)
  = List.last (map (fun rf => Some (join (fst rf) (snd rf))) (List.filter names_TLF kept)) None /\
  (forall rf, names_TLF rf = true <-> exists pre post, snd rf = pre ++ L "TLF" ++ post) /\
  (forall rf, left_out rf = true <->
     (exists rest, snd rf = L "." ++ rest) \/
     (exists pre post, fst rf = pre ++ L "__MACOSX" ++ post)).
Proof.
  intros kept. subst kept. unfold identify_files.
  rewrite identify_walked, classify_pairs. cbn [fst snd app].
  repeat split; try reflexivity.
  - apply contains_spec.
  - apply contains_spec.
  - unfold left_out. rewrite orb_true_iff, startswith_spec, contains_spec. tauto.
  - unfold left_out. rewrite orb_true_iff, startswith_spec, contains_spec. tauto.
Qed.

Example identify_files_ex :
  identify_files
    [(L "/t", [L "__MACOSX"; L "in"], [L "a.csv"; L ".DS_Store"; L "TLF_1.xlsx"]);
     (L "/t/__MACOSX", [], [L "._a.csv"; L "TLF_x.xlsx"]);
     (L "/t/in", [], [L "b.trf"; L "old_TLF.xlsx"; L "tlf.csv"])]
  = (Some (L "/t/in/old_TLF.xlsx"), [L "a.csv"; L "b.trf"; L "tlf.csv"]).
Proof. reflexivity. Qed.

(** ** The merger *)

Import Merger MergerSpec.

Lemma existsb_label_eqb l ls : existsb (label_eqb l) ls = true <-> In l ls.
Proof.
  rewrite existsb_exists. split.
  - intros (x & Hx & E). apply label_eqb_eq in E. subst. assumption.
  - intros H. exists l. split; [assumption | apply label_eqb_eq; reflexivity].
Qed.

Lemma select_map_filter {X} (keep : X -> bool) xs :
  select (map keep xs) xs = List.filter keep xs.
Proof.
  induction xs as [|x xs IH]; simpl; [reflexivity|].
  destruct (keep x); rewrite IH; reflexivity.
Qed.

Lemma select_combine {X Y} (keep : X -> bool) (xs : list X) (ys : list Y) :
  combine (select (map keep xs) xs) (select (map keep xs) ys)
  = List.filter (fun p => keep (fst p)) (combine xs ys).
Proof.
  revert ys. induction xs as [|x xs IH]; intros [|y ys]; simpl; try reflexivity.
  - apply combine_nil.
  - destruct (keep x); simpl; rewrite IH; reflexivity.
Qed.

Lemma map_fst_zip {X Y} (xs : list X) (ys : list Y) :
  length xs = length ys -> map fst (zip xs ys) = xs.
Proof.
  revert ys. induction xs as [|x xs IH]; intros [|y ys]; simpl; try discriminate;
    [reflexivity|]. intros [= H]. rewrite IH by assumption. reflexivity.
Qed.

Lemma map_snd_zip {X Y} (xs : list X) (ys : list Y) :
  length xs = length ys -> map snd (zip xs ys) = ys.
Proof.
  revert ys. induction xs as [|x xs IH]; intros [|y ys]; simpl; try discriminate;
    [reflexivity|]. intros [= H]. rewrite IH by assumption. reflexivity.
Qed.

Lemma add_columns_In l cols acc :
  In l (fold_left (fun acc l => if existsb (label_eqb l) acc then acc else acc ++ [l])
                  cols acc)
  <-> In l acc \/ In l cols.
Proof.
  revert acc. induction cols as [|c cols IH]; intros acc; simpl; [tauto|].
  rewrite IH. destruct (existsb (label_eqb c) acc) eqn:E.
  - apply existsb_label_eqb in E. split; [tauto|]. intros [H | [<- | H]]; auto.
  - rewrite in_app_iff. simpl. tauto.
Qed.

Lemma union_columns_from_In l frames acc :
  In l (fold_left
          (fun acc df =>
             fold_left (fun acc l => if existsb (label_eqb l) acc then acc else acc ++ [l])
                       (columns df) acc)
          frames acc)
  <-> In l acc \/ exists df : sheet_frame, In df frames /\ In l (columns df).
Proof.
  revert acc. induction frames as [|df frames IH]; intros acc; simpl.
  - split; [tauto|]. intros [H | (df & [] & _)]. exact H.
  - rewrite IH, add_columns_In. split.
    + intros [[H | H] | (df' & Hin & Hl)]; eauto.
    + intros [H | (df' & [<- | Hin] & Hl)]; eauto.
Qed.

Lemma union_columns_In l frames :
  In l (union_columns frames) <-> exists df, In df frames /\ In l (columns df).
Proof.
  unfold union_columns. rewrite union_columns_from_In. simpl. tauto.
Qed.

Lemma concat_rows frames :
  let merged := concat_ignore_index frames in
  map snd (rows merged)
  = flat_map (fun df => map (fun r => reindex_row (columns merged) df (snd r)) (rows df))
             frames /\
  map fst (rows merged) = map Z.of_nat (seq 0 (len merged)).
Proof.
  unfold concat_ignore_index, len. cbn [rows columns].
  set (vals := flat_map _ frames).
  assert (Hlen : length (map Z.of_nat (seq 0 (length vals))) = length vals)
    by (rewrite length_map, length_seq; reflexivity).
  split.
  - apply map_snd_zip. exact Hlen.
  - rewrite map_fst_zip by exact Hlen.
    rewrite length_zip_with_r_eq by (symmetry; exact Hlen). reflexivity.
Qed.

Lemma flat_map_nonempty {Y} (g : sheet_frame -> Z * list (option str) -> Y) frames :
  flat_map (fun df => map (g df) (rows df)) (List.filter (fun df => 0 <? len df) frames)
  = flat_map (fun df => map (g df) (rows df)) frames.
Proof.
  induction frames as [|df frames IH]; simpl; [reflexivity|].
  destruct (0 <? len df) eqn:E; simpl; rewrite IH; [reflexivity|].
  apply Nat.ltb_ge in E. unfold len in E. destruct (rows df); [reflexivity | simpl in E; lia].
Qed.

Lemma merge_fold all_sheets fs m :
  fold_left merge_step all_sheets (fs, m) = (fs ++ kept all_sheets, row_counts all_sheets m).
Proof.
  revert fs m. induction all_sheets as [|[name df] t IH]; intros fs m.
  - simpl. rewrite app_nil_r. reflexivity.
  - cbn [fold_left merge_step]. unfold kept, cleaned, row_counts.
    cbn [map List.filter fold_left fst snd]. fold (clean df).
    destruct (0 <? len (clean df)); rewrite IH; unfold kept, cleaned, row_counts;
      rewrite <- ?app_assoc; reflexivity.
Qed.

Lemma row_counts_dom all_sheets m :
  dom (row_counts all_sheets m)
  = dom m ∪ (list_to_set (map fst all_sheets) : gset (list ascii)).
Proof.
  revert m. induction all_sheets as [|[name df] t IH]; intros m; simpl.
  - symmetry. apply (right_id_L ∅ (∪)).
  - unfold row_counts in *. cbn [fold_left fst snd]. rewrite IH, dom_insert_L.
    rewrite (comm_L (∪) {[name]} (dom m)). symmetry. apply (assoc_L (∪)).
Qed.

Lemma row_counts_other all_sheets m name :
  ~ In name (map fst all_sheets) -> row_counts all_sheets m !! name = m !! name.
Proof.
  revert m. induction all_sheets as [|[k df] t IH]; intros m Hn; [reflexivity|].
  unfold row_counts in *. cbn [fold_left fst snd]. simpl in Hn.
  rewrite IH by tauto. apply lookup_insert_ne. tauto.
Qed.

Lemma row_counts_lookup all_sheets m name df :
  NoDup (map fst all_sheets) -> In (name, df) all_sheets ->
  row_counts all_sheets m !! name = Some (len (clean df)).
Proof.
  revert m. induction all_sheets as [|[k d] t IH]; intros m Hnd Hin; [destruct Hin|].
  simpl in Hnd. apply NoDup_cons in Hnd as [Hk Hnd].
  change (row_counts ((k, d) :: t) m) with (row_counts t (<[k := len (clean d)]> m)).
  destruct Hin as [[= -> ->] | Hin].
  - rewrite row_counts_other; [apply lookup_insert_eq|].
    intros H. apply Hk. apply list_elem_of_In. exact H.
  - apply IH; assumption.
Qed.

Section MergeFacts.
Context {bytes size : Type} (to_parquet : sheet_frame -> bytes) (size_mb : bytes -> size).

Lemma merge_unfold all_sheets :
  merge_excel_to_parquet_bytes to_parquet size_mb all_sheets
  = match kept all_sheets with
    | [] => Raise (ValueError no_data_message)
    | _ :: _ =>
        let merged_df := concat_ignore_index (kept all_sheets) in
        Ok (to_parquet merged_df,
            {| sheet_count := length all_sheets;
               merged_rows := len merged_df;
               per_sheet_rows := row_counts all_sheets ∅;
               parquet_size_mb := size_mb (to_parquet merged_df) |})
    end.
Proof.
  unfold merge_excel_to_parquet_bytes. rewrite merge_fold. cbn [app].
  destruct (kept all_sheets); reflexivity.
Qed.

Lemma kept_nil_iff all_sheets :
  kept all_sheets = [] <-> forall kv, In kv all_sheets -> len (clean (snd kv)) = 0.
Proof.
  unfold kept, cleaned. induction all_sheets as [|kv t IH]; simpl.
  - split; [intros _ kv [] | reflexivity].
  - destruct (0 <? len (clean (snd kv))) eqn:E.
    + apply Nat.ltb_lt in E. split; [discriminate|]. intros H.
      specialize (H kv (or_introl eq_refl)). lia.
    + apply Nat.ltb_ge in E. rewrite IH. split.
      * intros H kv' [<- | Hin]; [lia | auto].
      * intros H kv' Hin. apply H. right. exact Hin.
Qed.

End MergeFacts.

(** C3.  When the merger returns, the bytes it returns are the serialised
    merged table, and the merged table is the concatenation of the cleaned
    sheets that still have rows: its rows are, in the order of the sheets
    and of the rows within each sheet, the rows of all cleaned sheets laid
    out on the merged columns (a sheet without rows adds none), numbered
    from 0; its columns are those of the cleaned sheets that still have
    rows.  Cleaning a sheet keeps the columns whose name as a string does
    not begin with [Unnamed], with their cells, and then the rows that have
    a value in at least one of the kept columns. *)
Theorem merge_output_spec {bytes size : Type} (to_parquet : sheet_frame -> bytes)
    (size_mb : bytes -> size) (all_sheets : list (str * sheet_frame)) :
  let merged := concat_ignore_index (kept all_sheets) in
  (forall b st,
     merge_excel_to_parquet_bytes to_parquet size_mb all_sheets = Ok (b, st) ->
     b = to_parquet merged /\ merged_rows st = len merged) /\
  (kept all_sheets <> [] ->
   exists st,
     merge_excel_to_parquet_bytes to_parquet size_mb all_sheets
     = Ok (to_parquet merged, st)) /\
  map snd (rows merged)
  = flat_map (fun df => map (fun r => reindex_row (columns merged) df (snd r)) (rows df))
             (cleaned all_sheets) /\
  map fst (rows merged) = map Z.of_nat (seq 0 (len merged)) /\
  (forall l, In l (columns merged) <->
             exists df, In df (kept all_sheets) /\ In l (columns df)) /\
  (forall df,
     let keep := fun l => negb (is_unnamed l) in
     columns (clean df) = List.filter keep (columns df) /\
     (forall r0 : Z * list (option str),
        combine (columns (clean df)) (select (map keep (columns df)) (snd r0))
        = List.filter (fun p => keep (fst p)) (combine (columns df) (snd r0))) /\
     (forall r,
        In r (rows (clean df)) <->
        exists r0, In r0 (rows df) /\
                   r = (fst r0, select (map keep (columns df)) (snd r0)) /\
                   exists v, In (Some v) (snd r))) /\
  (forall l, is_unnamed l = true <-> exists rest, str_of_label l = L "Unnamed" ++ rest).
Proof.
  intros merged. subst merged. split; [|split; [|split; [|split; [|split; [|split]]]]].
  - intros b st. rewrite merge_unfold.
    destruct (kept all_sheets); [discriminate|]. intros [= <- <-]. split; reflexivity.
  - intros Hne. rewrite merge_unfold. destruct (kept all_sheets); [congruence|]. eauto.
  - destruct (concat_rows (kept all_sheets)) as [-> _]. unfold kept.
    apply (flat_map_nonempty (fun df r => reindex_row _ df (snd r))).
  - apply concat_rows.
  - intros l. apply union_columns_In.
  - intros df keep. unfold clean, dropna_all, drop_unnamed, loc_columns.
    cbn [columns rows]. fold keep. rewrite select_map_filter.
    split; [reflexivity|]. split.
    + intros r0. rewrite <- (select_map_filter keep (columns df)). apply select_combine.
    + intros r. rewrite List.filter_In, in_map_iff, existsb_exists. split.
      * intros [(r0 & <- & Hin) (c & Hc & Hn)]. exists r0.
        split; [assumption|]. split; [reflexivity|].
        destruct c as [v|]; [|discriminate]. exists v. exact Hc.
      * intros (r0 & Hin & -> & v & Hv). split; [eauto|].
        exists (Some v). split; [exact Hv | reflexivity].
  - intros l. unfold is_unnamed. apply startswith_spec.
Qed.

(** C10.  The merger raises exactly when every cleaned sheet has no rows,
    and what it raises then is the [ValueError]; no bytes and no
    statistics come with it.  Otherwise it returns bytes and statistics,
    the statistics count every sheet of the workbook, and the recorded
    per-sheet row counts have an entry for every sheet name, which for a
    workbook with distinct sheet names is the number of rows of the
    cleaned sheet, zero included. *)
Theorem merge_error_spec {bytes size : Type} (to_parquet : sheet_frame -> bytes)
    (size_mb : bytes -> size) (all_sheets : list (str * sheet_frame)) :
  let res := merge_excel_to_parquet_bytes to_parquet size_mb all_sheets in
  (forall e, res = Raise e <->
     e = ValueError no_data_message /\
     forall kv, In kv all_sheets -> len (clean (snd kv)) = 0) /\
  ((exists kv, In kv all_sheets /\ 0 < len (clean (snd kv))) <->
   exists b st, res = Ok (b, st)) /\
  (forall b st,
     res = Ok (b, st) ->
     dom (per_sheet_rows st) = (list_to_set (map fst all_sheets) : gset (list ascii)) /\
     sheet_count st = length all_sheets /\
     (NoDup (map fst all_sheets) ->
      forall name df, In (name, df) all_sheets ->
                      per_sheet_rows st !! name = Some (len (clean df)))).
Proof.
  intros res. subst res. rewrite merge_unfold.
  pose proof (kept_nil_iff all_sheets) as Hnil.
  destruct (kept all_sheets) as [|df0 rest] eqn:Ek.
  - assert (Hall : forall kv, In kv all_sheets -> len (clean (snd kv)) = 0)
      by (apply Hnil; reflexivity).
    split; [|split].
    + intros e. split; [intros [= <-]; auto | intros [-> _]; reflexivity].
    + split.
      * intros (kv & Hin & Hpos). specialize (Hall kv Hin). lia.
      * intros (b & st & [=]).
    + intros b st [=].
  - assert (Hsome : exists kv, In kv all_sheets /\ 0 < len (clean (snd kv))).
    { assert (Hin : In df0 (kept all_sheets)) by (rewrite Ek; left; reflexivity).
      unfold kept, cleaned in Hin. apply List.filter_In in Hin as [Hin Hpos].
      apply in_map_iff in Hin as (kv & <- & Hin). apply Nat.ltb_lt in Hpos. eauto. }
    split; [|split].
    + intros e. split; [discriminate|]. intros [_ Hall].
      destruct Hnil as [_ Hnil]. specialize (Hnil Hall). discriminate.
    + split; [eauto | intros _; exact Hsome].
    + intros b st [= <- <-]. cbn [per_sheet_rows sheet_count].
      rewrite row_counts_dom, dom_empty_L. split; [apply (left_id_L ∅ (∪))|].
      split; [reflexivity|]. intros Hnd name df Hin. apply row_counts_lookup; assumption.
Qed.

Example merge_all_empty_ex :
  merge_excel_to_parquet_bytes (fun df => len df) (fun b => b)
    [(L "S1", mkDF [LStr (L "Unnamed: 0")] [(0%Z, [Some (L "x")])]);
     (L "S2", mkDF [LStr (L "a")] [(0%Z, [None])])]
  = Raise (ValueError no_data_message).
Proof. reflexivity. Qed.

Example merge_stats_ex :
  match merge_excel_to_parquet_bytes (fun df => len df) (fun b => b)
          [(L "S1", mkDF [LStr (L "a")] [(0%Z, [Some (L "x")]); (1%Z, [None])]);
           (L "S2", mkDF [LStr (L "a")] [(0%Z, [None])])] with
  | Ok (b, st) =>
      (b, sheet_count st, merged_rows st,
       per_sheet_rows st !! L "S1", per_sheet_rows st !! L "S2")
      = (1, 2, 1, Some 1, Some 0)
  | Raise _ => False
  end.
Proof. vm_compute. reflexivity. Qed.

Example merge_ex :
  let s1 := mkDF [LStr (L "a"); LStr (L "Unnamed: 1"); LInt 3]
                 [(0%Z, [Some (L "x"); Some (L "junk"); None]);
                  (1%Z, [None; Some (L "junk"); None]);
                  (2%Z, [None; None; Some (L "z")])] in
  let s2 := mkDF [LStr (L "Unnamed: 0")] [(0%Z, [Some (L "only junk")])] in
  let s3 := mkDF [LStr (L "b"); LStr (L "a")] [(0%Z, [Some (L "p"); Some (L "q")])] in
  concat_ignore_index (kept [(L "S1", s1); (L "S2", s2); (L "S3", s3)])
  = mkDF [LStr (L "a"); LInt 3; LStr (L "b")]
         [(0%Z, [Some (L "x"); None; None]);
          (1%Z, [None; Some (L "z"); None]);
          (2%Z, [Some (L "q"); None; Some (L "p")])].
Proof. reflexivity. Qed.

(** ** The query runner *)

Import QuerySpec.

Lemma forallb_rev {A} (P : A -> bool) l : forallb P (rev l) = forallb P l.
Proof.
  induction l as [|x l IH]; simpl; [reflexivity|].
  rewrite forallb_app, IH. simpl. rewrite andb_true_r. apply andb_comm.
Qed.

Lemma rdrop_right_trimmed P s : right_trimmed P s (rev (drop_while P (rev s))).
Proof.
  destruct (drop_while_suffix P (rev s)) as (w & Hw & HP).
  exists (rev w). split; [|split].
  - apply (f_equal (@rev ascii)) in Hw. rewrite rev_involutive, rev_app_distr in Hw. exact Hw.
  - rewrite forallb_rev. exact HP.
  - intros t c E. apply (f_equal (@rev ascii)) in E.
    rewrite rev_involutive, rev_unit in E. exact (drop_while_head _ _ _ _ E).
Qed.

Lemma rstrip_char_spec x s : right_trimmed (fun c => ch_eqb c x) s (rstrip_char x s).
Proof. apply rdrop_right_trimmed. Qed.

Lemma strip_trimmed s : trimmed is_space s (strip s).
Proof.
  unfold strip, rstrip, lstrip.
  destruct (drop_while_suffix is_space s) as (a & Ha & HPa).
  set (u := drop_while is_space s) in *.
  destruct (rdrop_right_trimmed is_space u) as (b & Hb & HPb & Hend).
  set (core := rev (drop_while is_space (rev u))) in *.
  exists a, b. split; [rewrite <- Hb; exact Ha|]. repeat split; auto.
  intros c t E. rewrite E in Hb. simpl in Hb. exact (drop_while_head _ s c _ Hb).
Qed.

Lemma occurs_contains p s : contains p s = true <-> occurs p s.
Proof. apply contains_spec. Qed.

Lemma skipn_startswith old s : startswith old s = true -> s = old ++ skipn (length old) s.
Proof.
  intros H. apply startswith_spec in H as [t ->].
  rewrite skipn_app, Nat.sub_diag, skipn_all. reflexivity.
Qed.

Lemma replaced_cons old new c t r :
  replaced old new t r -> startswith old (c :: t) = false ->
  replaced old new (c :: t) (c :: r).
Proof.
  intros Hr Hs.
  assert (Hnot : forall post, c :: t <> old ++ post).
  { intros post E. assert (startswith old (c :: t) = true) by (apply startswith_spec; eauto).
    congruence. }
  destruct Hr as [s Hno | pre post r Hmin Hr].
  - apply replaced_none. intros (pre & post & E). destruct pre as [|c' pre]; simpl in E.
    + exact (Hnot _ E).
    + injection E as _ E. apply Hno. exists pre, post. exact E.
  - change (c :: pre ++ old ++ post) with ((c :: pre) ++ old ++ post).
    change (c :: pre ++ new ++ r) with ((c :: pre) ++ new ++ r).
    apply replaced_first; [|exact Hr].
    intros pre' post' E. destruct pre' as [|c' pre']; simpl in E.
    + exfalso. exact (Hnot _ E).
    + injection E as _ E. specialize (Hmin _ _ E). simpl. lia.
Qed.

Lemma replace_aux_replaced old new : old <> [] ->
  forall fuel s, length s < fuel -> replaced old new s (replace_aux fuel old new s).
Proof.
  intros Hold. induction fuel as [|fuel IH]; intros s Hlen; [lia|].
  cbn [replace_aux]. destruct (startswith old s) eqn:Es.
  - pose proof (skipn_startswith _ _ Es) as E.
    set (post := skipn (length old) s) in *.
    assert (Hpost : length post < fuel).
    { apply (f_equal (@length ascii)) in E. rewrite length_app in E.
      destruct old; [congruence|]. simpl in E. lia. }
    rewrite E at 1.
    apply (replaced_first old new [] post); [intros; simpl; lia | apply IH; exact Hpost].
  - destruct s as [|c t].
    + apply replaced_none. intros (pre & post & E).
      destruct pre, old; simpl in E; congruence.
    + apply replaced_cons; [apply IH; simpl in Hlen; lia | exact Es].
Qed.

Lemma replace_replaced old new s : old <> [] -> replaced old new s (replace old new s).
Proof. intros H. apply replace_aux_replaced; [exact H | lia]. Qed.

Module QueryRunnerFacts.

Import QueryRunner.

Example run_sql_text_ex :
  executed (run_sql (R := unit) (fun _ => Ok tt)
    {| id := L "p"; title := L "Query 1";
       query := L "  select * from database ;; "; last_result := None |} 0)
  = [L "select * from df  LIMIT 300"].
Proof. reflexivity. Qed.

Example run_sql_limit_ex :
  executed (run_sql (R := unit) (fun _ => Ok tt)
    {| id := L "p"; title := L "Query 1";
       query := L "SELECT unlimited FROM database;"; last_result := None |} 0)
  = [L "SELECT unlimited FROM df"].
Proof. reflexivity. Qed.

Section RunnerFacts.
Context {R : Type} (duckdb_query : str -> result R).

Lemma find_page_Some page_id (pages : list (page R)) idx :
  find_page page_id pages = Some idx ->
  exists p, pages !! idx = Some p /\ id p = page_id /\
            forall j q, j < idx -> pages !! j = Some q -> id q <> page_id.
Proof.
  revert idx. induction pages as [|p t IH]; intros idx; simpl; [discriminate|].
  destruct (str_eqb (id p) page_id) eqn:E.
  - intros [= <-]. apply str_eqb_eq in E. exists p. repeat split; auto. intros j q Hj. lia.
  - destruct (find_page page_id t) as [i|]; [|discriminate]. intros [= <-].
    destruct (IH i eq_refl) as (p' & Hp' & Hid & Hmin). exists p'.
    repeat split; auto. intros [|j] q Hj; simpl.
    + intros [= <-]. apply str_eqb_neq. exact E.
    + apply Hmin. lia.
Qed.

Lemma update_page_length page_id f (pages : list (page R)) :
  length (update_page page_id f pages) = length pages.
Proof.
  induction pages as [|p t IH]; simpl; [reflexivity|].
  destruct (str_eqb (id p) page_id); simpl; congruence.
Qed.

Lemma remove_page_Ok page_id (st st' : session_state R) :
  1 < length (query_pages st) -> remove_page page_id st = Ok st' ->
  exists idx p,
    find_page page_id (query_pages st) = Some idx /\
    query_pages st !! idx = Some p /\ id p = page_id /\
    query_pages st' = delete idx (query_pages st) /\
    S (length (query_pages st')) = length (query_pages st) /\
    (active_page_id st = page_id ->
     exists q, query_pages st' !! (idx - 1) = Some q /\ active_page_id st' = id q /\
               (0 < idx -> query_pages st !! (idx - 1) = Some q)) /\
    (active_page_id st <> page_id -> active_page_id st' = active_page_id st).
Proof.
  intros Hn. unfold remove_page.
  destruct (length (query_pages st) <=? 1) eqn:E; [apply Nat.leb_le in E; lia|].
  destruct (find_page page_id (query_pages st)) as [idx|] eqn:Ef; [|discriminate].
  destruct (find_page_Some _ _ _ Ef) as (p & Hp & Hid & _).
  assert (Hlen : S (length (delete idx (query_pages st))) = length (query_pages st)).
  { rewrite length_delete by eauto. apply lookup_lt_Some in Hp. lia. }
  rewrite Nat.max_0_l.
  destruct (str_eqb (active_page_id st) page_id) eqn:Ea.
  - destruct (delete idx (query_pages st) !! (idx - 1)) as [q|] eqn:Eq; [|discriminate].
    intros [= <-]. exists idx, p. cbn [query_pages active_page_id].
    repeat split; auto.
    + intros _. exists q. repeat split; auto. intros Hpos.
      rewrite list_lookup_delete_lt in Eq by lia. exact Eq.
    + intros Hne. apply str_eqb_eq in Ea. contradiction.
  - intros [= <-]. exists idx, p. cbn [query_pages active_page_id].
    repeat split; auto. intros Heq. apply str_eqb_neq in Ea. contradiction.
Qed.

End RunnerFacts.

(** C8.  Every operation on the query tabs keeps the number of pages
    between 1 and 10.  Adding a page when there are 10 is refused: the
    session stays as it is and a toast is shown; below 10 the new page goes
    last and becomes active.  Removing a page when there is only one is
    refused: the session stays as it is.  A removal that succeeds takes out
    the first page with the given id; if that page was the active one, the
    active page becomes the page that stood before it, and the new first
    page when it was first itself; otherwise the active page stays. *)
Theorem query_pages_bounds {R : Type} (duckdb_query : str -> result R)
    (op : tab_op) (st : session_state R) :
  let n := length (query_pages st) in
  (1 <= n <= 10 -> 1 <= length (query_pages (apply_op duckdb_query op st)) <= 10) /\
  (forall new_id, 10 <= n -> add_new_page new_id st = (st, [ToastMaxPages])) /\
  (forall new_id, n < 10 ->
     exists p, query_pages (fst (add_new_page new_id st)) = query_pages st ++ [p] /\
               id p = new_id /\ active_page_id (fst (add_new_page new_id st)) = new_id) /\
  (forall page_id, n <= 1 -> remove_page page_id st = Ok st) /\
  (forall page_id st',
     1 < n -> remove_page page_id st = Ok st' ->
     exists idx p,
       find_page page_id (query_pages st) = Some idx /\
       query_pages st !! idx = Some p /\ id p = page_id /\
       query_pages st' = delete idx (query_pages st) /\
       S (length (query_pages st')) = n /\
       (active_page_id st = page_id ->
        exists q, query_pages st' !! (idx - 1) = Some q /\ active_page_id st' = id q /\
                  (0 < idx -> query_pages st !! (idx - 1) = Some q)) /\
       (active_page_id st <> page_id -> active_page_id st' = active_page_id st)).
Proof.
  intros n. subst n. split; [|split; [|split; [|split]]].
  - intros Hn. destruct op as [new_id | page_id | | new_title |]; cbn [apply_op].
    + unfold add_new_page. destruct (10 <=? length (query_pages st)) eqn:E; cbn [fst query_pages].
      * exact Hn.
      * apply Nat.leb_gt in E. rewrite length_app. simpl. lia.
    + destruct (remove_page page_id st) as [st'|e] eqn:Er; [|exact Hn].
      destruct (le_lt_dec (length (query_pages st)) 1) as [Hle|Hlt].
      * unfold remove_page in Er. apply Nat.leb_le in Hle. rewrite Hle in Er.
        injection Er as <-. exact Hn.
      * destruct (remove_page_Ok _ _ _ Hlt Er) as (idx & p & _ & _ & _ & _ & Hlen & _). lia.
    + exact Hn.
    + cbn [update_active query_pages]. rewrite update_page_length. exact Hn.
    + cbn [update_active query_pages]. rewrite update_page_length. exact Hn.
  - intros new_id Hn. unfold add_new_page. apply Nat.leb_le in Hn. rewrite Hn. reflexivity.
  - intros new_id Hn. unfold add_new_page. apply Nat.leb_gt in Hn. rewrite Hn.
    cbn [fst query_pages active_page_id]. eexists. split; [reflexivity|]. split; reflexivity.
  - intros page_id Hn. unfold remove_page. apply Nat.leb_le in Hn. rewrite Hn. reflexivity.
  - intros page_id st' Hn Hr. exact (remove_page_Ok _ _ _ Hn Hr).
Qed.

Example tabs_ex :
  let st0 := initial_state (R := unit) (L "p1") in
  let st1 := apply_op (fun _ => Ok tt) (AddPage (L "p2")) st0 in
  let st2 := apply_op (fun _ => Ok tt) (AddPage (L "p3")) st1 in
  let st3 := apply_op (fun _ => Ok tt) (RemovePage (L "p3")) st2 in
  let st4 := apply_op (fun _ => Ok tt) (RemovePage (L "p1")) st3 in
  let st5 := apply_op (fun _ => Ok tt) (RemovePage (L "p2")) st4 in
  (map id (query_pages st2), active_page_id st2) = ([L "p1"; L "p2"; L "p3"], L "p3") /\
  (map id (query_pages st3), active_page_id st3) = ([L "p1"; L "p2"], L "p2") /\
  (map id (query_pages st4), active_page_id st4) = ([L "p2"], L "p2") /\
  st5 = st4.
Proof. vm_compute. repeat split; reflexivity. Qed.

Example tabs_full_ex :
  let add i st := apply_op (R := unit) (fun _ => Ok tt) (AddPage (str_of_nat i)) st in
  let st10 := fold_right add (initial_state (L "first")) (seq 0 9) in
  length (query_pages st10) = 10 /\
  add_new_page (L "one more") st10 = (st10, [ToastMaxPages]).
Proof. vm_compute. split; reflexivity. Qed.

(** C9.  A press on Run takes the query text of the page, trims the white
    space at both ends and then the semicolons at the end.  If nothing is
    left, no text goes to the query engine, the error is shown, the last
    result of the page becomes [None] and the run counter stays.  Otherwise
    exactly one text goes to the engine: the trimmed text, followed by
    [ LIMIT 300] exactly when its lower-case form has no [limit] in it, with
    every occurrence of [database] replaced by [df]; the result of the
    engine becomes the last result of the page and the run counter goes up
    by one, or, when the engine raises, the error is shown and the last
    result becomes [None]. *)
Theorem run_sql_spec {R : Type} (duckdb_query : str -> result R)
    (pg : page R) (run_id : nat) :
  let out := run_sql duckdb_query pg run_id in
  exists stripped q,
    trimmed is_space (query pg) stripped /\
    right_trimmed (fun c => ch_eqb c ";") stripped q /\
    (q = [] ->
     executed out = [] /\ shown out = [ErrorSql (ValueError empty_sql_message)] /\
     last_result (page_after out) = None /\ run_id_after out = run_id) /\
    (q <> [] ->
     exists suffix text,
       ((suffix = L " LIMIT 300" /\ ~ occurs (L "limit") (lower q)) \/
        (suffix = [] /\ occurs (L "limit") (lower q))) /\
       replaced (L "database") (L "df") (q ++ suffix) text /\
       executed out = [text] /\
       (forall r, duckdb_query text = Ok r ->
          last_result (page_after out) = Some r /\ run_id_after out = run_id + 1 /\
          shown out = [ToastResultsUpdated]) /\
       (forall e, duckdb_query text = Raise e ->
          last_result (page_after out) = None /\ run_id_after out = run_id /\
          shown out = [ErrorSql e])).
Proof.
  intros out. subst out.
  exists (strip (query pg)), (rstrip_char ";" (strip (query pg))).
  split; [apply strip_trimmed|]. split; [apply rstrip_char_spec|].
  unfold run_sql. destruct (rstrip_char ";" (strip (query pg))) as [|c q] eqn:Eq.
  - split; [|congruence]. intros _. repeat split.
  - split; [discriminate|]. intros _.
    set (full := c :: q) in *.
    set (suffix := if contains (L "limit") (lower full) then [] else L " LIMIT 300").
    exists suffix, (replace (L "database") (L "df") (full ++ suffix)).
    assert (Hq : (if negb (contains (L "limit") (lower full))
                  then full ++ L " LIMIT 300" else full) = full ++ suffix).
    { subst suffix. destruct (contains (L "limit") (lower full));
        cbn [negb]; [rewrite app_nil_r|]; reflexivity. }
    rewrite Hq. split; [|split; [|split; [|split]]].
    + subst suffix. destruct (contains (L "limit") (lower full)) eqn:E.
      * right. split; [reflexivity|]. apply occurs_contains. exact E.
      * left. split; [reflexivity|]. intros H. apply occurs_contains in H. congruence.
    + apply replace_replaced. discriminate.
    + destruct (duckdb_query _); reflexivity.
    + intros r Hr. rewrite Hr. repeat split.
    + intros e He. rewrite He. repeat split.
Qed.

End QueryRunnerFacts.

(** * Further properties of the code *)

(** ** Column letters *)

Lemma upper_lower_char c : upper_char (lower_char c) = upper_char c.
Proof. destruct c as [[] [] [] [] [] [] [] []]; vm_compute; reflexivity. Qed.

Lemma is_digit_lower_char c : is_digit (lower_char c) = is_digit c.
Proof. destruct c as [[] [] [] [] [] [] [] []]; vm_compute; reflexivity. Qed.

Lemma upper_char_capital c : in_range 65 90 c = true -> upper_char c = c.
Proof. destruct c as [[] [] [] [] [] [] [] []]; vm_compute; (reflexivity || discriminate). Qed.

Lemma capital_not_digit c : in_range 65 90 c = true -> is_digit c = false.
Proof. destruct c as [[] [] [] [] [] [] [] []]; vm_compute; (reflexivity || discriminate). Qed.

Lemma capital_value_range c : in_range 65 90 c = true -> (1 <= letter_value c <= 26)%Z.
Proof.
  unfold in_range, letter_value. intros H. apply andb_prop in H as [H1 H2].
  apply N.leb_le in H1, H2. lia.
Qed.

Lemma letter_value_inj c c' : letter_value c = letter_value c' -> c = c'.
Proof.
  unfold letter_value, code. intros H.
  assert (E : N_of_ascii c = N_of_ascii c') by lia.
  apply (f_equal ascii_of_N) in E. rewrite !ascii_N_embedding in E. exact E.
Qed.

(** The number the loop of [excel_col_to_index] builds. *)
Lemma col_fold_app (s t : str) acc :
  fold_left
    (fun num c =>
       if is_digit c then num
       else (num * 26 + (Z.of_N (code (upper_char c)) - Z.of_N (code "A")) + 1)%Z)
    (s ++ t) acc
  = fold_left
      (fun num c =>
         if is_digit c then num
         else (num * 26 + (Z.of_N (code (upper_char c)) - Z.of_N (code "A")) + 1)%Z)
      t (fold_left
           (fun num c =>
              if is_digit c then num
              else (num * 26 + (Z.of_N (code (upper_char c)) - Z.of_N (code "A")) + 1)%Z)
           s acc).
Proof. apply fold_left_app. Qed.

Lemma excel_col_snoc s c :
  in_range 65 90 c = true ->
  excel_col_to_index (s ++ [c]) = (26 * (excel_col_to_index s + 1) + letter_value c - 1)%Z.
Proof.
  intros Hc. unfold excel_col_to_index. rewrite col_fold_app. cbn [fold_left].
  rewrite (capital_not_digit _ Hc), (upper_char_capital _ Hc).
  unfold letter_value. change (Z.of_N (code "A")) with 65%Z. lia.
Qed.

Lemma excel_col_digit s c :
  is_digit c = true -> excel_col_to_index (s ++ [c]) = excel_col_to_index s.
Proof.
  intros Hc. unfold excel_col_to_index. rewrite col_fold_app. cbn [fold_left].
  rewrite Hc. reflexivity.
Qed.

Lemma excel_col_nonneg s : capital_letters s -> (-1 <= excel_col_to_index s)%Z.
Proof.
  induction s as [|c s IH] using rev_ind; intros H; [vm_compute; discriminate|].
  apply Forall_app in H as [Hs Hc]. inversion Hc as [|? ? Hc' _]; subst.
  rewrite (excel_col_snoc _ _ Hc'). specialize (IH Hs).
  pose proof (capital_value_range _ Hc'). lia.
Qed.

Lemma excel_col_inj s t :
  capital_letters s -> capital_letters t ->
  excel_col_to_index s = excel_col_to_index t -> s = t.
Proof.
  revert t. induction s as [|c s IH] using rev_ind; intros t Hs Ht E.
  - destruct t as [|c' t] using rev_ind; [reflexivity|]. exfalso.
    apply Forall_app in Ht as [Ht Hc]. inversion Hc as [|? ? Hc' _]; subst.
    rewrite (excel_col_snoc _ _ Hc') in E.
    pose proof (excel_col_nonneg _ Ht). pose proof (capital_value_range _ Hc').
    change (excel_col_to_index []) with (-1)%Z in E. lia.
  - apply Forall_app in Hs as [Hs Hc]. inversion Hc as [|? ? Hc' _]; subst.
    destruct t as [|c' t _] using rev_ind.
    + exfalso. rewrite (excel_col_snoc _ _ Hc') in E.
      pose proof (excel_col_nonneg _ Hs). pose proof (capital_value_range _ Hc').
      change (excel_col_to_index []) with (-1)%Z in E. lia.
    + apply Forall_app in Ht as [Ht Hd]. inversion Hd as [|? ? Hd' _]; subst.
      rewrite (excel_col_snoc _ _ Hc'), (excel_col_snoc _ _ Hd') in E.
      pose proof (capital_value_range _ Hc'). pose proof (capital_value_range _ Hd').
      assert (letter_value c = letter_value c' /\ excel_col_to_index s = excel_col_to_index t)
        as [Ev Ei] by lia.
      apply letter_value_inj in Ev. subst c'. f_equal. apply IH; assumption.
Qed.

Lemma col_fold_skip_digits (s : str) acc :
  fold_left
    (fun num c =>
       if is_digit c then num
       else (num * 26 + (Z.of_N (code (upper_char c)) - Z.of_N (code "A")) + 1)%Z)
    s acc
  = fold_left
      (fun num c =>
         if is_digit c then num
         else (num * 26 + (Z.of_N (code (upper_char c)) - Z.of_N (code "A")) + 1)%Z)
      (List.filter (fun c => negb (is_digit c)) s) acc.
Proof.
  revert acc. induction s as [|c s IH]; intros acc; [reflexivity|].
  cbn [fold_left List.filter]. destruct (is_digit c) eqn:E; cbn [negb].
  - apply IH.
  - cbn [fold_left]. rewrite E. apply IH.
Qed.

Lemma col_fold_lower (s : str) acc :
  fold_left
    (fun num c =>
       if is_digit c then num
       else (num * 26 + (Z.of_N (code (upper_char c)) - Z.of_N (code "A")) + 1)%Z)
    (lower s) acc
  = fold_left
      (fun num c =>
         if is_digit c then num
         else (num * 26 + (Z.of_N (code (upper_char c)) - Z.of_N (code "A")) + 1)%Z)
      s acc.
Proof.
  revert acc. induction s as [|c s IH]; intros acc; [reflexivity|].
  cbn [lower map fold_left]. rewrite is_digit_lower_char, upper_lower_char. apply IH.
Qed.

Lemma single_upper_lower (c : ascii) : single_upper c = true -> single_upper (lower_char c) = true.
Proof.
  unfold single_upper, lower_char, in_range, code.
  destruct c as [[] [] [] [] [] [] [] []]; vm_compute; intros H; first [reflexivity | discriminate H].
Qed.

(** X1.  On a name whose characters have an upper-case form of one
    character below 256, [excel_col_to_index] reads the name as a number
    in the letters' base 26, from 0: the empty name gives [-1], a capital
    letter appended to a name takes the index [i] to [26 * (i + 1)] plus the
    place of the letter in the alphabet minus 1; digits in the name are
    skipped, and the case of the letters does not matter (the lower-case
    form of the name is such a name again). *)
Theorem excel_col_to_index_reads_letters (s : str) :
  Forall (fun c => single_upper c = true) s ->
  excel_col_to_index [] = (-1)%Z /\
  (forall c, in_range 65 90 c = true ->
     excel_col_to_index (s ++ [c])
     = (26 * (excel_col_to_index s + 1) + letter_value c - 1)%Z) /\
  excel_col_to_index s = excel_col_to_index (List.filter (fun c => negb (is_digit c)) s) /\
  Forall (fun c => single_upper c = true) (lower s) /\
  excel_col_to_index (lower s) = excel_col_to_index s.
Proof.
  intros Hs.
  split; [reflexivity|]. split; [intros c; apply excel_col_snoc|]. split; [|split].
  - unfold excel_col_to_index. rewrite col_fold_skip_digits. reflexivity.
  - unfold lower. apply List.Forall_map. eapply List.Forall_impl; [|exact Hs].
    intros c. apply single_upper_lower.
  - unfold excel_col_to_index. rewrite col_fold_lower. reflexivity.
Qed.

Lemma excel_col_to_index_reads_letters_witness :
  Forall (fun c => single_upper c = true) (L "a1Z") /\
  excel_col_to_index (L "a1Z") = 51%Z /\
  excel_col_to_index (L "a1Z" ++ L "B") = (26 * (51 + 1) + 2 - 1)%Z /\
  excel_col_to_index (lower (L "a1Z")) = excel_col_to_index (L "a1Z").
Proof.
  assert (H : Forall (fun c => single_upper c = true) (L "a1Z"))
    by (repeat constructor).
  split; [exact H|]. split; [reflexivity|]. split; [reflexivity|].
  exact (proj2 (proj2 (proj2 (proj2 (excel_col_to_index_reads_letters (L "a1Z") H))))).
Defined.

(** X2.  Two different column names in capital letters have different
    indices. *)
Theorem excel_col_to_index_distinct (s t : str) :
  capital_letters s -> capital_letters t -> s <> t ->
  excel_col_to_index s <> excel_col_to_index t.
Proof. intros Hs Ht Hne E. apply Hne. apply excel_col_inj; assumption. Qed.

Lemma excel_col_to_index_distinct_witness :
  capital_letters (L "Z") /\ capital_letters (L "AA") /\ L "Z" <> L "AA" /\
  excel_col_to_index (L "Z") <> excel_col_to_index (L "AA").
Proof.
  assert (H1 : capital_letters (L "Z")) by (repeat constructor).
  assert (H2 : capital_letters (L "AA")) by (repeat constructor).
  assert (H3 : L "Z" <> L "AA") by (vm_compute; discriminate).
  split; [exact H1|]. split; [exact H2|]. split; [exact H3|].
  exact (excel_col_to_index_distinct (L "Z") (L "AA") H1 H2 H3).
Defined.

Example excel_col_examples :
  map excel_col_to_index [L "A"; L "Z"; L "AA"; L "az"; L "A1"; L "DP"]
  = [0; 25; 26; 51; 0; 119]%Z.
Proof. reflexivity. Qed.

(** ** Sequence numbers *)

Lemma literal_spec lit s t : Re.literal lit s = Some t <-> s = lit ++ t.
Proof.
  revert s. induction lit as [|x lit IH]; intros s; simpl.
  - split; [intros [= ->]; reflexivity | intros ->; reflexivity].
  - destruct s as [|y s]; [split; discriminate|].
    destruct (ch_eqb x y) eqn:E.
    + apply ch_eqb_eq in E. subst y. rewrite IH. split; [intros ->; reflexivity|].
      intros [= ->]. reflexivity.
    + apply ch_eqb_neq in E. split; [discriminate|]. intros [= -> _]. congruence.
Qed.

Lemma digits_star_spec s d r :
  Re.digits_star s = (d, r) -> s = d ++ r /\ all_digits d /\ no_digit_ahead r.
Proof.
  unfold all_digits, no_digit_ahead. revert d r. induction s as [|c s IH]; intros d r; simpl.
  - intros [= <- <-]. repeat split; [constructor | intros c t [=]].
  - destruct (is_digit c) eqn:E.
    + destruct (Re.digits_star s) as [d' r'] eqn:Es. intros [= <- <-].
      destruct (IH d' r' eq_refl) as (-> & Hd & Hr). repeat split; auto.
    + intros [= <- <-]. repeat split; [constructor|]. intros c' t [= <- _]. exact E.
Qed.

Lemma seq_num_pattern_Some s g :
  Re.seq_num_pattern s = Some g ->
  exists rest, s = L "seq_num:" ++ g ++ rest /\ g <> [] /\ all_digits g /\
               no_digit_ahead rest.
Proof.
  unfold Re.seq_num_pattern. destruct (Re.literal (L "seq_num:") s) as [t|] eqn:El;
    [|discriminate].
  apply literal_spec in El. destruct (Re.digits_star t) as [d r] eqn:Ed.
  apply digits_star_spec in Ed as (-> & Hd & Hr).
  destruct d as [|c d]; [discriminate|]. intros [= <-]. exists r. subst s.
  split; [reflexivity|]. split; [discriminate|]. split; assumption.
Qed.

Lemma seq_num_pattern_None s c post :
  s = L "seq_num:" ++ c :: post -> is_digit c = true -> Re.seq_num_pattern s <> None.
Proof.
  intros -> Hc. unfold Re.seq_num_pattern.
  assert (El : Re.literal (L "seq_num:") (L "seq_num:" ++ c :: post) = Some (c :: post))
    by (apply literal_spec; reflexivity).
  rewrite El. cbn [Re.digits_star]. rewrite Hc.
  destruct (Re.digits_star post). discriminate.
Qed.

(** X3.  [extract_seq_num] returns the run of digits that follows the
    first [seq_num:] standing before a digit in the text of the value: the
    run is not empty, holds digits only and is not followed by a further
    digit.  When [seq_num:] stands nowhere before a digit, it returns the
    text trimmed of surrounding white space. *)
Theorem extract_seq_num_spec (fl : FloatOps) (val : cell (float fl)) :
  let text := astype_str fl val in
  let g := extract_seq_num fl val in
  (exists pre rest,
     text = pre ++ L "seq_num:" ++ g ++ rest /\ g <> [] /\ all_digits g /\
     no_digit_ahead rest /\
     forall pre', seq_num_at text pre' -> length pre <= length pre') \/
  ((forall pre, ~ seq_num_at text pre) /\ g = strip text).
Proof.
  intros text g. subst g. unfold extract_seq_num. fold text.
  destruct (Re.search Re.seq_num_pattern text) as [[pre g]|] eqn:E.
  - left. apply search_Some in E as (post & Ht & Hm & Hmin).
    apply seq_num_pattern_Some in Hm as (rest & -> & Hne & Hd & Hr).
    exists pre, rest. repeat split; auto.
    intros pre' (c & post' & Ht' & Hc).
    destruct (le_lt_dec (length pre) (length pre')) as [|Hlt]; [assumption|]. exfalso.
    apply (seq_num_pattern_None _ c post' eq_refl Hc).
    apply (Hmin pre' _ Ht' Hlt).
  - right. split; [|reflexivity]. intros pre (c & post & Ht & Hc).
    apply (seq_num_pattern_None _ c post eq_refl Hc).
    apply (search_None _ _ E pre _ Ht).
Qed.

Example extract_seq_num_ex :
  let fl := {| float := Z; float_of_str := fun _ => None; div100 := fun x => x;
               fzero := 0%Z; to_numeric := fun _ => None;
               str_of_float := fun _ => L "0" |} in
  map (extract_seq_num fl)
      [Str (L "a seq_num:x seq_num:0042; seq_num:7"); Str (L "  plain  "); NaN]
  = [L "0042"; L "plain"; L "nan"].
Proof. reflexivity. Qed.

(** ** Sheet names *)

Lemma str_of_uint_digits d :
  all_digits (list_ascii_of_string (NilEmpty.string_of_uint d)).
Proof. unfold all_digits. induction d; simpl; constructor; (reflexivity || assumption). Qed.

Lemma str_of_nat_digits n : all_digits (str_of_nat n).
Proof. apply str_of_uint_digits. Qed.

Lemma split_at_last_char (c : ascii) (u v x y : str) :
  ~ In c u -> ~ In c v -> u ++ c :: x = v ++ c :: y -> u = v /\ x = y.
Proof.
  revert v. induction u as [|a u IH]; intros [|b v] Hu Hv; simpl; intros H.
  - injection H as ->. auto.
  - injection H as <- _. exfalso. apply Hv. left. reflexivity.
  - injection H as -> _. exfalso. apply Hu. left. reflexivity.
  - injection H as -> H. destruct (IH v) as [-> ->]; auto.
    + intros Hin. apply Hu. right. exact Hin.
    + intros Hin. apply Hv. right. exact Hin.
Qed.

Lemma digits_no_underscore s : all_digits s -> ~ In "_"%char s.
Proof.
  unfold all_digits. rewrite List.Forall_forall. intros H Hin.
  specialize (H _ Hin). discriminate.
Qed.

Lemma candidate_ends base i :
  length (str_of_nat i) <= 30 ->
  exists p, candidate base i = p ++ "_"%char :: str_of_nat i.
Proof.
  intros Hfit. unfold candidate. cbv zeta.
  change (L "_" ++ str_of_nat i) with ("_"%char :: str_of_nat i).
  set (suffix := "_"%char :: str_of_nat i).
  exists (firstn (31 - length suffix) base). apply firstn_all2.
  rewrite length_app. pose proof (firstn_le_length (31 - length suffix) base).
  subst suffix. simpl in *. lia.
Qed.

Lemma candidate_inj base i j :
  length (str_of_nat i) <= 30 -> length (str_of_nat j) <= 30 ->
  candidate base i = candidate base j -> i = j.
Proof.
  intros Hi Hj E.
  destruct (candidate_ends base i Hi) as [p Ep].
  destruct (candidate_ends base j Hj) as [q Eq].
  rewrite Ep, Eq in E. apply (f_equal (@rev ascii)) in E.
  rewrite !rev_app_distr in E. simpl in E. rewrite <- !app_assoc in E. simpl in E.
  apply split_at_last_char in E as [E _].
  - apply (f_equal (@rev ascii)) in E. rewrite !rev_involutive in E.
    apply str_of_nat_inj. exact E.
  - rewrite <- in_rev. apply digits_no_underscore, str_of_nat_digits.
  - rewrite <- in_rev. apply digits_no_underscore, str_of_nat_digits.
Qed.

Lemma candidate_length base i : length (candidate base i) <= 31.
Proof. unfold candidate. apply firstn_le_length. Qed.

Lemma unique_name_loop_step fuel names base name i :
  unique_name_loop (S fuel) names base name i
  = if existsb (str_eqb name) names
    then unique_name_loop fuel names base (candidate base i) (S i)
    else name.
Proof. reflexivity. Qed.

Lemma unique_name_loop_first fuel names base name i :
  In (unique_name_loop fuel names base name i) names -> In name names.
Proof.
  destruct fuel as [|fuel]; [exact (fun H => H)|].
  rewrite unique_name_loop_step. destruct (existsb (str_eqb name) names) eqn:E.
  - intros _. apply existsb_str_eqb. exact E.
  - exact (fun H => H).
Qed.

Lemma unique_name_loop_stuck fuel names base : forall name i,
  In (unique_name_loop fuel names base name i) names ->
  forall k, i <= k < i + fuel -> In (candidate base k) names.
Proof.
  induction fuel as [|fuel IH]; intros name i Hin k Hk; [lia|].
  rewrite unique_name_loop_step in Hin.
  destruct (existsb (str_eqb name) names) eqn:E.
  - destruct (Nat.eq_dec k i) as [->|Hne].
    + exact (unique_name_loop_first _ _ _ _ _ Hin).
    + apply (IH _ _ Hin). lia.
  - exfalso. apply existsb_str_eqb in Hin. congruence.
Qed.

Lemma unique_name_loop_length fuel names base : forall name i,
  length name <= 31 -> length (unique_name_loop fuel names base name i) <= 31.
Proof.
  induction fuel as [|fuel IH]; intros name i Hl; [exact Hl|].
  rewrite unique_name_loop_step. destruct (existsb (str_eqb name) names); [|exact Hl].
  apply IH. apply candidate_length.
Qed.

Lemma NoDup_map_on {A B} (f : A -> B) l :
  (forall x y, In x l -> In y l -> f x = f y -> x = y) -> NoDup l -> NoDup (map f l).
Proof.
  intros Hinj Hnd. induction Hnd as [|x l Hx Hnd IH]; simpl; constructor.
  - intros Hin. apply list_elem_of_In, in_map_iff in Hin as (y & Hy & Hin).
    apply Hx. apply list_elem_of_In.
    rewrite <- (Hinj y x); [exact Hin | right; exact Hin | left; reflexivity | exact Hy].
  - apply IH. intros a b Ha Hb. apply Hinj; right; assumption.
Qed.

Lemma make_unique_fresh sheetnames desired_name :
  counters_fit (length sheetnames + 2) ->
  ~ In (make_unique_sheet_name sheetnames desired_name) sheetnames.
Proof.
  intros Hfit Hin. unfold make_unique_sheet_name in Hin. cbv zeta in Hin.
  set (base := firstn 31 _) in Hin.
  pose proof (unique_name_loop_stuck _ _ _ _ _ Hin) as Hall.
  set (ks := seq 2 (S (length sheetnames))).
  assert (Hnd : NoDup (map (candidate base) ks)).
  { apply NoDup_map_on; [|apply NoDup_seq].
    intros x y Hx Hy. subst ks. apply in_seq in Hx, Hy.
    apply candidate_inj; apply Hfit; lia. }
  assert (Hincl : forall c, c ∈ map (candidate base) ks -> c ∈ sheetnames).
  { intros c Hc. apply list_elem_of_In. apply list_elem_of_In in Hc.
    apply in_map_iff in Hc as (k & <- & Hk). subst ks.
    apply in_seq in Hk. apply Hall. lia. }
  pose proof (submseteq_length _ _ (NoDup_submseteq _ _ Hnd Hincl)) as Hlen.
  rewrite length_map in Hlen. subst ks. rewrite length_seq in Hlen. lia.
Qed.

(** X4.  As long as the counters in play have at most 30 digits,
    [make_unique_sheet_name] returns a name that no sheet of the book has.
    The name has at most 31 characters, and it is the desired name, cut to
    31 characters ([Sheet] for an empty desired name), whenever no sheet
    has that name. *)
Theorem make_unique_sheet_name_fresh (sheetnames : list str) (desired_name : str) :
  counters_fit (length sheetnames + 2) ->
  let name := make_unique_sheet_name sheetnames desired_name in
  let base := firstn 31 (if truthy desired_name then desired_name else L "Sheet") in
  ~ In name sheetnames /\ length name <= 31 /\ (~ In base sheetnames -> name = base).
Proof.
  intros Hfit name base. split; [apply make_unique_fresh; exact Hfit|]. split.
  - apply unique_name_loop_length. apply firstn_le_length.
  - intros Hfree. subst name. unfold make_unique_sheet_name. cbv zeta. fold base.
    rewrite unique_name_loop_step.
    destruct (existsb (str_eqb base) sheetnames) eqn:E; [|reflexivity].
    apply existsb_str_eqb in E. contradiction.
Qed.

Lemma counters_fit_small n : n <= 9 -> counters_fit n.
Proof.
  intros Hn i Hi. do 10 (destruct i as [|i]; [vm_compute; lia|]). lia.
Qed.

Lemma make_unique_sheet_name_fresh_witness :
  counters_fit (length [L "250101"; L "250101_2"] + 2) /\
  make_unique_sheet_name [L "250101"; L "250101_2"] (L "250101") = L "250101_3" /\
  ~ In (make_unique_sheet_name [L "250101"; L "250101_2"] (L "250101"))
       [L "250101"; L "250101_2"].
Proof.
  assert (H : counters_fit (length [L "250101"; L "250101_2"] + 2))
    by (apply counters_fit_small; simpl; lia).
  split; [exact H|]. split; [reflexivity|].
  exact (proj1 (make_unique_sheet_name_fresh [L "250101"; L "250101_2"] (L "250101") H)).
Defined.



(** ** The order of the selected files *)

Lemma str_ltb_asym (a : str) : forall b : str, str_ltb a b = true -> str_ltb b a = false.
Proof.
  induction a as [|x a IH]; intros [|y b]; simpl; try congruence.
  destruct (N.ltb_spec (code x) (code y)), (N.ltb_spec (code y) (code x));
    try congruence; try lia. apply IH.
Qed.

Lemma str_leb_trans (a : str) : forall b c : str,
  str_ltb b a = false -> str_ltb c b = false -> str_ltb c a = false.
Proof.
  induction a as [|x a IH]; intros [|y b] [|z c]; simpl; try congruence.
  destruct (N.ltb_spec (code y) (code x)), (N.ltb_spec (code x) (code y)),
           (N.ltb_spec (code z) (code y)), (N.ltb_spec (code y) (code z)),
           (N.ltb_spec (code z) (code x)), (N.ltb_spec (code x) (code z));
    try congruence; try lia.
  apply IH.
Qed.

Section SortFacts.
Context {A : Type} (lt : A -> A -> bool).
Hypothesis asym : forall x y, lt x y = true -> lt y x = false.
Hypothesis trans : forall x y z, lt y x = false -> lt z y = false -> lt z x = false.

Lemma insert_sorted_ordered x l : ordered lt l -> ordered lt (insert_sorted lt x l).
Proof.
  induction l as [|y t IH]; simpl.
  - intros _. split; [constructor | exact I].
  - intros [Hy Ht]. destruct (lt x y) eqn:E.
    + split; [|split; assumption]. constructor; [apply asym; exact E|].
      eapply List.Forall_impl; [|exact Hy]. intros z Hz. cbv beta in Hz.
      apply (trans x y z); [apply asym; exact E | exact Hz].
    + split; [|apply IH; exact Ht].
      apply (Permutation_Forall (Permutation_sym (insert_sorted_perm lt x t))).
      constructor; assumption.
Qed.

Lemma stable_sort_ordered l : ordered lt (stable_sort lt l).
Proof.
  unfold stable_sort.
  assert (H : forall acc, ordered lt acc ->
            ordered lt (fold_left (fun acc x => insert_sorted lt x acc) l acc)).
  { induction l as [|x t IH]; intros acc Hacc; simpl; [exact Hacc|].
    apply IH, insert_sorted_ordered, Hacc. }
  apply H. exact I.
Qed.

Lemma ordered_nth l : ordered lt l ->
  forall i j a b, i < j -> nth_error l i = Some a -> nth_error l j = Some b ->
    lt b a = false.
Proof.
  induction l as [|x t IH]; intros Ho i j a b Hij Ha Hb.
  - destruct i; discriminate.
  - destruct Ho as [Hx Ht]. destruct j as [|j]; [lia|]. simpl in Hb.
    destruct i as [|i]; simpl in Ha.
    + injection Ha as <-. rewrite List.Forall_forall in Hx. apply Hx.
      eapply nth_error_In; exact Hb.
    + apply (IH Ht i j); [lia | assumption | assumption].
Qed.

End SortFacts.

Lemma sort_by_ascending {A} (key : A -> str) (l : list A) : ascending key (sort_by key l).
Proof.
  intros i j a b Hij Ha Hb. unfold str_leb.
  assert (Ho : ordered (fun x y => str_ltb (key x) (key y)) (sort_by key l)).
  { apply stable_sort_ordered.
    - intros x y. apply str_ltb_asym.
    - intros x y z. apply str_leb_trans. }
  rewrite (ordered_nth _ _ Ho i j a b Hij Ha Hb). reflexivity.
Qed.

(** X6.  The selected files come out sorted by the lower-cased base name
    of their path: of two entries of the result, the earlier one never has
    the greater key. *)
Theorem pick_latest_files_sorted (folder : str) (files : list str) :
  ascending (fun x => lower (basename (file x)))
            (pick_latest_files_by_duplicate_d_date folder files).
Proof.
  unfold pick_latest_files_by_duplicate_d_date. cbv zeta.
  intros i j a b Hij Ha Hb.
  exact (sort_by_ascending (fun x => lower (basename (file x))) _ i j a b Hij Ha Hb).
Qed.

(** ** The lookup name has no D-date left *)

Lemma D_at_inside (whole a s b pre ds : str) :
  whole = a ++ s ++ b -> D_at s pre ds -> D_at whole (a ++ pre) ds.
Proof.
  intros -> (c & post & -> & Hc & Hl & Hd). exists c, (post ++ b).
  split; [|auto]. rewrite <- !app_assoc. simpl. rewrite <- !app_assoc. reflexivity.
Qed.

Lemma drop_last_sep_prefix (pre : str) : exists b, pre = drop_last_sep pre ++ b.
Proof.
  unfold drop_last_sep. destruct (rev pre) as [|c r] eqn:E.
  - exists []. symmetry. apply app_nil_r.
  - destruct (Re.is_dash_us c).
    + exists [c]. apply (f_equal (@rev ascii)) in E. rewrite rev_involutive in E.
      exact E.
    + exists []. symmetry. apply app_nil_r.
Qed.

Lemma strip_inside (s : str) : exists a b, s = a ++ strip s ++ b.
Proof. destruct (strip_trimmed s) as (a & b & H & _). eauto. Qed.

Lemma strip_d_suffix_no_D (n : str) :
  ~ In "010"%char n -> forall pre ds, ~ D_at (strip_d_suffix_for_tlf_sheet n) pre ds.
Proof.
  intros Hnl p ds Hocc. unfold strip_d_suffix_for_tlf_sheet in Hocc.
  destruct (Re.search Re.d_pattern n) as [[p0 [ds0 r0]]|] eqn:E.
  - apply search_d_first in E as [pre Hfirst].
    rewrite (strip_suffix_first n pre ds0 Hnl Hfirst) in Hocc.
    destruct Hfirst as [(c & post & Hn & _) Hmin].
    destruct (strip_inside (drop_last_sep pre)) as (a & b & Hs).
    destruct (drop_last_sep_prefix pre) as [b' Hp].
    pose proof (D_at_inside _ _ _ _ _ _ Hs Hocc) as H1.
    assert (H2 : D_at n (a ++ p) ds).
    { apply (D_at_inside n [] (drop_last_sep pre) (b' ++ c :: ds0 ++ post)) in H1.
      - exact H1.
      - simpl. rewrite Hn, Hp at 1. rewrite <- app_assoc. reflexivity. }
    apply Hmin in H2.
    destruct Hocc as (c' & post' & Hocc & _ & Hl & _).
    apply (f_equal (@length ascii)) in Hs, Hp. rewrite Hocc in Hs.
    rewrite !length_app in *. simpl in *. rewrite !length_app in *. lia.
  - pose proof (search_d_none n E) as Hno.
    rewrite (strip_suffix_no_D n Hno) in Hocc.
    destruct (strip_inside n) as (a & b & Hs).
    exact (Hno _ _ (D_at_inside _ _ _ _ _ _ Hs Hocc)).
Qed.

(** X7.  For a name without line feed, the lookup name left by
    [strip_d_suffix_for_tlf_sheet] has no place any more where [D] or [d]
    stands before six digits, it has no white space at either end, and
    stripping it again changes nothing. *)
Theorem strip_d_suffix_idempotent (name_no_ext : str) :
  ~ In "010"%char name_no_ext ->
  let r := strip_d_suffix_for_tlf_sheet name_no_ext in
  (forall pre ds, ~ D_at r pre ds) /\
  strip r = r /\
  strip_d_suffix_for_tlf_sheet r = r.
Proof.
  intros Hnl r.
  assert (Hno : forall pre ds, ~ D_at r pre ds) by (apply strip_d_suffix_no_D; exact Hnl).
  assert (Hs : strip r = r) by apply strip_idem.
  split; [exact Hno|]. split; [exact Hs|].
  unfold strip_d_suffix_for_tlf_sheet at 1.
  rewrite (strip_suffix_no_D r Hno). exact Hs.
Qed.

Lemma strip_d_suffix_idempotent_witness :
  ~ In "010"%char (L "TLF Daily_D250101 v2") /\
  strip_d_suffix_for_tlf_sheet (L "TLF Daily_D250101 v2") = L "TLF Daily" /\
  strip_d_suffix_for_tlf_sheet (strip_d_suffix_for_tlf_sheet (L "TLF Daily_D250101 v2"))
  = strip_d_suffix_for_tlf_sheet (L "TLF Daily_D250101 v2").
Proof.
  assert (H : ~ In "010"%char (L "TLF Daily_D250101 v2")).
  { vm_compute. intros Hin. repeat (destruct Hin as [Hin | Hin]; [discriminate Hin|]).
    exact Hin. }
  split; [exact H|]. split; [vm_compute; reflexivity|].
  exact (proj2 (proj2 (strip_d_suffix_idempotent (L "TLF Daily_D250101 v2") H))).
Defined.

Lemma NoDup_filter_bool (f : str -> bool) (l : list str) :
  NoDup l -> NoDup (List.filter f l).
Proof.
  induction l as [|x t IH]; simpl; [auto|]. intros Hnd.
  apply NoDup_cons in Hnd as [Hx Hnd]. destruct (f x); [|auto].
  apply NoDup_cons. split; [|auto]. intros H. apply Hx.
  apply list_elem_of_In in H. apply List.filter_In in H as [H _].
  apply list_elem_of_In. exact H.
Qed.

(** ** The pages of the query runner and their ids *)

Module QueryTabsFacts.

Import QueryRunner QueryTabs.

Section TabsFacts.
Context {R : Type}.

Lemma update_page_ids page_id f (pages : list (page R)) :
  (forall p, id (f p) = id p) ->
  map id (update_page page_id f pages) = map id pages.
Proof.
  intros Hf. induction pages as [|p t IH]; simpl; [reflexivity|].
  destruct (str_eqb (id p) page_id); simpl; [rewrite Hf | rewrite IH]; reflexivity.
Qed.

Lemma find_page_None page_id (pages : list (page R)) :
  find_page page_id pages = None <-> ~ In page_id (map id pages).
Proof.
  induction pages as [|p t IH]; simpl; [tauto|].
  destruct (str_eqb (id p) page_id) eqn:E.
  - apply str_eqb_eq in E. split; [discriminate | intros H; exfalso; apply H; auto].
  - apply str_eqb_neq in E. destruct (find_page page_id t); simpl.
    + split; [discriminate|]. intros H. exfalso. destruct IH as [_ IH].
      assert (Hn : ~ In page_id (map id t)) by tauto.
      specialize (IH Hn). discriminate.
    + split; [|reflexivity]. intros _. destruct IH as [IH _]. specialize (IH eq_refl). tauto.
Qed.

Lemma find_current page_id (pages : list (page R)) :
  In page_id (map id pages) ->
  exists p, List.find (fun p => str_eqb (id p) page_id) pages = Some p /\
            id p = page_id /\ In p pages.
Proof.
  induction pages as [|p t IH]; simpl; [tauto|].
  destruct (str_eqb (id p) page_id) eqn:E.
  - apply str_eqb_eq in E. intros _. exists p. auto.
  - apply str_eqb_neq in E. intros [H | H]; [contradiction|].
    destruct (IH H) as (q & Hq & Hid & Hin). exists q. auto.
Qed.

Lemma ids_delete idx (pages : list (page R)) :
  map id (delete idx pages) = delete idx (map id pages).
Proof.
  revert idx. induction pages as [|p t IH]; intros [|idx]; simpl; try reflexivity.
  rewrite IH. reflexivity.
Qed.

(** Taking out the first occurrence of [x] leaves every other element. *)
Lemma In_delete_other (x y : str) (l : list str) idx :
  l !! idx = Some x -> y <> x -> In y l -> In y (delete idx l).
Proof.
  revert idx. induction l as [|z t IH]; intros [|idx]; simpl; try discriminate.
  - intros [= ->] Hne [H | H]; [congruence | exact H].
  - intros Hx Hne [H | H]; [left; exact H | right; eapply IH; eauto].
Qed.

Lemma delete_first_filter (x : str) (l : list str) idx :
  NoDup l -> l !! idx = Some x ->
  delete idx l = List.filter (fun i => negb (str_eqb i x)) l.
Proof.
  revert idx. induction l as [|z t IH]; intros [|idx] Hnd; simpl; try discriminate.
  - intros [= ->]. rewrite str_eqb_refl. simpl.
    apply NoDup_cons in Hnd as [Hx _].
    clear IH. induction t as [|y t IH]; simpl; [reflexivity|].
    destruct (str_eqb y x) eqn:E.
    + apply str_eqb_eq in E. subst y. exfalso. apply Hx. left.
    + simpl. rewrite <- IH; [reflexivity|]. intros H. apply Hx. right. exact H.
  - intros Hx. apply NoDup_cons in Hnd as [Hz Hnd].
    destruct (str_eqb z x) eqn:E.
    + apply str_eqb_eq in E. subst z. exfalso. apply Hz.
      apply list_elem_of_lookup. eauto.
    + simpl. rewrite (IH idx Hnd Hx). reflexivity.
Qed.

Lemma remove_page_known page_id (st : session_state R) :
  In page_id (page_ids st) -> exists st', remove_page page_id st = Ok st'.
Proof.
  intros Hin. unfold remove_page.
  destruct (length (query_pages st) <=? 1) eqn:El; [eauto|].
  apply Nat.leb_gt in El.
  destruct (find_page page_id (query_pages st)) as [idx|] eqn:Ef.
  2:{ apply find_page_None in Ef. contradiction. }
  destruct (QueryRunnerFacts.find_page_Some _ _ _ Ef) as (p & Hp & _).
  apply lookup_lt_Some in Hp.
  destruct (str_eqb (active_page_id st) page_id); [|eauto].
  rewrite Nat.max_0_l.
  destruct (delete idx (query_pages st) !! (idx - 1)) as [q|] eqn:Eq; [eauto|].
  apply lookup_ge_None in Eq. rewrite length_delete in Eq by (apply lookup_lt_is_Some; lia).
  lia.
Qed.

Lemma title_lookup (pages : list (page R)) p :
  NoDup (map id pages) -> In p pages -> _get_page_title_by_id (id p) pages = title p.
Proof.
  induction pages as [|q t IH]; simpl; [tauto|].
  intros Hnd Hin. apply NoDup_cons in Hnd as [Hq Hnd].
  destruct (str_eqb (id q) (id p)) eqn:E.
  - apply str_eqb_eq in E. destruct Hin as [-> | Hin]; [reflexivity|].
    exfalso. apply Hq. rewrite E. apply list_elem_of_In. apply in_map. exact Hin.
  - apply str_eqb_neq in E. destruct Hin as [-> | Hin]; [congruence|]. apply IH; assumption.
Qed.

Lemma title_unknown pid (pages : list (page R)) :
  ~ In pid (map id pages) -> _get_page_title_by_id pid pages = L "Unknown".
Proof.
  induction pages as [|q t IH]; simpl; [reflexivity|]. intros H.
  destruct (str_eqb (id q) pid) eqn:E.
  - apply str_eqb_eq in E. exfalso. apply H. left. exact E.
  - apply IH. tauto.
Qed.

Lemma title_after_update pid f (pages : list (page R)) :
  (forall p, id (f p) = id p) -> In pid (map id pages) ->
  exists p, List.find (fun p => str_eqb (id p) pid) pages = Some p /\
            _get_page_title_by_id pid (update_page pid f pages) = title (f p).
Proof.
  intros Hf. induction pages as [|q t IH]; simpl; [tauto|].
  destruct (str_eqb (id q) pid) eqn:E.
  - intros _. exists q. split; [reflexivity|]. simpl. rewrite Hf, E. reflexivity.
  - intros [H | H]; [apply str_eqb_neq in E; contradiction|].
    destruct (IH H) as (p & Hp & Ht). exists p. split; [exact Hp|].
    simpl. rewrite E. exact Ht.
Qed.

Lemma title_other_update pid other f (pages : list (page R)) :
  (forall p, id (f p) = id p) -> other <> pid ->
  _get_page_title_by_id other (update_page pid f pages) = _get_page_title_by_id other pages.
Proof.
  intros Hf Hne. induction pages as [|q t IH]; simpl; [reflexivity|].
  destruct (str_eqb (id q) pid) eqn:E; simpl.
  - rewrite Hf. apply str_eqb_eq in E.
    destruct (str_eqb (id q) other) eqn:E'; [|reflexivity].
    apply str_eqb_eq in E'. congruence.
  - rewrite IH. reflexivity.
Qed.

End TabsFacts.

(** X8.  The active page id always names a page: when it does before an
    operation on the tabs (for a selection, when the selected id does), it
    does after it, so that the lookup of the current page finds a page
    with that id and never runs off the end of the list. *)
Theorem active_page_kept {R : Type} (duckdb_query : str -> result R)
    (op : tab_op) (st : session_state R) :
  In (active_page_id st) (page_ids st) ->
  (op = SelectPage -> In (page_selector_id st) (page_ids st)) ->
  let st' := apply_op duckdb_query op st in
  In (active_page_id st') (page_ids st') /\
  exists p, current_page st' = Ok p /\ id p = active_page_id st' /\
            In p (query_pages st').
Proof.
  intros Hact Hsel st'.
  assert (H : In (active_page_id st') (page_ids st')).
  { subst st'. unfold page_ids in *.
    destruct op as [new_id | page_id | | new_title |]; cbn [apply_op].
    - unfold add_new_page. destruct (10 <=? length (query_pages st)); cbn [fst]; [exact Hact|].
      cbn [query_pages active_page_id]. rewrite map_app. apply in_or_app. right. left.
      reflexivity.
    - destruct (remove_page page_id st) as [st1|e] eqn:Er; [|exact Hact].
      destruct (le_lt_dec (length (query_pages st)) 1) as [Hle|Hlt].
      + unfold remove_page in Er. apply Nat.leb_le in Hle. rewrite Hle in Er.
        injection Er as <-. exact Hact.
      + destruct (QueryRunnerFacts.remove_page_Ok _ _ _ Hlt Er)
          as (idx & p & _ & Hp & Hid & Hpages & _ & Hsame & Hother).
        destruct (List.list_eq_dec ascii_dec (active_page_id st) page_id) as [Heq|Hne].
        * destruct (Hsame Heq) as (q & Hq & -> & _).
          apply in_map. apply list_elem_of_In. eapply list_elem_of_lookup_2. exact Hq.
        * rewrite (Hother Hne), Hpages, ids_delete.
          apply (In_delete_other page_id); [|exact Hne | exact Hact].
          rewrite list_lookup_fmap, Hp. simpl. rewrite Hid. reflexivity.
    - cbn [on_page_change query_pages active_page_id]. apply Hsel. reflexivity.
    - cbn [update_active query_pages active_page_id].
      rewrite update_page_ids; [exact Hact | reflexivity].
    - cbn [update_active query_pages active_page_id].
      rewrite update_page_ids; [exact Hact|].
      intros p. unfold run_sql.
      destruct (rstrip_char ";" (strip (query p))); [reflexivity|].
      destruct (duckdb_query _); reflexivity. }
  split; [exact H|]. unfold current_page.
  destruct (find_current _ _ H) as (p & Hp & Hid & Hin). rewrite Hp. eauto.
Qed.

Lemma active_page_kept_witness :
  let st := fst (add_new_page (L "p2") (initial_state (R := unit) (L "p1"))) in
  let st' := apply_op (fun _ => Ok tt) (RemovePage (L "p2")) st in
  In (active_page_id st) (page_ids st) /\
  active_page_id st' = L "p1" /\
  In (active_page_id st') (page_ids st').
Proof.
  intros st st'.
  assert (H : In (active_page_id st) (page_ids st)) by (vm_compute; auto).
  split; [exact H|]. split; [vm_compute; reflexivity|].
  exact (proj1 (active_page_kept (fun _ => Ok tt) (RemovePage (L "p2")) st H
                  (fun E => match E with end))).
Defined.

(** X9.  Removing a page can only fail on an id that no page has: the
    lookup of the page then raises [StopIteration], and this needs more
    than one page.  With an id that a page has, the removal returns; the
    index of the new active page is never out of range. *)
Theorem remove_page_raises {R : Type} (page_id : str) (st : session_state R) :
  (forall e, remove_page page_id st = Raise e ->
     e = StopIteration /\ ~ In page_id (page_ids st) /\ 1 < length (query_pages st)) /\
  (In page_id (page_ids st) -> exists st', remove_page page_id st = Ok st') /\
  (~ In page_id (page_ids st) -> 1 < length (query_pages st) ->
   remove_page page_id st = Raise StopIteration).
Proof.
  split; [|split].
  - intros e He.
    destruct (in_dec (List.list_eq_dec ascii_dec) page_id (page_ids st)) as [Hin|Hnin].
    + destruct (remove_page_known page_id st Hin) as [st' Hst']. congruence.
    + unfold remove_page in He.
      destruct (length (query_pages st) <=? 1) eqn:El; [discriminate|].
      apply Nat.leb_gt in El.
      apply find_page_None in Hnin as Hf. rewrite Hf in He. injection He as <-. auto.
  - apply remove_page_known.
  - intros Hnin Hlen. unfold remove_page.
    apply Nat.leb_gt in Hlen. rewrite Hlen.
    apply find_page_None in Hnin. rewrite Hnin. reflexivity.
Qed.

(** X10.  The page ids stay pairwise distinct: when they are before an
    operation on the tabs, and a page that is added comes with an id no
    page has, they are after it.  Removing a page by its id then leaves
    exactly the other pages, in their order, and no page with that id. *)
Theorem page_ids_stay_distinct {R : Type} (duckdb_query : str -> result R)
    (op : tab_op) (st : session_state R) :
  NoDup (page_ids st) ->
  (forall new_id, op = AddPage new_id -> ~ In new_id (page_ids st)) ->
  let st' := apply_op duckdb_query op st in
  NoDup (page_ids st') /\
  (forall page_id, op = RemovePage page_id -> In page_id (page_ids st) ->
     1 < length (query_pages st) ->
     page_ids st' = List.filter (fun i => negb (str_eqb i page_id)) (page_ids st) /\
     ~ In page_id (page_ids st')).
Proof.
  intros Hnd Hfresh st'. subst st'. unfold page_ids in *.
  assert (Hrem : forall page_id st1,
            1 < length (query_pages st) -> remove_page page_id st = Ok st1 ->
            map id (query_pages st1)
            = List.filter (fun i => negb (str_eqb i page_id)) (map id (query_pages st))).
  { intros page_id st1 Hlt Er.
    destruct (QueryRunnerFacts.remove_page_Ok _ _ _ Hlt Er)
      as (idx & p & _ & Hp & Hid & Hpages & _).
    rewrite Hpages, ids_delete. apply delete_first_filter; [exact Hnd|].
    rewrite list_lookup_fmap, Hp. simpl. rewrite Hid. reflexivity. }
  assert (Hfilter : forall page_id,
            NoDup (List.filter (fun i => negb (str_eqb i page_id)) (map id (query_pages st)))).
  { intros page_id. apply NoDup_filter_bool. exact Hnd. }
  split.
  - destruct op as [new_id | page_id | | new_title |]; cbn [apply_op].
    + unfold add_new_page. destruct (10 <=? length (query_pages st)); cbn [fst]; [exact Hnd|].
      cbn [query_pages]. rewrite map_app. apply NoDup_app. split; [exact Hnd|].
      split; [|apply NoDup_singleton].
      intros x Hx Hx'. apply list_elem_of_In in Hx, Hx'. destruct Hx' as [<- | []].
      exact (Hfresh _ eq_refl Hx).
    + destruct (remove_page page_id st) as [st1|e] eqn:Er; [|exact Hnd].
      destruct (le_lt_dec (length (query_pages st)) 1) as [Hle|Hlt].
      * unfold remove_page in Er. apply Nat.leb_le in Hle. rewrite Hle in Er.
        injection Er as <-. exact Hnd.
      * rewrite (Hrem _ _ Hlt Er). apply Hfilter.
    + exact Hnd.
    + cbn [update_active query_pages]. rewrite update_page_ids; [exact Hnd | reflexivity].
    + cbn [update_active query_pages]. rewrite update_page_ids; [exact Hnd|].
      intros p. unfold run_sql.
      destruct (rstrip_char ";" (strip (query p))); [reflexivity|].
      destruct (duckdb_query _); reflexivity.
  - intros page_id -> Hin Hlt. cbn [apply_op].
    destruct (remove_page_known page_id st Hin) as [st1 Er]. rewrite Er.
    rewrite (Hrem _ _ Hlt Er). split; [reflexivity|].
    intros H. apply List.filter_In in H as [_ H]. rewrite str_eqb_refl in H. discriminate.
Qed.

Lemma page_ids_stay_distinct_witness :
  let st := initial_state (R := unit) (L "p1") in
  let st' := apply_op (fun _ => Ok tt) (AddPage (L "p2")) st in
  NoDup (page_ids st) /\
  page_ids st' = [L "p1"; L "p2"] /\
  NoDup (page_ids st').
Proof.
  intros st st'.
  assert (H1 : NoDup (page_ids st)) by apply NoDup_singleton.
  assert (H2 : forall new_id, AddPage (L "p2") = AddPage new_id -> ~ In new_id (page_ids st)).
  { intros new_id [= <-]. vm_compute. intros [H | []]. discriminate H. }
  split; [exact H1|]. split; [vm_compute; reflexivity|].
  exact (proj1 (page_ids_stay_distinct (fun _ => Ok tt) (AddPage (L "p2")) st H1 H2)).
Defined.

(** X11.  The radio shows every page under its own title when the page
    ids are pairwise distinct; an id that no page has is shown as
    [Unknown].  Renaming the active page makes its id show the new title
    and leaves what every other id shows. *)
Theorem page_titles_shown {R : Type} (duckdb_query : str -> result R)
    (st : session_state R) :
  (NoDup (page_ids st) -> radio_labels st = map title (query_pages st)) /\
  (forall pid, ~ In pid (page_ids st) ->
     _get_page_title_by_id pid (query_pages st) = L "Unknown") /\
  (forall new_title,
     let st' := apply_op duckdb_query (RenamePage new_title) st in
     (In (active_page_id st) (page_ids st) ->
      _get_page_title_by_id (active_page_id st) (query_pages st') = new_title) /\
     (forall other, other <> active_page_id st ->
        _get_page_title_by_id other (query_pages st')
        = _get_page_title_by_id other (query_pages st))).
Proof.
  split; [|split].
  - intros Hnd. unfold radio_labels, page_ids in *. rewrite map_map.
    apply map_ext_in. intros p Hp. apply title_lookup; assumption.
  - intros pid. apply title_unknown.
  - intros new_title st'. subst st'. cbn [apply_op update_active query_pages]. split.
    + intros Hin.
      destruct (title_after_update (active_page_id st) (rename new_title) (query_pages st))
        as (p & _ & Ht); [reflexivity | exact Hin |].
      rewrite Ht. reflexivity.
    + intros other Hne. apply title_other_update; [reflexivity | exact Hne].
Qed.

(** *** The text handed to the query engine *)

Lemma nth_error_inside (w a p b : str) i :
  w = a ++ p ++ b -> i < length p -> nth_error w (length a + i) = nth_error p i.
Proof.
  intros -> Hi. rewrite nth_error_app2 by lia.
  replace (length a + i - length a) with i by lia.
  apply nth_error_app1. exact Hi.
Qed.

Lemma database_has_no_f i : nth_error (L "database") i <> Some "f"%char.
Proof.
  do 8 (destruct i as [|i]; [intros H; vm_compute in H; discriminate H|]).
  intros H. cbn in H. destruct i; discriminate H.
Qed.

Lemma replaced_database (s r : str) :
  replaced (L "database") (L "df") s r -> ~ occurs (L "database") r.
Proof.
  induction 1 as [s Hno | pre post r Hmin Hrep IH]; [exact Hno|].
  intros (a & b & E).
  assert (Hd : nth_error (pre ++ L "df" ++ r) (length pre + 0) = Some "d"%char)
    by (rewrite (nth_error_inside _ pre (L "df") r 0 eq_refl); [reflexivity | simpl; lia]).
  assert (Hf : nth_error (pre ++ L "df" ++ r) (length pre + 1) = Some "f"%char)
    by (rewrite (nth_error_inside _ pre (L "df") r 1 eq_refl); [reflexivity | simpl; lia]).
  assert (Hocc : forall i, i < 8 ->
            nth_error (pre ++ L "df" ++ r) (length a + i) = nth_error (L "database") i)
    by (intros i Hi; apply (nth_error_inside _ a (L "database") b i E); exact Hi).
  destruct (le_lt_dec (length a + 8) (length pre)) as [Hin_pre|Hlt].
  - (* the occurrence lies in [pre] *)
    rewrite (app_assoc a) in E. symmetry in E.
    apply app_eq_app in E as [l [[E1 E2] | [E1 E2]]].
    + pose proof (f_equal (@length ascii) E1) as Hl. rewrite !length_app in Hl.
      change (length (L "database")) with 8 in Hl.
      assert (l = []) by (destruct l; [reflexivity | simpl in Hl; lia]). subst l.
      rewrite app_nil_r in E1.
      specialize (Hmin a (L "database" ++ post)).
      rewrite <- E1, <- !app_assoc in Hmin. specialize (Hmin eq_refl).
      rewrite !length_app in Hmin. change (length (L "database")) with 8 in Hmin. lia.
    + specialize (Hmin a (l ++ L "database" ++ post)).
      rewrite E1, <- !app_assoc in Hmin. specialize (Hmin eq_refl).
      rewrite !length_app in Hmin. change (length (L "database")) with 8 in Hmin. lia.
  - destruct (le_lt_dec (length pre + 2) (length a)) as [Hin_r|Hlt'].
    + (* the occurrence lies in [r] *)
      apply IH. rewrite (app_assoc pre) in E.
      apply app_eq_app in E as [l [[E1 E2] | [E1 E2]]].
      * apply (f_equal (@length ascii)) in E1. rewrite !length_app in E1.
        change (length (L "df")) with 2 in E1.
        assert (l = []) by (destruct l; [reflexivity | simpl in E1; lia]). subst l.
        simpl in E2. exists [], b. simpl. symmetry. exact E2.
      * exists l, b. exact E2.
    + (* the occurrence would cover the [d] or the [f] put in *)
      destruct (Nat.eq_dec (length a + 7) (length pre)) as [Hend|Hne].
      * specialize (Hocc 7 ltac:(lia)). rewrite Hend in Hocc.
        rewrite Nat.add_0_r in Hd. rewrite Hd in Hocc. discriminate.
      * specialize (Hocc (length pre + 1 - length a) ltac:(lia)).
        replace (length a + (length pre + 1 - length a)) with (length pre + 1) in Hocc by lia.
        rewrite Hf in Hocc. symmetry in Hocc. exact (database_has_no_f _ Hocc).
Qed.

Lemma replaced_nonempty (old new s r : str) :
  new <> [] -> replaced old new s r -> s <> [] -> r <> [].
Proof.
  intros Hnew [s0 _ | pre post r0 _ _] Hs; [exact Hs|].
  destruct pre; simpl; [|discriminate]. destruct new; [congruence | discriminate].
Qed.

(** X12.  Whatever the page holds, a press on Run hands the query engine
    at most one text, and that text is not empty and has no [database] in
    it any more. *)
Theorem executed_text_has_no_database {R : Type} (duckdb_query : str -> result R)
    (pg : page R) (run_id : nat) :
  let out := run_sql duckdb_query pg run_id in
  length (executed out) <= 1 /\
  Forall (fun text => text <> [] /\ ~ occurs (L "database") text) (executed out).
Proof.
  intros out. subst out. unfold run_sql.
  destruct (rstrip_char ";" (strip (query pg))) as [|c q]; [split; [simpl; lia | constructor]|].
  set (full := if negb (contains (L "limit") (lower (c :: q)))
               then (c :: q) ++ L " LIMIT 300" else c :: q).
  assert (Hfull : full <> []) by (subst full; destruct (negb _); discriminate).
  assert (Hrep : replaced (L "database") (L "df") full (replace (L "database") (L "df") full))
    by (apply replace_replaced; intros H; vm_compute in H; discriminate H).
  assert (Hok : replace (L "database") (L "df") full <> [] /\
                ~ occurs (L "database") (replace (L "database") (L "df") full)).
  { split; [|exact (replaced_database _ _ Hrep)].
    apply (replaced_nonempty (L "database") (L "df") full); [|exact Hrep | exact Hfull].
    intros H. vm_compute in H. discriminate H. }
  destruct (duckdb_query _); cbn [executed]; (split; [simpl; lia|]);
    constructor; auto.
Qed.

End QueryTabsFacts.

(** ** The statistics of the merger *)

Lemma len_concat (frames : list sheet_frame) :
  len (concat_ignore_index frames) = list_sum (map len frames).
Proof.
  unfold concat_ignore_index, len. cbn [rows].
  rewrite length_zip_with_l_eq by (rewrite length_map, length_seq; reflexivity).
  rewrite length_map, length_seq.
  generalize (union_columns frames). intros cols.
  induction frames as [|df t IH]; simpl; [reflexivity|].
  rewrite length_app, length_map, IH. reflexivity.
Qed.

Lemma list_sum_kept all_sheets :
  list_sum (map len (kept all_sheets))
  = list_sum (map (fun kv => len (clean (snd kv))) all_sheets).
Proof.
  unfold kept, cleaned. induction all_sheets as [|kv t IH]; simpl; [reflexivity|].
  destruct (0 <? len (clean (snd kv))) eqn:E; simpl; rewrite IH; [reflexivity|].
  apply Nat.ltb_ge in E. lia.
Qed.

Lemma row_counts_snoc all_sheets kv m :
  row_counts (all_sheets ++ [kv]) m
  = <[fst kv := len (clean (snd kv))]> (row_counts all_sheets m).
Proof. unfold row_counts. rewrite fold_left_app. reflexivity. Qed.

Lemma total_rows_counts all_sheets :
  NoDup (map fst all_sheets) ->
  total_rows (row_counts all_sheets ∅)
  = list_sum (map (fun kv => len (clean (snd kv))) all_sheets).
Proof.
  induction all_sheets as [|kv t IH] using rev_ind; intros Hnd.
  - reflexivity.
  - rewrite map_app in Hnd. apply NoDup_app in Hnd as (Ht & Hkv & _).
    rewrite row_counts_snoc. unfold total_rows in *.
    rewrite map_fold_insert_L.
    + rewrite IH by exact Ht. rewrite map_app, list_sum_app. simpl. lia.
    + intros. lia.
    + rewrite row_counts_other; [apply lookup_empty|].
      intros Hin. apply (Hkv (fst kv)); [apply list_elem_of_In; exact Hin|].
      simpl. left.
Qed.

(** X13.  When the merger returns, the number of merged rows it reports
    is at least one and is the sum of the row counts of the cleaned
    sheets; for a workbook with distinct sheet names it is the sum of the
    per-sheet row counts reported beside it. *)
Theorem merge_stats_consistent {bytes size : Type} (to_parquet : sheet_frame -> bytes)
    (size_mb : bytes -> size) (all_sheets : list (str * sheet_frame))
    (b : bytes) (st : stats) :
  merge_excel_to_parquet_bytes to_parquet size_mb all_sheets = Ok (b, st) ->
  1 <= merged_rows st /\
  merged_rows st = list_sum (map (fun kv => len (clean (snd kv))) all_sheets) /\
  (NoDup (map fst all_sheets) -> merged_rows st = total_rows (per_sheet_rows st)).
Proof.
  rewrite merge_unfold. destruct (kept all_sheets) as [|df0 rest] eqn:Ek; [discriminate|].
  intros [= <- <-]. cbn [merged_rows per_sheet_rows].
  assert (Hsum : len (concat_ignore_index (df0 :: rest))
                 = list_sum (map (fun kv => len (clean (snd kv))) all_sheets))
    by (rewrite len_concat, <- Ek; apply list_sum_kept).
  split; [|split].
  - rewrite len_concat. simpl.
    assert (Hin : In df0 (kept all_sheets)) by (rewrite Ek; left; reflexivity).
    unfold kept in Hin. apply List.filter_In in Hin as [_ Hpos].
    apply Nat.ltb_lt in Hpos. lia.
  - exact Hsum.
  - intros Hnd. rewrite Hsum. symmetry. apply total_rows_counts. exact Hnd.
Qed.

Lemma merge_stats_consistent_witness :
  let sheets := [(L "S1", mkDF [LStr (L "a")] [(0%Z, [Some (L "x")]); (1%Z, [None])]);
                 (L "S2", mkDF [LStr (L "a")] [(0%Z, [None])]);
                 (L "S3", mkDF [LStr (L "b")] [(0%Z, [Some (L "y")])])] in
  let st := {| sheet_count := 3; merged_rows := 2;
               per_sheet_rows := <[L "S3" := 1]> (<[L "S2" := 0]> (<[L "S1" := 1]> ∅));
               parquet_size_mb := 2 |} in
  merge_excel_to_parquet_bytes (fun df => len df) (fun b => b) sheets = Ok (2, st) /\
  merged_rows st = list_sum (map (fun kv => len (clean (snd kv))) sheets).
Proof.
  intros sheets st.
  assert (H : merge_excel_to_parquet_bytes (fun df => len df) (fun b => b) sheets
              = Ok (2, st)) by reflexivity.
  split; [exact H|].
  exact (proj1 (proj2 (merge_stats_consistent _ _ sheets 2 st H))).
Defined.

(** ** Cleaning a sheet twice *)

Lemma select_nil_r {X} (mask : list bool) : select mask ([] : list X) = [].
Proof. destruct mask as [|[] ?]; reflexivity. Qed.

Lemma select_idem {X Y} (keep : X -> bool) (xs : list X) : forall ys : list Y,
  select (map keep (select (map keep xs) xs)) (select (map keep xs) ys)
  = select (map keep xs) ys.
Proof.
  induction xs as [|x xs IH]; intros ys; simpl.
  - destruct ys; reflexivity.
  - destruct ys as [|y ys].
    + destruct (keep x); simpl; rewrite ?select_nil_r; reflexivity.
    + destruct (keep x) eqn:E; simpl; rewrite ?E, IH; reflexivity.
Qed.

Lemma filter_idem {X} (f : X -> bool) (l : list X) :
  List.filter f (List.filter f l) = List.filter f l.
Proof.
  induction l as [|x l IH]; simpl; [reflexivity|].
  destruct (f x) eqn:E; simpl; rewrite ?E, IH; reflexivity.
Qed.

Lemma drop_unnamed_idem (df : sheet_frame) :
  drop_unnamed (drop_unnamed df) = drop_unnamed df.
Proof.
  unfold drop_unnamed, loc_columns. cbn [columns rows]. f_equal.
  - apply select_idem.
  - rewrite map_map. apply map_ext. intros r. cbn [fst snd]. f_equal. apply select_idem.
Qed.

Lemma drop_unnamed_dropna (df : sheet_frame) :
  drop_unnamed (dropna_all (drop_unnamed df)) = dropna_all (drop_unnamed df).
Proof.
  unfold dropna_all at 1 2. unfold drop_unnamed at 1, loc_columns at 1. cbn [columns rows].
  f_equal.
  - unfold drop_unnamed, loc_columns. cbn [columns]. apply select_idem.
  - rewrite <- (map_id (List.filter _ (rows (drop_unnamed df)))) at 2.
    apply map_ext_in. intros r Hr. apply List.filter_In in Hr as [Hr _].
    unfold drop_unnamed, loc_columns in Hr |- *. cbn [columns rows] in Hr |- *.
    apply in_map_iff in Hr as (r0 & <- & _). cbn [fst snd]. f_equal. apply select_idem.
Qed.

(** X14.  Cleaning a sheet is idempotent: a sheet that went through the
    two cleaning steps of the merger (dropping the [Unnamed] columns, then
    the rows without any value) comes out of them unchanged, and so does
    a sheet after the first step alone. *)
Theorem clean_idempotent (df : sheet_frame) :
  clean (clean df) = clean df /\
  drop_unnamed (drop_unnamed df) = drop_unnamed df /\
  dropna_all (dropna_all df) = dropna_all df.
Proof.
  split; [|split].
  - unfold clean. rewrite drop_unnamed_dropna.
    unfold dropna_all. cbn [columns rows]. rewrite filter_idem. reflexivity.
  - apply drop_unnamed_idem.
  - unfold dropna_all. cbn [columns rows]. rewrite filter_idem. reflexivity.
Qed.

(** ** Loading a source table *)

Section LoadFacts.
Context (fl : FloatOps).

Lemma setitem_shape {C} (l : label) (vals : list C) (df : DataFrame C) j :
  position l (columns df) = Some j -> length vals = len df ->
  columns (setitem l vals df) = columns df /\ len (setitem l vals df) = len df.
Proof.
  intros Hj Hlen. unfold setitem. rewrite Hj. cbn [columns]. split; [reflexivity|].
  unfold len in *. cbn [rows]. apply length_zip_with_l_eq. symmetry. exact Hlen.
Qed.

Lemma update_col_shape l f (df : DataFrame (cell (float fl))) j :
  position (LStr l) (columns df) = Some j ->
  exists df', update_col fl l f df = Ok df' /\
              columns df' = columns df /\ len df' = len df.
Proof.
  intros Hj. unfold update_col, getitem. rewrite Hj. cbn [Exc.bind].
  eexists. split; [reflexivity|].
  apply (setitem_shape _ _ _ j Hj). rewrite length_map. apply iloc_col_length.
Qed.

Lemma sort_values_shape by_ (df : DataFrame (cell (float fl))) :
  columns (sort_values fl by_ df) = columns df /\ len (sort_values fl by_ df) = len df.
Proof.
  unfold sort_values, len. cbn [columns rows]. split; [reflexivity|].
  apply Permutation_length, stable_sort_perm.
Qed.

Lemma add_search_key_shape bases (df : DataFrame (cell (float fl))) :
  position (LStr (L "_SearchKey")) (columns df) = None -> length bases = len df ->
  columns (add_search_key fl bases df) = columns df ++ [LStr (L "_SearchKey")] /\
  len (add_search_key fl bases df) = len df.
Proof.
  intros Hp Hlen. unfold add_search_key, setitem. rewrite Hp. cbn [columns].
  split; [reflexivity|]. unfold len in *. cbn [rows]. apply length_zip_with_l_eq.
  rewrite length_map, search_keys_length. symmetry. exact Hlen.
Qed.

Lemma clean_gl_nine (raw : DataFrame (cell (float fl))) :
  length (columns raw) = length gl_new_headers ->
  exists df, clean_gl fl raw = Ok df /\
             columns df = map LStr gl_new_headers /\ len df = len raw.
Proof.
  intros Hn. unfold clean_gl. apply Nat.eqb_eq in Hn. rewrite Hn.
  set (g0 := mkDF (map LStr gl_new_headers) (rows raw)).
  destruct (update_col_shape (L "RC") (fun c => Str (strip (astype_str fl c))) g0 0 eq_refl)
    as (g1 & -> & Hc1 & Hl1). cbn [Exc.bind].
  destruct (update_col_shape (L "CH") (fun c => Str (strip (astype_str fl c))) g1 2
              ltac:(rewrite Hc1; reflexivity)) as (g2 & -> & Hc2 & Hl2). cbn [Exc.bind].
  rewrite Hc1 in Hc2.
  destruct (update_col_shape (L "DR") (to_numeric_fill0 fl) g2 6
              ltac:(rewrite Hc2; reflexivity)) as (g3 & -> & Hc3 & Hl3). cbn [Exc.bind].
  rewrite Hc2 in Hc3.
  destruct (update_col_shape (L "CR") (to_numeric_fill0 fl) g3 7
              ltac:(rewrite Hc3; reflexivity)) as (g4 & -> & Hc4 & Hl4). cbn [Exc.bind].
  rewrite Hc3 in Hc4.
  assert (Hseq : has_column fl (L "Seq") g4 = true)
    by (unfold has_column; rewrite Hc4; reflexivity).
  rewrite Hseq.
  destruct (update_col_shape (L "Seq") (fun c => Str (strip (extract_seq_num fl c))) g4 8
              ltac:(rewrite Hc4; reflexivity)) as (g5 & -> & Hc5 & Hl5). cbn [Exc.bind].
  rewrite Hc4 in Hc5.
  assert (Hsort : List.filter (fun c => has_column fl c g5)
                    [L "CH"; L "RC"; L "OC"; L "Product Code"]
                  = [L "CH"; L "RC"; L "OC"; L "Product Code"])
    by (unfold has_column; rewrite Hc5; reflexivity).
  cbv zeta. rewrite Hsort. eexists. split; [reflexivity|].
  destruct (sort_values_shape
              (map LStr [L "CH"; L "RC"; L "OC"; L "Product Code"]) g5) as [Hc Hl].
  split; [rewrite Hc; exact Hc5|]. rewrite Hl, Hl5, Hl4, Hl3, Hl2, Hl1. reflexivity.
Qed.

Lemma clean_gl_no_RC (raw : DataFrame (cell (float fl))) :
  length (columns raw) <> length gl_new_headers ->
  position (LStr (L "RC")) (columns raw) = None ->
  clean_gl fl raw = Raise (KeyError (L "RC")).
Proof.
  intros Hn Hp. unfold clean_gl. apply Nat.eqb_neq in Hn. rewrite Hn.
  unfold update_col at 1 2 3 4, getitem. rewrite Hp. reflexivity.
Qed.

End LoadFacts.

Lemma load_gl_nine (fl : FloatOps) (gl_raw : DataFrame (cell (float fl))) :
  length (columns gl_raw) = length gl_new_headers ->
  exists out,
    load_gl fl gl_raw = Ok out /\ len out = len gl_raw /\
    columns out
    = map LStr gl_new_headers ++
      (if len gl_raw =? 0 then [] else [LStr (L "_SearchKey")]).
Proof.
  intros Hn. destruct (clean_gl_nine fl gl_raw Hn) as (df & Hdf & Hc & Hl).
  unfold load_gl. rewrite Hdf. cbn [Exc.bind].
  assert (He : empty df = (len gl_raw =? 0)).
  { unfold empty. rewrite Hc. fold (len df). rewrite Hl. reflexivity. }
  rewrite He. destruct (len gl_raw =? 0) eqn:E; cbn [negb].
  - exists df. rewrite app_nil_r. auto.
  - unfold getitem. rewrite Hc.
    change (position (LStr (L "Seq")) (map LStr gl_new_headers)) with (Some 8).
    cbn [Exc.bind].
    eexists. split; [reflexivity|].
    destruct (add_search_key_shape fl (map (astype_str fl) (iloc_col NaN 8 df)) df)
      as [Hc' Hl'].
    + rewrite Hc. reflexivity.
    + rewrite length_map. apply iloc_col_length.
    + rewrite Hl', Hl, Hc', Hc. auto.
Qed.

(** X15.  A source table read with exactly nine columns always loads,
    whatever their labels: the loaded table has as many rows, its columns
    are the nine headers, followed by [_SearchKey] when it has rows.  A
    source table read with another number of columns, none of them
    labelled [RC], does not load: the access to [RC] raises a
    [KeyError]. *)
Theorem load_gl_outcome (fl : FloatOps) (gl_raw : DataFrame (cell (float fl))) :
  (length (columns gl_raw) = length gl_new_headers ->
   exists out,
     load_gl fl gl_raw = Ok out /\ len out = len gl_raw /\
     columns out
     = map LStr gl_new_headers ++
       (if len gl_raw =? 0 then [] else [LStr (L "_SearchKey")])) /\
  (length (columns gl_raw) <> length gl_new_headers ->
   position (LStr (L "RC")) (columns gl_raw) = None ->
   load_gl fl gl_raw = Raise (KeyError (L "RC"))).
Proof.
  split.
  - apply load_gl_nine.
  - intros Hn Hp. unfold load_gl. rewrite (clean_gl_no_RC fl gl_raw Hn Hp). reflexivity.
Qed.

(** ** The cells of the cleaned reference table *)

Section CellFacts.
Context (fl : FloatOps).

Lemma convert_trimmed (c : cell (float fl)) :
  trimmed_text c ->
  trimmed_text (convert_implied_decimal fl c) \/ is_number (convert_implied_decimal fl c).
Proof.
  intros Hc. unfold convert_implied_decimal.
  destruct (float_of_str fl _); [right; eexists; reflexivity | left; exact Hc].
Qed.

Lemma cleaned_row_cells (a b : bool) (row : list (cell (float fl))) j c :
  (if b then alter (convert_implied_decimal fl) 16 else id)
    ((if a then alter (convert_implied_decimal fl) 14 else id)
       (map (fun c => Str (strip (astype_str fl c))) row)) !! j = Some c ->
  trimmed_text c \/ ((j = 14 \/ j = 16) /\ is_number c).
Proof.
  set (l0 := map (fun c => Str (strip (astype_str fl c))) row).
  assert (H0 : forall j c, l0 !! j = Some c -> trimmed_text c).
  { intros k x Hk. subst l0. rewrite list_lookup_fmap in Hk.
    destruct (row !! k) as [c0|]; [|discriminate]. injection Hk as <-.
    eexists. split; [reflexivity | apply strip_idem]. }
  set (l1 := (if a then alter (convert_implied_decimal fl) 14 else id) l0).
  assert (H1 : forall j c, l1 !! j = Some c -> trimmed_text c \/ (j = 14 /\ is_number c)).
  { intros k x Hk. subst l1. destruct a; [|left; exact (H0 k x Hk)].
    destruct (Nat.eq_dec 14 k) as [<- | Hne].
    - rewrite list_lookup_alter_eq in Hk. destruct (l0 !! 14) as [c0|] eqn:E; [|discriminate].
      injection Hk as <-. destruct (convert_trimmed c0 (H0 _ _ E)); auto.
    - rewrite list_lookup_alter_ne in Hk by exact Hne. left. exact (H0 k x Hk). }
  intros Hj. destruct b; [|destruct (H1 j c Hj) as [? | [? ?]]; auto].
  destruct (Nat.eq_dec 16 j) as [<- | Hne].
  - rewrite list_lookup_alter_eq in Hj. destruct (l1 !! 16) as [c0|] eqn:E; [|discriminate].
    injection Hj as <-. destruct (H1 _ _ E) as [Ht | [? _]]; [|lia].
    destruct (convert_trimmed c0 Ht); auto.
  - rewrite list_lookup_alter_ne in Hj by exact Hne.
    destruct (H1 j c Hj) as [? | [? ?]]; auto.
Qed.

End CellFacts.

(** X16.  Cleaning the reference table keeps its columns, its row labels
    and the number of cells of every row, and leaves in every cell a text
    without white space at either end, or, only in the two amount columns
    (the positions of [AZ] and [CU] among the columns read), a number. *)
Theorem clean_tlf_cells (fl : FloatOps) (tlf_raw : DataFrame (cell (float fl))) :
  let df := clean_tlf fl tlf_raw in
  columns df = columns tlf_raw /\
  map fst (rows df) = map fst (rows tlf_raw) /\
  map (fun r => length (snd r)) (rows df) = map (fun r => length (snd r)) (rows tlf_raw) /\
  Forall (fun r => forall j c, snd r !! j = Some c ->
            trimmed_text c \/
            ((Z.of_nat j = pos_AZ \/ Z.of_nat j = pos_CU) /\ is_number c))
         (rows df).
Proof.
  intros df. subst df. split; [|split; [|split]].
  - unfold clean_tlf. cbv zeta.
    repeat match goal with |- context [if ?b then _ else _] => destruct b end; reflexivity.
  - destruct (clean_tlf_rows fl tlf_raw) as (a & b & ->). rewrite map_map. reflexivity.
  - destruct (clean_tlf_rows fl tlf_raw) as (a & b & ->). rewrite map_map.
    apply map_ext. intros r. cbn [snd].
    destruct a, b; unfold id; rewrite ?length_alter, length_map; reflexivity.
  - destruct (clean_tlf_rows fl tlf_raw) as (a & b & ->).
    apply List.Forall_map. apply List.Forall_forall. intros r _ j c Hj. cbn [snd] in Hj.
    destruct (cleaned_row_cells fl a b (snd r) j c Hj) as [Ht | [[-> | ->] Hn]]; auto.
Qed.

(** ** The paths of the selected files *)

Lemma rfind_from_absent (c : ascii) (p : str) : forall i last,
  ~ In c p -> rfind_from c p i last = last.
Proof.
  induction p as [|x t IH]; intros i last Hn; simpl; [reflexivity|].
  destruct (ch_eqb x c) eqn:E.
  - apply ch_eqb_eq in E. exfalso. apply Hn. left. exact E.
  - apply IH. intros H. apply Hn. right. exact H.
Qed.

Lemma rfind_from_last (c : ascii) (pre post : str) : forall i last,
  ~ In c post ->
  rfind_from c (pre ++ c :: post) i last = (i + Z.of_nat (length pre))%Z.
Proof.
  induction pre as [|x pre IH]; intros i last Hn.
  - simpl. assert (ch_eqb c c = true) as -> by (apply ch_eqb_eq; reflexivity).
    rewrite rfind_from_absent by exact Hn. lia.
  - cbn [app rfind_from]. rewrite IH by exact Hn. cbn [length]. lia.
Qed.

Lemma last_occurrence (c : ascii) (p : str) :
  In c p -> exists pre post, p = pre ++ c :: post /\ ~ In c post.
Proof.
  induction p as [|x t IH]; [intros []|]. intros Hin.
  destruct (in_dec ascii_dec c t) as [Ht|Ht].
  - destruct (IH Ht) as (pre & post & -> & Hn). exists (x :: pre), post. auto.
  - destruct Hin as [-> | Hin]; [|contradiction]. exists [], t. auto.
Qed.

Lemma basename_after_sep (pre post : str) :
  ~ In "/"%char post -> basename (pre ++ "/"%char :: post) = post.
Proof.
  intros Hn. unfold basename, rfind. rewrite rfind_from_last by exact Hn.
  replace (Z.to_nat (0 + Z.of_nat (length pre) + 1)) with (length pre + 1) by lia.
  rewrite skipn_app, skipn_all2 by lia.
  replace (length pre + 1 - length pre) with 1 by lia. reflexivity.
Qed.

Lemma basename_no_sep (p : str) : ~ In "/"%char p -> basename p = p.
Proof.
  intros Hn. unfold basename, rfind. rewrite rfind_from_absent by exact Hn. reflexivity.
Qed.

Lemma endswith_spec (p s : str) : endswith p s = true <-> exists t, s = t ++ p.
Proof.
  unfold endswith. rewrite startswith_spec. split.
  - intros [t H]. exists (rev t). apply (f_equal (@rev ascii)) in H.
    rewrite rev_involutive, rev_app_distr, rev_involutive in H. exact H.
  - intros [t ->]. exists (rev t). apply rev_app_distr.
Qed.

Lemma basename_join (a b : str) : basename (join a b) = basename b.
Proof.
  unfold join. destruct (startswith (L "/") b) eqn:Es; [reflexivity|].
  destruct (in_dec ascii_dec "/"%char b) as [Hin|Hn].
  - destruct (last_occurrence _ _ Hin) as (pre & post & -> & Hn).
    rewrite (basename_after_sep pre post Hn).
    destruct (str_eqb a [] || endswith (L "/") a).
    + rewrite app_assoc. apply basename_after_sep. exact Hn.
    + change (a ++ L "/" ++ pre ++ "/"%char :: post)
        with (a ++ (L "/" ++ pre) ++ "/"%char :: post).
      rewrite app_assoc. apply basename_after_sep. exact Hn.
  - rewrite (basename_no_sep b Hn).
    destruct (str_eqb a []) eqn:Ea; cbn [orb].
    + apply str_eqb_eq in Ea. subst a. apply basename_no_sep. exact Hn.
    + destruct (endswith (L "/") a) eqn:Ee.
      * apply endswith_spec in Ee as [t ->]. rewrite <- app_assoc.
        apply basename_after_sep. exact Hn.
      * apply basename_after_sep. exact Hn.
Qed.

Lemma parse_dates_join (folder fn : str) :
  parse_dates_from_filename (join folder fn) = parse_dates_from_filename fn.
Proof. unfold parse_dates_from_filename. rewrite basename_join. reflexivity. Qed.

Lemma picked_entry_source folder files e :
  In e (pick_latest_files_by_duplicate_d_date folder files) ->
  exists fn, In fn files /\ has_valid_ext fn = true /\ e = result_entry folder fn.
Proof.
  intros He. destruct (chosen_inv_fold folder files) as (_ & Hget & _).
  apply pick_results_In in He as (k & e0 & Hk & ->).
  destruct (Hget k e0 Hk) as [(w & Hw & ->) | (f & -> & Hin & Hv & Hdf & ->)].
  - destruct (wins_In _ _ _ Hw) as (Hin & Hv & Hdw). exists w.
    repeat split; auto. apply pop_stored_d. assumption.
  - exists f. repeat split; auto. apply pop_stored_nod. assumption.
Qed.

(** X17.  The dates depend on the base name of a path only, and joining a
    folder to a file name does not change its base name.  So every
    selected file carries the dates of its own path: reading the dates
    from the stored path gives the stored D-date and JV-date again, and
    the base name of the stored path is the base name of a listed file. *)
Theorem picked_entries_keep_their_dates (folder : str) (files : list str) :
  (forall a b, basename (join a b) = basename b) /\
  (forall fn, parse_dates_from_filename (join folder fn) = parse_dates_from_filename fn) /\
  Forall (fun e =>
            parse_dates_from_filename (file e) = (d_date e, jv_date e) /\
            exists fn, In fn files /\ basename (file e) = basename fn)
         (pick_latest_files_by_duplicate_d_date folder files).
Proof.
  split; [apply basename_join|]. split; [apply parse_dates_join|].
  apply List.Forall_forall. intros e He.
  destruct (picked_entry_source folder files e He) as (fn & Hin & _ & ->).
  unfold result_entry, d_of, jv_of. cbn [file d_date jv_date].
  rewrite parse_dates_join. split; [apply surjective_pairing|].
  exists fn. split; [exact Hin | apply basename_join].
Qed.

(** ** The run of the reconciler *)

Section RunFacts.
Context (fl : FloatOps).

Lemma del_sheet_titles name (bk : list (worksheet fl)) :
  NoDup (map title bk) ->
  map title (del_sheet fl name bk)
  = List.filter (fun t => negb (str_eqb t name)) (map title bk).
Proof.
  induction bk as [|ws t IH]; simpl; [reflexivity|]. intros Hnd.
  apply NoDup_cons in Hnd as [Hws Hnd].
  destruct (str_eqb (title ws) name) eqn:E; simpl.
  - apply str_eqb_eq in E. subst name. clear IH.
    induction t as [|x t IH]; simpl; [reflexivity|].
    destruct (str_eqb (title x) (title ws)) eqn:E.
    + apply str_eqb_eq in E. exfalso. apply Hws. rewrite <- E. simpl. left.
    + simpl. rewrite <- IH; [reflexivity | | ].
      * intros H. apply Hws. simpl. right. exact H.
      * simpl in Hnd. apply NoDup_cons in Hnd as [_ Hnd]. exact Hnd.
  - rewrite IH by exact Hnd. reflexivity.
Qed.

Lemma del_sheet_length name (bk : list (worksheet fl)) :
  In name (map title bk) -> S (length (del_sheet fl name bk)) = length bk.
Proof.
  induction bk as [|ws t IH]; simpl; [tauto|].
  destruct (str_eqb (title ws) name) eqn:E; [reflexivity|].
  apply str_eqb_neq in E. intros [H | H]; [contradiction|]. simpl. rewrite IH by exact H.
  reflexivity.
Qed.

Lemma drop_default_sheet_spec (bk : list (worksheet fl)) :
  NoDup (map title bk) ->
  let bk' := drop_default_sheet fl bk in
  NoDup (map title bk') /\
  (In (L "Sheet") (map title bk') -> bk' = bk /\ length bk = 1) /\
  (length bk <= 1 -> bk' = bk) /\
  (~ In (L "Sheet") (map title bk) -> bk' = bk) /\
  (1 < length bk ->
   map title bk' = List.filter (fun t => negb (str_eqb t (L "Sheet"))) (map title bk)) /\
  (bk <> [] -> bk' <> []).
Proof.
  intros Hnd bk'. subst bk'. unfold drop_default_sheet. rewrite length_map.
  destruct (existsb (str_eqb (L "Sheet")) (map title bk)) eqn:Ex.
  - apply existsb_str_eqb in Ex.
    destruct (1 <? length bk) eqn:El; cbn [andb].
    + apply Nat.ltb_lt in El. pose proof (del_sheet_titles (L "Sheet") bk Hnd) as Ht.
      split; [rewrite Ht; apply NoDup_filter_bool; exact Hnd|].
      split; [|split; [|split; [|split]]].
      * rewrite Ht. intros H. apply List.filter_In in H as [_ H].
        rewrite str_eqb_refl in H. discriminate.
      * lia.
      * contradiction.
      * intros _. exact Ht.
      * intros _ H. pose proof (del_sheet_length _ _ Ex) as Hlen. rewrite H in Hlen.
        simpl in Hlen. lia.
    + apply Nat.ltb_ge in El. split; [exact Hnd|]. split; [|split; [|split; [|split]]]; auto.
      * intros _. split; [reflexivity|]. destruct bk; [destruct Ex | simpl in *; lia].
      * lia.
  - cbn [andb]. split; [exact Hnd|].
    assert (Hno : ~ In (L "Sheet") (map title bk)).
    { intros H. apply existsb_str_eqb in H. congruence. }
    split; [|split; [|split; [|split]]]; auto.
    + intros H. contradiction.
    + intros _. symmetry. apply List.forallb_filter_id. apply forallb_forall.
      intros x Hx. destruct (str_eqb x (L "Sheet")) eqn:E; [|reflexivity].
      apply str_eqb_eq in E. subst x. contradiction.
Qed.

End RunFacts.

(** X18.  A run of the reconciler returns either the saved workbook and
    no message, or no workbook and a message that is not empty, so that
    the caller's test of the message tells the two apart.  A reference
    workbook that does not open gives the message of its error and prints
    nothing; so does a list of files none of which is selected, with the
    message for that case.  A workbook is returned only if the reference
    workbook and the writer opened, a file was selected and the workbook
    left by the loop, without its default sheet, was saved. *)
Theorem process_data_outcome (fl : FloatOps) {bytes : Type} (o : Outside fl (bytes := bytes))
    (tlf_path : str) (source_files_list : list str) (temp_folder : str) :
  let res := process_data_in_memory fl o tlf_path source_files_list temp_folder in
  let files := pick_latest_files_by_duplicate_d_date temp_folder source_files_list in
  ((exists output, fst res = (Some output, None)) \/
   (exists msg, fst res = (None, Some msg) /\ msg <> [])) /\
  (forall e, open_tlf o tlf_path = Raise e ->
             res = ((None, Some (tlf_error_message e)), [])) /\
  (forall w, open_tlf o tlf_path = Ok w -> files = [] ->
             res = ((None, Some no_source_message), [])) /\
  (forall output, fst res = (Some output, None) ->
     exists w new_book,
       open_tlf o tlf_path = Ok w /\ files <> [] /\ open_writer o = Ok new_book /\
       let st := snd (process_files fl w files {| book := new_book; stdout := [] |}) in
       close_writer o (drop_default_sheet fl (book st)) = Ok output /\
       snd res = stdout st).
Proof.
  intros res files. subst res. unfold process_data_in_memory. fold files. clearbody files.
  assert (Hmsg : forall e, tlf_error_message e <> [])
    by (intros e H; unfold tlf_error_message in H; cbn in H; discriminate H).
  destruct (open_tlf o tlf_path) as [w|e0] eqn:Eo.
  2:{ split; [right; eexists; split; [reflexivity | apply Hmsg]|].
      split; [intros e [= <-]; reflexivity|]. split; [discriminate|]. intros output [=]. }
  destruct files as [|f0 rest] eqn:Ef.
  { split; [right; eexists; split; [reflexivity | intros H; vm_compute in H; discriminate H]|].
    split; [discriminate|]. split; [reflexivity|]. intros output [=]. }
  destruct (open_writer o) as [new_book|e1] eqn:Ew.
  2:{ split; [right; eexists; split; [reflexivity | apply Hmsg]|].
      split; [discriminate|]. split; [discriminate|]. intros output [=]. }
  pose proof (process_files_Ok fl w (f0 :: rest) {| book := new_book; stdout := [] |}) as HOk.
  destruct (process_files fl w (f0 :: rest) {| book := new_book; stdout := [] |})
    as [[[]|e2] st] eqn:Ep; cbn [fst snd] in HOk; [|discriminate].
  destruct (close_writer o (drop_default_sheet fl (book st))) as [output|e3] eqn:Ec.
  - split; [left; eexists; reflexivity|]. split; [discriminate|]. split; [discriminate|].
    intros output' [= <-]. exists w, new_book. cbn [snd].
    split; [reflexivity|]. split; [discriminate|]. split; [reflexivity|].
    cbv zeta. rewrite Ep. cbn [snd]. split; [exact Ec | reflexivity].
  - split; [right; eexists; split; [reflexivity | apply Hmsg]|].
    split; [discriminate|]. split; [discriminate|]. intros output [=].
Qed.

(** X19.  Of a workbook with pairwise distinct sheet titles, as the
    loop leaves it, the workbook that is saved has pairwise distinct sheet
    titles too, and a sheet left when the loop left one.  A sheet titled
    [Sheet] is only saved as the single sheet of the workbook: as soon as
    the loop leaves more than one sheet, the sheet titled [Sheet] is taken
    out, also when it was written for a source file, and the other sheets
    stay in their order. *)
Theorem saved_book_titles (fl : FloatOps) (left : list (worksheet fl)) :
  NoDup (map title left) ->
  let saved := drop_default_sheet fl left in
  NoDup (map title saved) /\
  (left <> [] -> saved <> []) /\
  (In (L "Sheet") (map title saved) -> saved = left /\ length left = 1) /\
  (1 < length left ->
   map title saved = List.filter (fun t => negb (str_eqb t (L "Sheet"))) (map title left)).
Proof.
  intros Hleft saved.
  destruct (drop_default_sheet_spec fl left Hleft) as (H1 & H2 & _ & _ & H5 & H6).
  auto.
Qed.

Lemma saved_book_titles_witness :
  let fl := {| float := Z; float_of_str := fun _ => None; div100 := fun x => x;
               fzero := 0%Z; to_numeric := fun _ => None;
               str_of_float := fun _ => L "0" |} in
  let nine := [NaN; NaN; NaN; NaN; NaN; NaN; NaN; NaN; Str (L "seq_num:7")] in
  let good := mkDF (map LInt [9; 10; 11; 12; 13; 15; 38; 39; 51]%Z) [(0%Z, nine)] in
  let w := {| sheet_names := [];
              read_tlf_sheet := fun _ => Raise (LibraryError (L "no sheet"));
              read_source_excel := fun _ => Raise (LibraryError (L "not a workbook"));
              read_source_csv := fun _ _ => Ok good;
              create_sheet_error := fun _ => None;
              new_sheet_title := fun _ name => name;
              to_excel_error := fun _ => None |} in
  let items := pick_latest_files_by_duplicate_d_date (L "/t") [L "Sheet.csv"; L "b.csv"] in
  let left := book (snd (process_files fl w items {| book := []; stdout := [] |})) in
  NoDup (map title left) /\
  map title left = [L "b"; L "Sheet"] /\
  map title (drop_default_sheet fl left) = [L "b"] /\
  NoDup (map title (drop_default_sheet fl left)).
Proof.
  intros fl nine good w items left.
  assert (Ht : map title left = [L "b"; L "Sheet"]) by (vm_compute; reflexivity).
  assert (H1 : NoDup (map title left)).
  { rewrite Ht.
    repeat (apply NoDup_cons_2;
            [intros H; repeat (apply elem_of_cons in H as [H | H]; [cbv in H; discriminate H|]);
             apply elem_of_nil in H; exact H|]).
    apply NoDup_nil_2. }
  split; [exact H1|]. split; [exact Ht|]. split; [vm_compute; reflexivity|].
  exact (proj1 (saved_book_titles fl left H1)).
Defined.

(** ** The upload handler of the reconciler *)

Lemma identify_files_walked walk :
  let kept := List.filter (fun rf => negb (left_out rf)) (walked walk) in
  identify_files walk
  = (List.last (map (fun rf => Some (join (fst rf) (snd rf))) (List.filter names_TLF kept))
               None,
     map snd (List.filter (fun rf => negb (names_TLF rf)) kept)).
Proof.
  intros kept. subst kept. unfold identify_files.
  rewrite identify_walked, classify_pairs. reflexivity.
Qed.

Lemma last_map_Some {A B} (g : A -> B) (l : list A) p :
  List.last (map (fun x => Some (g x)) l) None = Some p -> exists x, In x l /\ p = g x.
Proof.
  destruct l as [|a l] using rev_ind; [discriminate|].
  rewrite map_app. simpl. rewrite last_last. intros [= <-].
  exists a. split; [apply in_or_app; right; left; reflexivity | reflexivity].
Qed.

Lemma join_nonempty (a b : str) : b <> [] -> join a b <> [].
Proof.
  intros Hb. unfold join. destruct (startswith (L "/") b); [exact Hb|].
  destruct (str_eqb a [] || endswith (L "/") a); intros H; apply app_eq_nil in H as [_ H].
  - contradiction.
  - discriminate H.
Qed.

Lemma identify_tlf_path walk p :
  fst (identify_files walk) = Some p ->
  (exists root f, In (root, f) (walked walk) /\ left_out (root, f) = false /\
                  names_TLF (root, f) = true /\ p = join root f) /\
  truthy p = true.
Proof.
  rewrite identify_files_walked. cbn [fst]. intros H.
  apply last_map_Some in H as ([root f] & Hin & ->). cbn [fst snd].
  apply List.filter_In in Hin as [Hin Htlf]. apply List.filter_In in Hin as [Hin Hout].
  split.
  - exists root, f. repeat split; auto. destruct (left_out (root, f)); [discriminate | reflexivity].
  - apply truthy_spec. apply join_nonempty. intros ->. discriminate Htlf.
Qed.

Lemma process_data_shape (fl : FloatOps) {bytes : Type} (o : Outside fl (bytes := bytes))
    (tlf_path : str) (source_files_list : list str) (temp_folder : str) :
  let res := process_data_in_memory fl o tlf_path source_files_list temp_folder in
  (exists output, fst res = (Some output, None)) \/
  (exists msg, fst res = (None, Some msg) /\ truthy msg = true).
Proof.
  intros res. subst res. unfold process_data_in_memory.
  assert (Hmsg : forall e, truthy (tlf_error_message e) = true) by (intros e; reflexivity).
  destruct (open_tlf o tlf_path) as [w|e0]; [|right; eauto].
  destruct (pick_latest_files_by_duplicate_d_date temp_folder source_files_list);
    [right; eexists; split; reflexivity|].
  destruct (open_writer o) as [new_book|e1]; [|right; eauto].
  destruct (process_files fl w _ _) as [[[]|e2] st]; [|right; eauto].
  destruct (close_writer o _) as [output|e3]; [left | right]; eauto.
Qed.

(** X20.  The upload handler always shows something, and offers a
    download exactly when the run returned a workbook: the download
    button never comes without data, it comes together with the success
    notice and without an error message, and it needs a reference
    workbook and at least one source file found in the ZIP. *)
Theorem handle_zip_outcome (fl : FloatOps) {bytes : Type} (o : Outside fl (bytes := bytes))
    (temp_dir : str) (extracted : result (list (str * list str * list str))) :
  let shown := fst (handle_zip fl o temp_dir extracted) in
  shown <> [] /\
  ~ In (DownloadButton None) shown /\
  (forall output,
     In (DownloadButton (Some output)) shown <->
     exists walk tlf_path,
       extracted = Ok walk /\ fst (identify_files walk) = Some tlf_path /\
       snd (identify_files walk) <> [] /\
       fst (process_data_in_memory fl o tlf_path (snd (identify_files walk)) temp_dir)
       = (Some output, None)) /\
  (forall data, In (DownloadButton data) shown ->
     In SuccessComplete shown /\ forall msg, ~ In (ErrorMessage msg) shown).
Proof.
  intros shown. subst shown. unfold handle_zip.
  destruct extracted as [walk|e].
  2:{ cbn [fst]. split; [discriminate|]. split; [intros [H | []]; discriminate H|].
      split; [|intros data [H | []]; discriminate H].
      intros output. split; [intros [H | []]; discriminate H|].
      intros (walk & p & [=] & _). }
  pose proof (identify_tlf_path walk) as Hpath.
  destruct (identify_files walk) as [[p|] source_files] eqn:Ei; cbn [fst snd] in *.
  2:{ split; [discriminate|]. split; [intros [H | []]; discriminate H|].
      split; [|intros data [H | []]; discriminate H].
      intros output. split; [intros [H | []]; discriminate H|].
      intros (walk' & p & [= <-] & Hp & _). rewrite Ei in Hp. discriminate Hp. }
  destruct (Hpath p eq_refl) as [_ Ht]. rewrite Ht. cbn [negb].
  destruct source_files as [|f0 rest].
  { cbn [fst]. split; [discriminate|]. split; [intros [H | []]; discriminate H|].
    split; [|intros data [H | []]; discriminate H].
    intros output. split; [intros [H | []]; discriminate H|].
    intros (walk' & p' & [= <-] & _ & Hs & _). rewrite Ei in Hs. cbn [snd] in Hs.
    congruence. }
  pose proof (process_data_shape fl o p (f0 :: rest) temp_dir) as Hshape. cbv zeta in Hshape.
  destruct (process_data_in_memory fl o p (f0 :: rest) temp_dir)
    as [[excel_file error_msg] printed] eqn:Er.
  cbn [fst] in *. split; [discriminate|].
  destruct Hshape as [[output [= -> ->]] | (msg & [= -> ->] & Hmsg)].
  - split; [intros [H | [H | [H | [H | []]]]]; discriminate H|]. split.
    + intros output'. split.
      * intros [H | [H | [H | [H | []]]]]; try discriminate H. injection H as <-.
        exists walk, p. rewrite Ei. cbn [fst snd]. rewrite Er.
        split; [reflexivity|]. split; [reflexivity|]. split; [discriminate | reflexivity].
      * intros (walk' & p' & [= <-] & Hp & _ & Hres). rewrite Ei in Hp, Hres.
        cbn [fst snd] in Hp, Hres. injection Hp as <-. rewrite Er in Hres.
        injection Hres as <-. simpl. auto.
    + intros data _. split; [simpl; auto|].
      intros msg [H | [H | [H | [H | []]]]]; discriminate H.
  - rewrite Hmsg. split; [intros [H | [H | [H | []]]]; discriminate H|]. split.
    + intros output'. split; [intros [H | [H | [H | []]]]; discriminate H|].
      intros (walk' & p' & [= <-] & Hp & _ & Hres). rewrite Ei in Hp, Hres.
      cbn [fst snd] in Hp, Hres. injection Hp as <-. rewrite Er in Hres. discriminate Hres.
    + intros data [H | [H | [H | []]]]; discriminate H.
Qed.

(** X21.  Every source file the run reads is read at the path made of
    the temporary folder and its bare file name, whatever directory of the
    extracted ZIP it was found in: each selected entry comes from a file
    of the walk that is not left out, does not name the reference
    workbook and has a recognised extension, and its path is the join of
    the temporary folder and that file's name. *)
Theorem read_paths_forget_directory (temp_dir : str)
    (walk : list (str * list str * list str)) :
  Forall (fun e =>
            exists root f,
              In (root, f) (walked walk) /\ left_out (root, f) = false /\
              names_TLF (root, f) = false /\ has_valid_ext f = true /\
              file e = join temp_dir f /\ basename (file e) = basename f)
         (pick_latest_files_by_duplicate_d_date temp_dir (snd (identify_files walk))).
Proof.
  apply List.Forall_forall. intros e He.
  destruct (picked_entry_source _ _ _ He) as (fn & Hin & Hext & ->).
  rewrite identify_files_walked in Hin. cbn [snd] in Hin.
  apply in_map_iff in Hin as ([root f] & <- & Hin). cbn [snd] in *.
  apply List.filter_In in Hin as [Hin Htlf]. apply List.filter_In in Hin as [Hin Hout].
  exists root, f. cbn [result_entry file].
  split; [exact Hin|].
  split; [destruct (left_out (root, f)); [discriminate | reflexivity]|].
  split; [destruct (names_TLF (root, f)); [discriminate | reflexivity]|].
  split; [exact Hext|]. split; [reflexivity | apply basename_join].
Qed.

Example read_paths_ex :
  map file
    (pick_latest_files_by_duplicate_d_date (L "/t")
       (snd (identify_files
               [(L "/t", [L "in"], [L "a_D250101.csv"; L "TLF_1.xlsx"]);
                (L "/t/in", [], [L "b_D250102.trf"])])))
  = [L "/t/a_D250101.csv"; L "/t/b_D250102.trf"].
Proof. reflexivity. Qed.

(** ** The layout of a sheet *)

Lemma position_lookup (l : label) (ls : list label) j :
  position l ls = Some j -> ls !! j = Some l.
Proof.
  revert j. induction ls as [|x t IH]; intros j; simpl; [discriminate|].
  destruct (label_eqb l x) eqn:E.
  - apply label_eqb_eq in E. intros [= <-]. subst x. reflexivity.
  - destruct (position l t) as [i|]; [|discriminate]. intros [= <-]. simpl. apply IH.
    reflexivity.
Qed.

Lemma position_In (l : label) (ls : list label) :
  In l ls -> exists j, position l ls = Some j.
Proof.
  induction ls as [|x t IH]; simpl; [tauto|].
  destruct (label_eqb l x) eqn:E; [eauto|].
  intros [-> | H].
  - assert (label_eqb l l = true) by (apply label_eqb_eq; reflexivity). congruence.
  - destruct (IH H) as [j ->]. simpl. eauto.
Qed.

Lemma swap_labels_In a b ls x :
  In a ls -> In b ls -> In x (swap_labels a b ls) -> In x ls.
Proof.
  intros Ha Hb. assert (H : forall t, In x (swap_labels a b t) -> In x t \/ x = a \/ x = b).
  { induction t as [|y t IH]; simpl; [tauto|].
    intros [H | H]; [|destruct (IH H) as [?|[?|?]]; auto].
    destruct (label_eqb y a); [auto|]. destruct (label_eqb y b); auto. }
  intros Hx. destruct (H ls Hx) as [?|[->| ->]]; assumption.
Qed.

Lemma display_cols_In fl (df : DataFrame (cell (float fl))) c :
  In c (display_cols fl df) -> In c (columns df).
Proof.
  unfold display_cols. cbv zeta.
  set (cols := List.filter _ (columns df)).
  assert (Hsub : forall x, In x cols -> In x (columns df))
    by (intros x Hx; apply List.filter_In in Hx; tauto).
  destruct (existsb (label_eqb (LStr (L "amt_1_full"))) cols) eqn:Ea;
    destruct (existsb (label_eqb (LStr (L "resp_byte"))) cols) eqn:Er; cbn [andb]; auto.
  intros H. apply Hsub. apply existsb_label_eqb in Ea, Er.
  exact (swap_labels_In _ _ _ _ Ea Er H).
Qed.

Lemma data_columns_Ok (cols display : list label) :
  (forall c, In c display -> In c cols) ->
  exists js, data_columns cols display = Ok js /\
    forall i c, display !! i = Some c ->
      exists j, js !! i = Some (j + 1) /\ cols !! j = Some c.
Proof.
  induction display as [|c t IH]; intros Hsub.
  - exists []. split; [reflexivity|]. intros i c H. destruct i; discriminate H.
  - destruct (position_In c cols (Hsub c (or_introl eq_refl))) as [j Hj].
    destruct IH as (js & Hjs & Hlook); [intros x Hx; apply Hsub; right; exact Hx|].
    exists (j + 1 :: js). split.
    + cbn [data_columns]. unfold get_loc. rewrite Hj. cbn [Exc.bind]. rewrite Hjs. reflexivity.
    + intros [|i] x Hx; simpl in Hx.
      * injection Hx as <-. exists j. split; [reflexivity|]. apply position_lookup. exact Hj.
      * apply Hlook. exact Hx.
Qed.

Lemma data_columns_length (cols display : list label) js :
  data_columns cols display = Ok js -> length js = length display.
Proof.
  revert js. induction display as [|c t IH]; intros js; cbn [data_columns].
  - intros [= <-]. reflexivity.
  - destruct (get_loc c cols); [|discriminate]. cbn [Exc.bind].
    destruct (data_columns cols t) as [rest|]; [|discriminate]. cbn [Exc.bind].
    intros [= <-]. simpl. rewrite (IH rest eq_refl). reflexivity.
Qed.

Lemma In_header_cells row labels c :
  In c (header_cells row labels) <->
  exists i l, labels !! i = Some l /\ c = header_at row (1 + i) l.
Proof.
  unfold header_cells. rewrite <- list_elem_of_In, elem_of_lookup_imap. split.
  - intros (i & l & -> & Hl). exists i, l. auto.
  - intros (i & l & Hl & ->). exists i, l. auto.
Qed.

Lemma In_formula_cells reserved start cols raw c :
  In c (formula_cells reserved start cols raw) <->
  exists r i col,
    r < reserved /\ cols !! i = Some col /\
    c = {| at_row := start + r; at_col := 1 + i;
           value := Formula {| index_col := col;
                               index_first := data_start raw;
                               index_last := data_end raw;
                               match_k := r + 1;
                               match_col := key_col raw;
                               match_first := data_start raw;
                               match_last := data_end raw |} |}.
Proof.
  unfold formula_cells. rewrite in_flat_map. split.
  - intros (r & Hr & Hc). apply in_seq in Hr. apply list_elem_of_In in Hc.
    apply elem_of_lookup_imap in Hc as (i & col & -> & Hcol).
    exists r, i, col. split; [lia|]. auto.
  - intros (r & i & col & Hr & Hcol & ->). exists r. split; [apply in_seq; lia|].
    apply list_elem_of_In. apply elem_of_lookup_imap. exists i, col. auto.
Qed.

Lemma empty_false_len {C} (df : DataFrame C) :
  empty df = false -> 1 <= len df /\ 1 <= length (columns df).
Proof.
  unfold empty, len. intros H. apply orb_false_iff in H as [H1 H2].
  apply Nat.eqb_neq in H1, H2. lia.
Qed.

Section LayoutFacts.
Context (fl : FloatOps).

Lemma sheet_layout_unfold (tlf_df gl_df : DataFrame (cell (float fl))) :
  exists cols,
    data_columns (columns tlf_df) (display_cols fl tlf_df) = Ok cols /\
    sheet_layout fl tlf_df gl_df
    = Ok {| raw_tlf := if empty tlf_df then None else Some (raw_table_at fl 25 tlf_df);
            raw_gl :=
              if empty gl_df then None
              else Some (raw_table_at fl (if empty tlf_df then 25 else 25 + len tlf_df + 4)
                                      gl_df);
            tlf_report := if empty tlf_df then [] else tlf_panel_cells fl tlf_df cols;
            gl_report :=
              if empty gl_df then []
              else gl_panel_cells fl (if empty tlf_df then 6 else 10)
                                  (if empty tlf_df then 25 else 25 + len tlf_df + 4) gl_df |}.
Proof.
  destruct (data_columns_Ok (columns tlf_df) (display_cols fl tlf_df)) as (cols & Hcols & _);
    [apply display_cols_In|].
  exists cols. split; [exact Hcols|].
  unfold sheet_layout. change raw_data_start_row with 25.
  change (search_ui_start_row + 2) with 3. cbv zeta.
  destruct (empty tlf_df), (empty gl_df); cbn [Exc.bind]; rewrite ?Hcols; cbn [Exc.bind];
    reflexivity.
Qed.

End LayoutFacts.

Section PanelFacts.
Context (fl : FloatOps).

Lemma tlf_panel_rows (tlf_df : DataFrame (cell (float fl))) cols c :
  In c (tlf_panel_cells fl tlf_df cols) -> 3 <= at_row c <= 6.
Proof.
  unfold tlf_panel_cells. intros [<- | H]; [simpl; lia|].
  apply in_app_or in H as [H | H].
  - apply In_header_cells in H as (i & l & _ & ->). simpl. lia.
  - apply In_formula_cells in H as (r & i & col & Hr & _ & ->). simpl.
    unfold tlf_reserved_rows in Hr. lia.
Qed.

Lemma gl_panel_rows report_row raw_row (gl_df : DataFrame (cell (float fl))) c :
  In c (gl_panel_cells fl report_row raw_row gl_df) ->
  report_row <= at_row c <= report_row + 11.
Proof.
  unfold gl_panel_cells. intros [<- | H]; [simpl; lia|].
  apply in_app_or in H as [H | H].
  - apply In_header_cells in H as (i & l & _ & ->). simpl. lia.
  - apply In_formula_cells in H as (r & i & col & Hr & _ & ->). simpl.
    unfold gl_reserved_rows in Hr. lia.
Qed.

End PanelFacts.
(** X22.  The layout of a sheet never fails, and its regions do not
    overlap.  The report panels lie in the rows from 3 on and end three
    rows or more above the title row of the first raw table; every cell of
    the reference panel lies more than [gap_rows] rows above every cell of
    the source panel.  A raw table stands below its title row, its header
    row directly above its data rows, which are as many as the table has
    rows; the title of the raw source table stands three rows below the
    last data row of the raw reference table.  A table that is empty has
    neither a raw table nor a panel. *)
Theorem sheet_layout_regions (fl : FloatOps) (tlf_df gl_df : DataFrame (cell (float fl))) :
  exists l,
    sheet_layout fl tlf_df gl_df = Ok l /\
    (raw_tlf l = None <-> empty tlf_df = true) /\
    (raw_gl l = None <-> empty gl_df = true) /\
    (tlf_report l = [] <-> empty tlf_df = true) /\
    (gl_report l = [] <-> empty gl_df = true) /\
    Forall (fun c => search_ui_start_row + 2 <= at_row c /\
                     at_row c + 3 <= raw_data_start_row - 1)
           (tlf_report l ++ gl_report l) /\
    (forall c1 c2, In c1 (tlf_report l) -> In c2 (gl_report l) ->
                   at_row c1 + gap_rows < at_row c2) /\
    (forall raw, raw_tlf l = Some raw \/ raw_gl l = Some raw ->
       raw_data_start_row - 1 <= raw_title_row raw /\
       raw_header_row raw = raw_title_row raw + 1 /\
       data_start raw = raw_header_row raw + 1 /\
       data_start raw <= data_end raw) /\
    (forall a, raw_tlf l = Some a ->
       data_end a + 1 - data_start a = len tlf_df /\ key_col a = length (columns tlf_df)) /\
    (forall b, raw_gl l = Some b ->
       data_end b + 1 - data_start b = len gl_df /\ key_col b = length (columns gl_df)) /\
    (forall a b, raw_tlf l = Some a -> raw_gl l = Some b ->
       raw_title_row b = data_end a + 3).
Proof.
  destruct (sheet_layout_unfold fl tlf_df gl_df) as (cols & _ & Hl).
  eexists. split; [exact Hl|]. cbn [raw_tlf raw_gl tlf_report gl_report].
  change raw_data_start_row with 25. change (search_ui_start_row + 2) with 3.
  unfold gap_rows.
  assert (Htp : forall c, In c (tlf_panel_cells fl tlf_df cols) -> 3 <= at_row c <= 6)
    by apply tlf_panel_rows.
  assert (Hgp : forall r raw c, In c (gl_panel_cells fl r raw gl_df) ->
                                r <= at_row c <= r + 11)
    by (intros r raw c; apply gl_panel_rows).
  assert (Htne : tlf_panel_cells fl tlf_df cols <> []) by discriminate.
  assert (Hgne : forall r raw, gl_panel_cells fl r raw gl_df <> []) by discriminate.
  assert (Hraw : forall row (df : DataFrame (cell (float fl))),
            empty df = false -> 25 <= row ->
            let raw := raw_table_at fl row df in
            25 - 1 <= raw_title_row raw /\
            raw_header_row raw = raw_title_row raw + 1 /\
            data_start raw = raw_header_row raw + 1 /\
            data_start raw <= data_end raw /\
            data_end raw + 1 - data_start raw = len df /\
            key_col raw = length (columns df)).
  { intros row df He Hrow raw. subst raw. apply empty_false_len in He as [? ?].
    unfold raw_table_at. cbn [raw_title_row raw_header_row data_start data_end key_col].
    repeat split; lia. }
  split; [destruct (empty tlf_df); split; congruence|].
  split; [destruct (empty gl_df); split; congruence|].
  split; [destruct (empty tlf_df); split; congruence|].
  split; [destruct (empty gl_df); split; try congruence; intros H; destruct (Hgne _ _ H)|].
  split.
  { apply List.Forall_forall. intros c Hc. apply in_app_or in Hc as [Hc | Hc].
    - destruct (empty tlf_df); [destruct Hc|]. apply Htp in Hc. lia.
    - destruct (empty gl_df); [destruct Hc|].
      destruct (empty tlf_df); apply Hgp in Hc; lia. }
  split.
  { intros c1 c2 H1 H2. destruct (empty tlf_df); [destruct H1|].
    destruct (empty gl_df); [destruct H2|]. apply Htp in H1. apply Hgp in H2. lia. }
  split.
  { intros raw [H | H].
    - destruct (empty tlf_df) eqn:Et; [discriminate|]. injection H as <-.
      destruct (Hraw 25 tlf_df Et ltac:(lia)) as (? & ? & ? & ? & _). auto.
    - destruct (empty gl_df) eqn:Eg; [discriminate|]. injection H as <-.
      destruct (Hraw (if empty tlf_df then 25 else 25 + len tlf_df + 4) gl_df Eg
                  ltac:(destruct (empty tlf_df); lia)) as (? & ? & ? & ? & _). auto. }
  split.
  { intros a H. destruct (empty tlf_df) eqn:Et; [discriminate|]. injection H as <-.
    destruct (Hraw 25 tlf_df Et ltac:(lia)) as (_ & _ & _ & _ & ? & ?). auto. }
  split.
  { intros b H. destruct (empty gl_df) eqn:Eg; [discriminate|]. injection H as <-.
    destruct (Hraw (if empty tlf_df then 25 else 25 + len tlf_df + 4) gl_df Eg
                ltac:(destruct (empty tlf_df); lia)) as (_ & _ & _ & _ & ? & ?). auto. }
  intros a b Ha Hb. destruct (empty tlf_df); [discriminate|].
  destruct (empty gl_df); [discriminate|]. injection Ha as <-. injection Hb as <-.
  unfold raw_table_at. cbn [raw_title_row data_end]. lia.
Qed.

(** X23.  Every formula of a panel looks up and matches on exactly the
    data rows of its raw table, matching on the table's last column.  The
    formulas of the reference panel stand in rows 5 and 6, one row per
    counter [k] from 1 on and one formula under each header; the formula
    under a header reads the one column of the table that carries the
    header's label (for a table with distinct labels).  The formulas of
    the source panel stand in the ten rows below its headers, in the
    first nine columns, and the formula in column [i] reads column [i]. *)
Theorem panel_formulas_read_their_columns (fl : FloatOps)
    (tlf_df gl_df : DataFrame (cell (float fl))) :
  NoDup (columns tlf_df) ->
  exists l,
    sheet_layout fl tlf_df gl_df = Ok l /\
    (forall raw c f,
       raw_tlf l = Some raw -> In c (tlf_report l) -> value c = Formula f ->
       reads_rows f raw /\ 1 <= match_k f <= tlf_reserved_rows /\
       at_row c = 4 + match_k f /\
       exists i lbl j,
         at_col c = 1 + i /\ display_cols fl tlf_df !! i = Some lbl /\
         In (header_at 4 (1 + i) lbl) (tlf_report l) /\
         index_col f = j + 1 /\
         forall j', columns tlf_df !! j' = Some lbl <-> j' = j) /\
    (forall k i lbl,
       empty tlf_df = false -> 1 <= k <= tlf_reserved_rows ->
       display_cols fl tlf_df !! i = Some lbl ->
       exists f, In {| at_row := 4 + k; at_col := 1 + i; value := Formula f |}
                    (tlf_report l) /\ match_k f = k) /\
    (forall raw c f,
       raw_gl l = Some raw -> In c (gl_report l) -> value c = Formula f ->
       reads_rows f raw /\ 1 <= match_k f <= gl_reserved_rows /\
       index_col f = at_col c /\ 1 <= at_col c <= length gl_new_headers /\
       exists title_row,
         In (title_at title_row (L "ATMI")) (gl_report l) /\
         at_row c = title_row + 1 + match_k f).
Proof.
  intros Hnd.
  destruct (sheet_layout_unfold fl tlf_df gl_df) as (cols & Hcols & Hl).
  destruct (data_columns_Ok (columns tlf_df) (display_cols fl tlf_df)) as (cols' & Hcols' & Hlook);
    [apply display_cols_In|].
  rewrite Hcols in Hcols'. injection Hcols' as <-.
  pose proof (data_columns_length _ _ _ Hcols) as Hlen.
  eexists. split; [exact Hl|]. cbn [raw_tlf raw_gl tlf_report gl_report].
  split; [|split].
  - intros raw c f Hraw Hc Hv.
    destruct (empty tlf_df) eqn:Et; [discriminate|]. injection Hraw as <-.
    unfold tlf_panel_cells in Hc. destruct Hc as [<- | Hc]; [discriminate Hv|].
    apply in_app_or in Hc as [Hc | Hc].
    { apply In_header_cells in Hc as (i & l0 & _ & ->). discriminate Hv. }
    apply In_formula_cells in Hc as (r & i & col & Hr & Hcol & ->).
    cbn [value at_row at_col] in *. injection Hv as <-.
    cbn [match_k index_col]. split; [repeat split|]. split; [lia|]. split; [lia|].
    assert (Hi : i < length (display_cols fl tlf_df)).
    { rewrite <- Hlen. apply lookup_lt_Some in Hcol. exact Hcol. }
    destruct (lookup_lt_is_Some_2 _ _ Hi) as [lbl Hlbl].
    destruct (Hlook i lbl Hlbl) as (j & Hj & Hcolj).
    rewrite Hcol in Hj. injection Hj as ->.
    exists i, lbl, j. split; [reflexivity|]. split; [exact Hlbl|]. split.
    + right. apply in_or_app. left. apply In_header_cells. eauto.
    + split; [reflexivity|]. intros j'. split.
      * intros Hj'. exact (NoDup_lookup _ _ _ _ Hnd Hj' Hcolj).
      * intros ->. exact Hcolj.
  - intros k i lbl Et Hk Hlbl. rewrite Et.
    destruct (Hlook i lbl Hlbl) as (j & Hj & _).
    eexists. split.
    + unfold tlf_panel_cells. right. apply in_or_app. right. apply In_formula_cells.
      exists (k - 1), i, (j + 1). split; [lia|]. split; [exact Hj|].
      replace (5 + (k - 1)) with (4 + k) by lia. reflexivity.
    + cbn [match_k]. lia.
  - intros raw c f Hraw Hc Hv.
    destruct (empty gl_df) eqn:Eg; [discriminate|]. injection Hraw as <-.
    unfold gl_panel_cells in Hc. destruct Hc as [<- | Hc]; [discriminate Hv|].
    apply in_app_or in Hc as [Hc | Hc].
    { apply In_header_cells in Hc as (i & l0 & _ & ->). discriminate Hv. }
    apply In_formula_cells in Hc as (r & i & col & Hr & Hcol & ->).
    cbn [value at_row at_col] in *. injection Hv as <-.
    cbn [match_k index_col]. split; [repeat split|]. split; [lia|].
    apply lookup_seq in Hcol as [-> Hi].
    split; [lia|]. split; [lia|].
    eexists. split; [left; reflexivity|]. lia.
Qed.

Lemma panel_formulas_read_their_columns_witness :
  let fl := {| float := Z; float_of_str := fun _ => None; div100 := fun x => x;
               fzero := 0%Z; to_numeric := fun _ => None;
               str_of_float := fun _ => L "0" |} in
  let tlf_df : DataFrame (cell (float fl)) :=
    mkDF [LStr (L "resp_byte"); LStr (L "from_acct"); LStr (L "amt_1_full")]
         [(0%Z, [Str (L "r"); Str (L "f"); Str (L "a")])] in
  let gl_df : DataFrame (cell (float fl)) := mkDF [] [] in
  NoDup (columns tlf_df) /\
  exists l,
    sheet_layout fl tlf_df gl_df = Ok l /\
    map (fun c => (at_row c, at_col c)) (tlf_report l)
    = [(3, 1); (4, 1); (4, 2); (5, 1); (5, 2); (6, 1); (6, 2)].
Proof.
  intros fl tlf_df gl_df.
  assert (H : NoDup (columns tlf_df)).
  { repeat (apply NoDup_cons_2;
            [intros H; repeat (apply elem_of_cons in H as [H | H]; [cbv in H; discriminate H|]);
             apply elem_of_nil in H; exact H|]).
    apply NoDup_nil_2. }
  split; [exact H|].
  destruct (panel_formulas_read_their_columns fl tlf_df gl_df H) as (l & Hl & _).
  exists l. split; [exact Hl|].
  vm_compute in Hl. injection Hl as <-. reflexivity.
Defined.

(** X24.  For a source table read with nine columns and at least one
    row, the source panel of the sheet shows the nine headers in its
    first nine columns; the formula under a header reads the column of
    the loaded table that carries this header, and every formula matches
    on the column [_SearchKey] of the loaded table. *)
Theorem gl_panel_reads_headers (fl : FloatOps)
    (tlf_df gl_raw : DataFrame (cell (float fl))) :
  length (columns gl_raw) = length gl_new_headers ->
  1 <= len gl_raw ->
  exists gl_df l,
    load_gl fl gl_raw = Ok gl_df /\
    sheet_layout fl tlf_df gl_df = Ok l /\
    (forall c lbl, In c (gl_report l) -> value c = Header lbl ->
       exists h, lbl = LStr h /\ gl_new_headers !! (at_col c - 1) = Some h /\
                 1 <= at_col c) /\
    (forall i h, gl_new_headers !! i = Some h ->
       exists row, In (header_at row (1 + i) (LStr h)) (gl_report l)) /\
    (forall c f, In c (gl_report l) -> value c = Formula f ->
       columns gl_df !! (match_col f - 1) = Some (LStr (L "_SearchKey")) /\
       1 <= match_col f /\ 1 <= index_col f /\ index_col f = at_col c /\
       exists h, gl_new_headers !! (at_col c - 1) = Some h /\
                 columns gl_df !! (index_col f - 1) = Some (LStr h)).
Proof.
  intros Hn Hrows.
  destruct (load_gl_nine fl gl_raw Hn) as (gl_df & Hload & Hlen & Hcols).
  assert (E0 : (len gl_raw =? 0) = false) by (apply Nat.eqb_neq; lia).
  rewrite E0 in Hcols.
  assert (Hempty : empty gl_df = false).
  { unfold empty. rewrite Hcols. fold (len gl_df). rewrite Hlen.
    apply orb_false_iff. split; [reflexivity | exact E0]. }
  destruct (sheet_layout_unfold fl tlf_df gl_df) as (cols & _ & Hl).
  rewrite Hempty in Hl.
  exists gl_df. eexists. split; [exact Hload|]. split; [exact Hl|].
  cbn [gl_report]. unfold gl_panel_cells. rewrite Hcols.
  set (report_row := if empty tlf_df then 6 else 10).
  change (List.filter _ (map LStr gl_new_headers ++ [LStr (L "_SearchKey")]))
    with (map LStr gl_new_headers).
  assert (Hhead : forall i h, gl_new_headers !! i = Some h ->
            (map LStr gl_new_headers ++ [LStr (L "_SearchKey")]) !! i = Some (LStr h)).
  { intros i h Hi. rewrite lookup_app_l by (rewrite length_map; eapply lookup_lt_Some; eauto).
    rewrite list_lookup_fmap, Hi. reflexivity. }
  split; [|split].
  - intros c lbl [<- | Hc] Hv; [discriminate Hv|].
    apply in_app_or in Hc as [Hc | Hc].
    + apply In_header_cells in Hc as (i & l0 & Hi & ->). unfold header_at in *.
      cbn [value at_col] in *. injection Hv as <-. rewrite list_lookup_fmap in Hi.
      destruct (gl_new_headers !! i) as [h|] eqn:E; [|discriminate]. injection Hi as <-.
      exists h. replace (1 + i - 1) with i by lia. split; [reflexivity|]. split; [exact E | lia].
    + apply In_formula_cells in Hc as (r & i & col & _ & _ & ->). discriminate Hv.
  - intros i h Hi. exists (report_row + 1). right. apply in_or_app. left.
    apply In_header_cells. exists i, (LStr h). split; [|reflexivity].
    rewrite list_lookup_fmap, Hi. reflexivity.
  - intros c f [<- | Hc] Hv; [discriminate Hv|].
    apply in_app_or in Hc as [Hc | Hc].
    + apply In_header_cells in Hc as (i & l0 & _ & ->). discriminate Hv.
    + apply In_formula_cells in Hc as (r & i & col & _ & Hcol & ->).
      cbn [value at_col] in *. injection Hv as <-.
      cbn [match_col index_col raw_table_at key_col].
      apply lookup_seq in Hcol as [-> Hi]. rewrite Hcols.
      split; [reflexivity|]. split; [simpl; lia|]. split; [lia|]. split; [reflexivity|].
      destruct (lookup_lt_is_Some_2 gl_new_headers i Hi) as [h Hh].
      exists h. replace (1 + i - 1) with i by lia. split; [exact Hh|]. apply Hhead. exact Hh.
Qed.

Lemma gl_panel_reads_headers_witness :
  let fl := {| float := Z; float_of_str := fun _ => None; div100 := fun x => x;
               fzero := 0%Z; to_numeric := fun _ => None;
               str_of_float := fun _ => L "0" |} in
  let nine := [NaN; NaN; NaN; NaN; NaN; NaN; NaN; NaN; Str (L "seq_num:7")] in
  let gl_raw : DataFrame (cell (float fl)) :=
    mkDF (map LInt [9; 10; 11; 12; 13; 15; 38; 39; 51]%Z) [(0%Z, nine)] in
  let tlf_df : DataFrame (cell (float fl)) := mkDF [] [] in
  length (columns gl_raw) = length gl_new_headers /\
  1 <= len gl_raw /\
  exists gl_df l,
    load_gl fl gl_raw = Ok gl_df /\ sheet_layout fl tlf_df gl_df = Ok l /\
    length (gl_report l) = 100.
Proof.
  intros fl nine gl_raw tlf_df.
  assert (H1 : length (columns gl_raw) = length gl_new_headers) by reflexivity.
  assert (H2 : 1 <= len gl_raw) by (vm_compute; lia).
  split; [exact H1|]. split; [exact H2|].
  destruct (gl_panel_reads_headers fl tlf_df gl_raw H1 H2) as (gl_df & l & Hload & Hl & _).
  exists gl_df, l. split; [exact Hload|]. split; [exact Hl|].
  vm_compute in Hload. injection Hload as <-.
  vm_compute in Hl. injection Hl as <-. reflexivity.
Defined.

(** ** The key column of the reference panel *)

Lemma clean_tlf_shape (fl : FloatOps) (raw : DataFrame (cell (float fl))) :
  columns (clean_tlf fl raw) = columns raw /\ len (clean_tlf fl raw) = len raw.
Proof.
  split.
  - unfold clean_tlf. cbv zeta.
    repeat match goal with |- context [if ?b then _ else _] => destruct b end; reflexivity.
  - unfold len. destruct (clean_tlf_rows fl raw) as (a & b & ->). apply length_map.
Qed.

Lemma load_tlf_shape (fl : FloatOps) (raw : DataFrame (cell (float fl))) :
  empty (load_tlf fl raw) = empty raw /\
  len (load_tlf fl raw) = len raw /\
  (empty raw = false -> 8 < length (columns raw) ->
   position (LStr (L "_SearchKey")) (columns raw) = None ->
   columns (load_tlf fl raw) = columns raw ++ [LStr (L "_SearchKey")]) /\
  (length (columns raw) <= 8 -> columns (load_tlf fl raw) = columns raw).
Proof.
  destruct (clean_tlf_shape fl raw) as [Hc Hl].
  assert (He : empty (clean_tlf fl raw) = empty raw).
  { unfold empty. fold (len (clean_tlf fl raw)). fold (len raw). rewrite Hc, Hl. reflexivity. }
  unfold load_tlf. cbv zeta. rewrite He, Hc. 
  destruct (empty raw) eqn:Er; cbn [negb andb].
  { split; [exact He|]. split; [exact Hl|]. split; [discriminate|]. intros _. exact Hc. }
  destruct (8 <? length (columns raw)) eqn:E8.
  2:{ split; [exact He|]. split; [exact Hl|]. split; [|intros _; exact Hc].
      intros _ H8. apply Nat.ltb_ge in E8. lia. }
  apply Nat.ltb_lt in E8.
  set (bases := map (fun c => strip (astype_str fl c)) (iloc_col NaN 8 (clean_tlf fl raw))).
  assert (Hb : length bases = len (clean_tlf fl raw))
    by (subst bases; rewrite length_map; apply iloc_col_length).
  assert (Hlen : len (add_search_key fl bases (clean_tlf fl raw)) = len raw).
  { unfold add_search_key, setitem, len. 
    destruct (position (LStr (L "_SearchKey")) (columns (clean_tlf fl raw))); cbn [rows];
      (rewrite length_zip_with_l_eq;
       [exact Hl | rewrite length_map, search_keys_length; symmetry; exact Hb]). }
  split; [|split; [exact Hlen|split]].
  - unfold empty. fold (len (add_search_key fl bases (clean_tlf fl raw))).
    rewrite Hlen. unfold add_search_key. rewrite setitem_columns_length, Hc.
    unfold empty in Er. fold (len raw) in Er. apply orb_false_iff in Er as [E1 E2].
    fold (len raw). rewrite E2.
    destruct (position (LStr (L "_SearchKey")) (columns raw));
      [rewrite E1; reflexivity | reflexivity].
  - intros _ _ Hp.
    destruct (add_search_key_shape fl bases (clean_tlf fl raw)) as [Hc' _];
      [rewrite Hc; exact Hp | exact Hb |]. rewrite Hc', Hc. reflexivity.
  - intros Hle. lia.
Qed.

(** X25.  The formulas of the reference panel match on the last column
    of the table that is written.  For a reference table with rows, more
    than eight columns and no column labelled [_SearchKey], this column
    is the column [_SearchKey] that loading the table appends.  For a
    reference table with rows and at most eight columns no key is added:
    the table is written with its own columns and the formulas match on
    the last of them. *)
Theorem tlf_panel_key_column (fl : FloatOps)
    (tlf_raw gl_df : DataFrame (cell (float fl))) :
  empty tlf_raw = false ->
  let tlf_df := load_tlf fl tlf_raw in
  exists l raw,
    sheet_layout fl tlf_df gl_df = Ok l /\ raw_tlf l = Some raw /\
    Forall (fun c => forall f, value c = Formula f -> match_col f = key_col raw)
           (tlf_report l) /\
    key_col raw = length (columns tlf_df) /\
    (8 < length (columns tlf_raw) ->
     position (LStr (L "_SearchKey")) (columns tlf_raw) = None ->
     columns tlf_df !! (key_col raw - 1) = Some (LStr (L "_SearchKey"))) /\
    (length (columns tlf_raw) <= 8 ->
     columns tlf_df = columns tlf_raw /\
     columns tlf_raw !! (key_col raw - 1) = List.last (map Some (columns tlf_raw)) None).
Proof.
  intros Hne tlf_df.
  destruct (load_tlf_shape fl tlf_raw) as (He & Hlen & Hkey & Hsmall).
  fold tlf_df in He, Hlen, Hkey, Hsmall. clearbody tlf_df.
  rewrite Hne in He.
  destruct (sheet_layout_unfold fl tlf_df gl_df) as (cols & _ & Hl). rewrite He in Hl.
  exists {| raw_tlf := Some (raw_table_at fl 25 tlf_df);
            raw_gl := if empty gl_df then None
                      else Some (raw_table_at fl (25 + len tlf_df + 4) gl_df);
            tlf_report := tlf_panel_cells fl tlf_df cols;
            gl_report := if empty gl_df then []
                         else gl_panel_cells fl 10 (25 + len tlf_df + 4) gl_df |}.
  exists (raw_table_at fl 25 tlf_df). split; [exact Hl|].
  cbn [raw_tlf tlf_report]. split; [reflexivity|]. split; [|split; [reflexivity|split]].
  - apply List.Forall_forall. intros c Hc f Hv. unfold tlf_panel_cells in Hc.
    destruct Hc as [<- | Hc]; [discriminate Hv|]. apply in_app_or in Hc as [Hc | Hc].
    + apply In_header_cells in Hc as (i & l0 & _ & ->). discriminate Hv.
    + apply In_formula_cells in Hc as (r & i & col & _ & _ & ->).
      cbn [value] in Hv. injection Hv as <-. reflexivity.
  - intros H8 Hp. cbn [raw_table_at key_col]. rewrite (Hkey Hne H8 Hp).
    rewrite length_app. cbn [length].
    replace (length (columns tlf_raw) + 1 - 1) with (length (columns tlf_raw) + 0) by lia.
    rewrite lookup_app_r by lia.
    replace (length (columns tlf_raw) + 0 - length (columns tlf_raw)) with 0 by lia.
    reflexivity.
  - intros Hle. specialize (Hsmall Hle). split; [exact Hsmall|].
    cbn [raw_table_at key_col]. rewrite Hsmall.
    generalize (columns tlf_raw). intros ls.
    destruct ls as [|x t] using rev_ind; [reflexivity|].
    rewrite length_app, map_app. cbn [map length]. rewrite last_last.
    replace (length t + 1 - 1) with (length t + 0) by lia.
    rewrite lookup_app_r by lia. replace (length t + 0 - length t) with 0 by lia. reflexivity.
Qed.

Lemma tlf_panel_key_column_witness :
  let fl := {| float := Z; float_of_str := fun _ => None; div100 := fun x => x;
               fzero := 0%Z; to_numeric := fun _ => None;
               str_of_float := fun _ => L "0" |} in
  let tlf_raw : DataFrame (cell (float fl)) :=
    mkDF [LStr (L "a"); LStr (L "b")] [(0%Z, [Str (L " x "); NaN])] in
  let gl_df : DataFrame (cell (float fl)) := mkDF [] [] in
  empty tlf_raw = false /\
  exists l raw,
    sheet_layout fl (load_tlf fl tlf_raw) gl_df = Ok l /\ raw_tlf l = Some raw /\
    key_col raw = 2.
Proof.
  intros fl tlf_raw gl_df.
  assert (H : empty tlf_raw = false) by reflexivity.
  split; [exact H|].
  destruct (tlf_panel_key_column fl tlf_raw gl_df H) as (l & raw & Hl & Hraw & _ & Hk & _).
  exists l, raw. split; [exact Hl|]. split; [exact Hraw|]. rewrite Hk. reflexivity.
Defined.

(** ** The column widths *)

Section WidthFacts.
Context (fl : FloatOps).

Lemma update_one_keys (df : DataFrame (cell (float fl))) cw i l n :
  (forall k v, cw !! k = Some v -> 1 <= k <= n) -> 1 + i <= n ->
  forall k v, update_one fl df cw (i, l) !! k = Some v -> 1 <= k <= n.
Proof.
  intros Hcw Hi k v. unfold update_one. cbv zeta.
  destruct (decide (k = 1 + i)) as [-> | Hne].
  - intros _. lia.
  - rewrite lookup_insert_ne by congruence. apply Hcw.
Qed.

Lemma update_one_grows (df : DataFrame (cell (float fl))) cw x k v :
  cw !! k = Some v -> exists v', update_one fl df cw x !! k = Some v' /\ v <= v'.
Proof.
  destruct x as [i l]. intros Hk. unfold update_one. cbv zeta.
  destruct (decide (k = 1 + i)) as [-> | Hne].
  - rewrite lookup_insert_eq. rewrite Hk. simpl. eexists. split; [reflexivity | lia].
  - rewrite lookup_insert_ne by congruence. eauto.
Qed.

Lemma fold_update_grows (df : DataFrame (cell (float fl))) xs : forall cw k v,
  cw !! k = Some v ->
  exists v', fold_left (update_one fl df) xs cw !! k = Some v' /\ v <= v'.
Proof.
  induction xs as [|x xs IH]; intros cw k v Hk; simpl.
  - eexists. split; [exact Hk | lia].
  - destruct (update_one_grows df cw x k v Hk) as (v1 & H1 & Hle).
    destruct (IH _ k v1 H1) as (v2 & H2 & Hle2). exists v2. split; [exact H2 | lia].
Qed.

Lemma fold_update_keys (df : DataFrame (cell (float fl))) n (ls : list label) :
  forall start cw,
    (forall k v, cw !! k = Some v -> 1 <= k <= n) -> start + length ls <= n ->
    forall k v,
      fold_left (update_one fl df) (imap (fun i l => (start + i, l)) ls) cw !! k = Some v ->
      1 <= k <= n.
Proof.
  induction ls as [|l ls IH]; intros start cw Hcw Hn; [exact Hcw|].
  simpl in Hn. cbn [imap fold_left].
  rewrite (imap_ext _ (fun i l0 => (S start + i, l0))) by (intros; unfold compose; f_equal; lia).
  apply IH; [|lia].
  replace (start + 0) with start by lia. apply update_one_keys; [exact Hcw | lia].
Qed.

Lemma update_max_width_keys (df : DataFrame (cell (float fl))) cw n :
  (forall k v, cw !! k = Some v -> 1 <= k <= n) -> length (columns df) <= n ->
  forall k v, update_max_width fl df cw !! k = Some v -> 1 <= k <= n.
Proof.
  intros Hcw Hn. unfold update_max_width.
  rewrite (imap_ext _ (fun i l0 => (0 + i, l0))) by reflexivity.
  apply fold_update_keys; [exact Hcw | lia].
Qed.

Lemma update_max_width_first (df : DataFrame (cell (float fl))) cw l rest :
  columns df = l :: rest ->
  exists v, update_max_width fl df cw !! 1 = Some v /\ length (str_of_label l) + 3 <= v.
Proof.
  intros Hc. unfold update_max_width. rewrite Hc. cbn [imap fold_left].
  assert (H1 : exists v1, update_one fl df cw (0, l) !! 1 = Some v1 /\
                          length (str_of_label l) + 3 <= v1).
  { unfold update_one. cbv zeta. change (1 + 0) with 1. rewrite lookup_insert_eq.
    eexists. split; [reflexivity|].
    destruct (negb (empty df)); [destruct (getitem NaN l df)|]; lia. }
  destruct H1 as (v1 & H1 & Hle).
  destruct (fold_update_grows df (imap ((fun i col_name => (i, col_name)) ∘ S) rest)
              _ 1 v1 H1) as (v & Hv & Hle').
  exists v. split; [exact Hv | lia].
Qed.

Lemma update_max_width_grows (df : DataFrame (cell (float fl))) cw k v :
  cw !! k = Some v -> exists v', update_max_width fl df cw !! k = Some v' /\ v <= v'.
Proof. apply fold_update_grows. Qed.

Lemma collected_widths_keys (tlf_df gl_df : DataFrame (cell (float fl))) k v :
  collected_widths fl tlf_df gl_df !! k = Some v ->
  1 <= k <= Nat.max (length (columns tlf_df)) (length (columns gl_df)).
Proof.
  unfold collected_widths. cbv zeta.
  set (n := Nat.max (length (columns tlf_df)) (length (columns gl_df))).
  assert (H0 : forall k v, (∅ : gmap nat nat) !! k = Some v -> 1 <= k <= n)
    by (intros k0 v0 H; rewrite lookup_empty in H; discriminate H).
  assert (H1 : forall k v,
            (if negb (empty tlf_df) then update_max_width fl tlf_df ∅ else ∅) !! k = Some v ->
            1 <= k <= n).
  { destruct (negb (empty tlf_df)); [|exact H0].
    apply update_max_width_keys; [exact H0 | subst n; lia]. }
  destruct (negb (empty gl_df)); [|apply H1].
  apply update_max_width_keys; [exact H1 | subst n; lia].
Qed.

End WidthFacts.

(** X26.  Every sheet gets a width for column [A], and it is at least
    30.  Every other column that gets a width is one of the columns of
    the wider of the two tables, and its width lies between 12 and 60.
    The width of column [A] is not capped at 60: when the reference
    table is written, it is at least the length of its first label plus
    three.  A sheet without tables gets the width 30 for column [A] and
    no other width. *)
Theorem column_widths_bounds (fl : FloatOps) (tlf_df gl_df : DataFrame (cell (float fl))) :
  let widths := column_widths fl tlf_df gl_df in
  (exists a, widths !! 1 = Some a /\ 30 <= a) /\
  (forall k v, widths !! k = Some v -> k <> 1 ->
     2 <= k <= Nat.max (length (columns tlf_df)) (length (columns gl_df)) /\
     12 <= v <= 60) /\
  (forall l rest, empty tlf_df = false -> columns tlf_df = l :: rest ->
     exists a, widths !! 1 = Some a /\ length (str_of_label l) + 3 <= a) /\
  (empty tlf_df = true -> empty gl_df = true -> widths = {[1 := 30]}).
Proof.
  intros widths. subst widths. unfold column_widths. cbv zeta.
  split; [|split; [|split]].
  - rewrite lookup_insert_eq. eexists. split; [reflexivity | lia].
  - intros k v Hk Hne. rewrite lookup_insert_ne in Hk by congruence.
    rewrite lookup_fmap in Hk.
    destruct (collected_widths fl tlf_df gl_df !! k) as [w0|] eqn:E; [|discriminate Hk].
    injection Hk as <-. apply collected_widths_keys in E. split; lia.
  - intros l rest He Hc. rewrite lookup_insert_eq. eexists. split; [reflexivity|].
    assert (H : exists v, collected_widths fl tlf_df gl_df !! 1 = Some v /\
                          length (str_of_label l) + 3 <= v).
    { unfold collected_widths. cbv zeta. rewrite He. cbn [negb].
      destruct (update_max_width_first fl tlf_df ∅ l rest Hc) as (v1 & H1 & Hle).
      destruct (negb (empty gl_df)); [|eauto].
      destruct (update_max_width_grows fl gl_df _ 1 v1 H1) as (v2 & H2 & Hle2).
      exists v2. split; [exact H2 | lia]. }
    destruct H as (v & -> & Hle). simpl. lia.
  - intros Ht Hg. unfold collected_widths. rewrite Ht, Hg. cbn [negb].
    rewrite fmap_empty, lookup_empty. reflexivity.
Qed.

Example column_widths_ex :
  let fl := {| float := Z; float_of_str := fun _ => None; div100 := fun x => x;
               fzero := 0%Z; to_numeric := fun _ => None;
               str_of_float := fun _ => L "0" |} in
  let long := L "0123456789012345678901234567890123456789012345678901234567890123456789" in
  let tlf_df : DataFrame (cell (float fl)) :=
    mkDF [LStr (L "a"); LStr (L "b"); LStr (L "c")]
         [(0%Z, [Str long; Str long; Str (L "x")])] in
  let widths := column_widths fl tlf_df (mkDF [] []) in
  (widths !! 1, widths !! 2, widths !! 3, widths !! 4) = (Some 73, Some 60, Some 12, None).
Proof. vm_compute. reflexivity. Qed.

(** ** The positions of the reference columns *)

Lemma index_None (x : str) (l : list str) : index x l = None <-> ~ In x l.
Proof.
  induction l as [|y t IH]; simpl; [tauto|].
  destruct (str_eqb x y) eqn:E.
  - apply str_eqb_eq in E. split; [discriminate | intros H; exfalso; apply H; auto].
  - apply str_eqb_neq in E. destruct (index x t); simpl.
    + split; [discriminate|]. intros H. exfalso. apply H. right.
      destruct (in_dec (List.list_eq_dec ascii_dec) x t) as [Hin|Hn]; [exact Hin|].
      apply IH in Hn. discriminate Hn.
    + split; [|reflexivity]. intros _ [H | H]; [congruence|].
      destruct IH as [IH _]. exact (IH eq_refl H).
Qed.

(** X27.  [get_col_pos_in_tlf] returns [-1] exactly for a name that is
    not one of the reference column letters.  For the eighteen letters it
    returns a position from 0 to 17, and the positions follow the order
    of the columns in the sheet: of two letters, the one with the smaller
    column index has the smaller position. *)
Theorem get_col_pos_in_tlf_spec (target_letter : str) :
  (get_col_pos_in_tlf target_letter = (-1)%Z <-> ~ In target_letter tlf_columns_letters) /\
  (In target_letter tlf_columns_letters ->
   (0 <= get_col_pos_in_tlf target_letter < Z.of_nat (length tlf_columns_letters))%Z) /\
  (forall other,
     In target_letter tlf_columns_letters -> In other tlf_columns_letters ->
     ((get_col_pos_in_tlf target_letter < get_col_pos_in_tlf other)%Z <->
      (excel_col_to_index target_letter < excel_col_to_index other)%Z)).
Proof.
  assert (Hin : In target_letter tlf_columns_letters ->
                (0 <= get_col_pos_in_tlf target_letter < 18)%Z).
  { intros H. unfold tlf_columns_letters in H.
    repeat (destruct H as [<- | H]; [vm_compute; split; [discriminate | reflexivity]|]).
    destruct H. }
  split; [|split].
  - split.
    + intros H Hi. apply Hin in Hi. lia.
    + intros Hn. unfold get_col_pos_in_tlf. cbv zeta.
      set (sorted := stable_sort _ tlf_columns_letters).
      assert (Hs : index target_letter sorted = None).
      { apply index_None. intros H. apply Hn. subst sorted.
        eapply Permutation_in; [apply stable_sort_perm | exact H]. }
      rewrite Hs. reflexivity.
  - exact Hin.
  - intros other H1 H2. unfold tlf_columns_letters in H1, H2.
    repeat (destruct H1 as [<- | H1];
            [repeat (destruct H2 as [<- | H2]; [vm_compute; split; congruence|]);
             destruct H2|]).
    destruct H1.
Qed.
